(** * dirsniff: the classification engine, embedded in Rocq

    A shallow embedding of [dirsniff.ts]: the entry partitioner
    ([collate] and the bucket predicates of [processDirents]), the
    extension tabulator ([countArrayFieldsToObject]), the signature table
    ([autoIdentify]), the collection heuristic ([checkForCollections]),
    the additional notes ([checkAdditionalNotes]), the recursive explorer
    ([processFilename] / [processDirents]) and the command line
    ([processCommandline]).

    JavaScript strings are modelled as [string]: a character is a code
    unit in the range 0..255.  JavaScript numbers are IEEE 754 binary64
    values, modelled by [spec_float] at precision 53. *)

From Stdlib Require Import List String Ascii Bool Arith ZArith Lia Permutation.
From Stdlib Require Import Floats.SpecFloat.
From Stdlib Require Import Numbers.DecimalString.
Import ListNotations.

Open Scope string_scope.
Open Scope list_scope.
Open Scope nat_scope.

(* ================================================================== *)
(** * The JavaScript built-ins the program calls *)
(* ================================================================== *)

Module JS.

(** ** Strings *)

(** [s[0] === c] : the first code unit of [s] is [c] ([s[0]] is
    [undefined] on the empty string). *)
Definition first_is (c : ascii) (s : string) : bool :=
  match s with
  | EmptyString => false
  | String a _ => Ascii.eqb a c
  end.

(** [s.includes(c)] for a one-character needle. *)
Fixpoint includes_char (c : ascii) (s : string) : bool :=
  match s with
  | EmptyString => false
  | String a s' => Ascii.eqb a c || includes_char c s'
  end.

(** [String.prototype.toLowerCase] on code units 0..255: A-Z and the
    Latin-1 capitals U+00C0..U+00DE (but the sign U+00D7) move up
    by 32. *)
Definition lower_char (c : ascii) : ascii :=
  let n := nat_of_ascii c in
  if ((65 <=? n) && (n <=? 90))%nat
     || ((192 <=? n) && (n <=? 222) && negb (n =? 215))%nat
  then ascii_of_nat (n + 32)
  else c.

Fixpoint toLowerCase (s : string) : string :=
  match s with
  | EmptyString => EmptyString
  | String a s' => String (lower_char a) (toLowerCase s')
  end.

(** [s.split(sep)] for a one-character separator: the pieces between
    the separators, [[""]] for the empty string. *)
Fixpoint split_from (sep : ascii) (cur : string) (s : string) : list string :=
  match s with
  | EmptyString => [cur]
  | String a s' =>
      if Ascii.eqb a sep then cur :: split_from sep "" s'
      else split_from sep (cur ++ String a "") s'
  end.

Definition split (sep : ascii) (s : string) : list string :=
  split_from sep "" s.

(** [s.substring(1)] *)
Definition substring1 (s : string) : string :=
  match s with
  | EmptyString => EmptyString
  | String _ s' => s'
  end.

(** [`${n}`] for a non-negative integer count. *)
Definition nat_to_string (n : nat) : string :=
  NilEmpty.string_of_uint (Nat.to_uint n).

(** ** Numbers *)

Definition number := spec_float.
Definition prec : Z := 53.
Definition emax : Z := 1024.

Definition NaN : number := S754_nan.

(** [a === b] on numbers: IEEE equality, [NaN] differs from everything
    and the two zeros are equal. *)
Definition strict_eq (a b : number) : bool := SFeqb a b.

(** The number value of the integer [m] (round to nearest, ties to
    even); [neg] is the sign of a zero result. *)
Definition of_Z (neg : bool) (m : Z) : number :=
  binary_normalize prec emax (if neg then (- m)%Z else m) 0 neg.

(** The number value of [m / d], for [0 <= m] and [0 < d]. *)
Definition of_quotient (neg : bool) (m d : Z) : number :=
  if (m =? 0)%Z then S754_zero neg
  else
    let '(q, e, l) := SFdiv_core_binary prec emax m 0 d 0 in
    binary_round_aux prec emax neg q e l.

(** StrWhiteSpaceChar, among the code units 0..255: TAB, LF, VT, FF,
    CR, SP and NBSP. *)
Definition isWhiteSpace (c : ascii) : bool :=
  let n := nat_of_ascii c in
  (((9 <=? n) && (n <=? 13)) || (n =? 32) || (n =? 160))%nat.

Definition digit_value (c : ascii) : option Z :=
  let n := nat_of_ascii c in
  if ((48 <=? n) && (n <=? 57))%nat then Some (Z.of_nat (n - 48)) else None.

Definition hex_value (c : ascii) : option Z :=
  let n := nat_of_ascii c in
  if ((48 <=? n) && (n <=? 57))%nat then Some (Z.of_nat (n - 48))
  else if ((65 <=? n) && (n <=? 70))%nat then Some (Z.of_nat (n - 55))
  else if ((97 <=? n) && (n <=? 102))%nat then Some (Z.of_nat (n - 87))
  else None.

Fixpoint trimStart (s : string) : string :=
  match s with
  | EmptyString => EmptyString
  | String a s' => if isWhiteSpace a then trimStart s' else s
  end.

(** Dropping the white space at the end: [None] stands for a string of
    white space only. *)
Fixpoint trimEnd_aux (s : string) : option string :=
  match s with
  | EmptyString => None
  | String a s' =>
      match trimEnd_aux s' with
      | Some t => Some (String a t)
      | None => if isWhiteSpace a then None else Some (String a "")
      end
  end.

Definition trimEnd (s : string) : string :=
  match trimEnd_aux s with Some t => t | None => "" end.

Definition trim (s : string) : string := trimEnd (trimStart s).

(** The longest prefix of digits in radix [radix], read as an integer
    with [acc] in front; the count of digits read; and the rest. *)
Fixpoint digits_prefix (value : ascii -> option Z) (radix : Z)
         (acc : Z) (count : nat) (s : string) : Z * nat * string :=
  match s with
  | EmptyString => (acc, count, s)
  | String a s' =>
      match value a with
      | Some d =>
          if (d <? radix)%Z
          then digits_prefix value radix (acc * radix + d)%Z (S count) s'
          else (acc, count, s)
      | None => (acc, count, s)
      end
  end.

(** An optional sign in front: whether it is a minus, and what
    follows it. *)
Definition sign (s : string) : bool * string :=
  match s with
  | EmptyString => (false, s)
  | String a r =>
      if Ascii.eqb a "-" then (true, r)
      else if Ascii.eqb a "+" then (false, r)
      else (false, s)
  end.

(** [parseInt(s, 10)]: leading white space, an optional sign, then the
    longest prefix of decimal digits; [NaN] without a digit. *)
Definition parseInt10 (s : string) : number :=
  let '(neg, s2) := sign (trimStart s) in
  let '(mathInt, count, _) := digits_prefix digit_value 10 0 0 s2 in
  match count with
  | O => NaN
  | S _ => of_Z neg mathInt
  end.

(** ExponentPart, or nothing, up to the end: the exponent. *)
Definition exponentPart (s : string) : option Z :=
  match s with
  | EmptyString => Some 0%Z
  | String c r =>
      if Ascii.eqb c "e" || Ascii.eqb c "E" then
        let '(eneg, r1) := sign r in
        match digits_prefix digit_value 10 0 0 r1 with
        | (_, O, _) => None
        | (e, S _, EmptyString) => Some (if eneg then (- e)%Z else e)
        | (_, S _, String _ _) => None
        end
      else None
  end.

Definition scaled (neg : bool) (m e10 : Z) : number :=
  if (0 <=? e10)%Z then of_Z neg (m * 10 ^ e10)
  else of_quotient neg m (10 ^ (- e10)).

(** The fraction after the integer part [ipart]: the digits after a
    dot, read on behind [ipart]; their count; whether there was a dot;
    and the rest. *)
Definition fraction (ipart : Z) (r : string) : Z * nat * string :=
  match r with
  | EmptyString => (ipart, O, r)
  | String a r' =>
      if Ascii.eqb a "." then digits_prefix digit_value 10 ipart 0 r'
      else (ipart, O, r)
  end.

(** StrUnsignedDecimalLiteral: [Infinity], or digits [. digits?]
    exponent?, or [. digits exponent?]; the value is
    [mantissa * 10 ^ (exponent - fraction digits)]. *)
Definition unsignedDecimal (neg : bool) (s : string) : number :=
  if String.eqb s "Infinity" then S754_infinity neg
  else
    let '(ipart, icount, r) := digits_prefix digit_value 10 0 0 s in
    let '(m, fcount, r1) := fraction ipart r in
    match icount, fcount with
    | O, O => NaN
    | _, _ =>
        match exponentPart r1 with
        | Some e => scaled neg m (e - Z.of_nat fcount)
        | None => NaN
        end
    end.

(** The radix a prefix letter stands for. *)
Definition radix_of (p : ascii) : option Z :=
  if Ascii.eqb p "x" || Ascii.eqb p "X" then Some 16%Z
  else if Ascii.eqb p "o" || Ascii.eqb p "O" then Some 8%Z
  else if Ascii.eqb p "b" || Ascii.eqb p "B" then Some 2%Z
  else None.

(** NonDecimalIntegerLiteral: [0x], [0o], [0b] (either case) and at
    least one digit of that radix up to the end; [None] for a string
    that does not start this way. *)
Definition nonDecimal (s : string) : option number :=
  match s with
  | String z (String p r) =>
      if Ascii.eqb z "0" then
        match radix_of p with
        | Some rx =>
            match digits_prefix hex_value rx 0 0 r with
            | (v, S _, EmptyString) => Some (of_Z false v)
            | _ => Some NaN
            end
        | None => None
        end
      else None
  | _ => None
  end.

(** [Number(s)] on a string (StringToNumber). *)
Definition Number (s : string) : number :=
  let t := trim s in
  match t with
  | EmptyString => S754_zero false
  | String a r =>
      if Ascii.eqb a "-" then unsignedDecimal true r
      else if Ascii.eqb a "+" then unsignedDecimal false r
      else match nonDecimal t with
           | Some v => v
           | None => unsignedDecimal false t
           end
  end.

End JS.

(* ================================================================== *)
(** * [path.extname] of Node (POSIX flavour) *)
(* ================================================================== *)

Module Path.

(** The state of the scan of [extname], which walks the path from its
    last character to its first. *)
Record scan := mkScan {
  startDot : Z;
  startPart : Z;
  end_ : Z;
  matchedSlash : bool;
  preDotState : Z
}.

Definition scan0 : scan := mkScan (-1) 0 (-1) true 0.

(** One iteration per character, [i] being its index; a separator met
    after the last component ends the loop ([break]). *)
Fixpoint extname_loop (rev_path : list ascii) (i : Z) (st : scan) : scan :=
  match rev_path with
  | [] => st
  | char :: rest =>
      if Ascii.eqb char "/" then
        if negb (matchedSlash st)
        then mkScan (startDot st) (i + 1) (end_ st) (matchedSlash st) (preDotState st)
        else extname_loop rest (i - 1) st
      else
        let st1 :=
          if (end_ st =? -1)%Z
          then mkScan (startDot st) (startPart st) (i + 1) false (preDotState st)
          else st in
        let st2 :=
          if Ascii.eqb char "." then
            if (startDot st1 =? -1)%Z
            then mkScan i (startPart st1) (end_ st1) (matchedSlash st1) (preDotState st1)
            else if negb (preDotState st1 =? 1)%Z
                 then mkScan (startDot st1) (startPart st1) (end_ st1) (matchedSlash st1) 1
                 else st1
          else if negb (startDot st1 =? -1)%Z
               then mkScan (startDot st1) (startPart st1) (end_ st1) (matchedSlash st1) (-1)
               else st1 in
        extname_loop rest (i - 1) st2
  end.

Definition extname (path : string) : string :=
  let st := extname_loop (rev (list_ascii_of_string path))
                         (Z.of_nat (String.length path) - 1) scan0 in
  if (startDot st =? -1)%Z
     || (end_ st =? -1)%Z
     || (preDotState st =? 0)%Z
     || ((preDotState st =? 1)%Z
         && (startDot st =? end_ st - 1)%Z
         && (startDot st =? startPart st + 1)%Z)
  then ""
  else substring (Z.to_nat (startDot st))
                 (Z.to_nat (end_ st - startDot st)) path.

End Path.

(* ================================================================== *)
(** * Types used in various places of the project *)
(* ================================================================== *)

Module DirentStat.
Record t := mk {
  isFile : bool;
  isDirectory : bool;
  isSymbolicLink : bool;
  name : string;
  size : option Z;
  statError : option string
}.
End DirentStat.

Inductive AdditionalInfoKind :=
| GitRepository
| GitHubRepository
| MacFinderFiles.

Definition AdditionalInfo := list AdditionalInfoKind.

Inductive EntryKind :=
| Unknown
| Error
| File
| Directory
| SymbolicLink.

(** What a failing file-system call throws: a [NodeJS.ErrnoException]. *)
Record ErrnoException := mkErrno {
  code : option string;
  message : string
}.

(** [{ [index: string]: number }], filled by assignment only: the keys
    in the order of their first assignment, which is the order of
    [Object.keys] as long as no key is an array index; the keys of this
    program are results of [path.extname]. *)
Definition extensionObject := list (string * nat).

(** [DirentStat[] | string[] | extensionObject]; the program only puts
    arrays of names and extension objects into it. *)
Inductive collection :=
| Names (a : list string)
| Counts (ob : extensionObject).

Module DirectoryInfo.
#[local] Unset Elimination Schemes.
Inductive t := mk {
  name : string;
  kind : EntryKind;
  identified : bool;
  error : option ErrnoException;
  additionalInfo : option AdditionalInfo;
  identificationFailures : option (list string);
  answers : option (list string);
  collections : option string;
  verboseSummary : option string;
  directoryInfos : option (list t)
}.
End DirectoryInfo.

(* ================================================================== *)
(** * The entry partitioner *)
(* ================================================================== *)

Section Collate.
Context {T : Type}.

(** [tests.some((t, i) => { const r = t(d); if (r) index = i; return r })]:
    the index of the first test that holds, [index] without one. *)
Fixpoint some_index (tests : list (T -> bool)) (d : T) (i index : nat) : nat :=
  match tests with
  | [] => index
  | t :: ts => if t d then i else some_index ts d (S i) index
  end.

(** [a[index].push(d)]; [index] is at most [tests.length] and [a] has
    [tests.length + 1] arrays, so that [a[index]] is always there. *)
Fixpoint push_at (a : list (list T)) (index : nat) (d : T) : list (list T) :=
  match a, index with
  | [], _ => []
  | b :: bs, O => (b ++ [d]) :: bs
  | b :: bs, S i => b :: push_at bs i d
  end.

Definition collate (input : list T) (tests : list (T -> bool)) : list (list T) :=
  fold_left
    (fun a d => push_at a (some_index tests d 0 (List.length tests)) d)
    input
    (repeat [] (List.length tests + 1)).
End Collate.

(** [UUIDRegex]:
    [^[0-9A-Fa-f]{8}-[0-9A-Fa-f]{4}-[0-9A-Fa-f]{4}-[0-9A-Fa-f]{4}-[0-9A-Fa-f]{12}$|^[0-9A-Fa-f]{32}$] *)
Module UUIDRegex.

Definition hex (c : ascii) : bool :=
  match JS.hex_value c with Some _ => true | None => false end.

(** [[0-9A-Fa-f]{n}] at the start of [s]: what follows it. *)
Fixpoint hexes (n : nat) (s : string) : option string :=
  match n, s with
  | O, _ => Some s
  | S n', String c s' => if hex c then hexes n' s' else None
  | S _, EmptyString => None
  end.

Definition dash (s : option string) : option string :=
  match s with
  | Some (String "-" s') => Some s'
  | _ => None
  end.

Definition at_end (s : option string) : bool :=
  match s with
  | Some EmptyString => true
  | _ => false
  end.

Definition cont (n : nat) (s : option string) : option string :=
  match s with
  | Some s' => hexes n s'
  | None => None
  end.

Definition test (name : string) : bool :=
  at_end (cont 12 (dash (cont 4 (dash (cont 4 (dash (cont 4 (dash (hexes 8 name)))))))))
  || at_end (hexes 32 name).

End UUIDRegex.

(** The nine tests of [processDirents], in their order. *)
Definition tests : list (DirentStat.t -> bool) :=
  [ (fun d => match DirentStat.statError d with Some _ => true | None => false end)  (* 0 broken *)
  ; (fun d => DirentStat.isSymbolicLink d)                                           (* 1 symlink *)
  ; (fun d => negb (DirentStat.isFile d) && negb (DirentStat.isDirectory d))         (* 2 unknown type *)
  ; (fun d => DirentStat.isFile d && JS.first_is "." (DirentStat.name d))            (* 3 dot file *)
  ; (fun d => DirentStat.isFile d)                                                   (* 4 normal file *)
  ; (fun d => DirentStat.isDirectory d && JS.first_is "." (DirentStat.name d))       (* 5 dot dir *)
  ; (fun d => DirentStat.isDirectory d && JS.includes_char "." (DirentStat.name d))  (* 7 dir with file extension *)
  ; (fun d => DirentStat.isDirectory d && UUIDRegex.test (DirentStat.name d))        (* 8 UUID *)
  ; (fun d => DirentStat.isDirectory d)                                              (* 9 normal dir *)
  ].

(** [collate(dirents, tests).map((dsa) => dsa.map((ds) => ds.name))] *)
Definition buckets (dirents : list DirentStat.t) : list (list string) :=
  map (fun dsa => map DirentStat.name dsa) (collate dirents tests).

(** The destructuring [const [brokenEntries, ..., shouldBeEmpty] = ...]. *)
Definition bucket (i : nat) (dirents : list DirentStat.t) : list string :=
  nth i (buckets dirents) [].

(** [zeroLenFilenames] *)
Definition zeroLenFilenames (dirents : list DirentStat.t) : list string :=
  map DirentStat.name
      (filter (fun d => DirentStat.isFile d
                        && match DirentStat.size d with
                           | Some n => (n =? 0)%Z
                           | None => false
                           end) dirents).

(** The arrays of strings [processDirents] derives from its entries,
    under the names of its local constants. *)
Module Buckets.
Definition brokenEntries (dirents : list DirentStat.t) := bucket 0 dirents.
Definition symbolicLinks (dirents : list DirentStat.t) := bucket 1 dirents.
Definition unknownEntries (dirents : list DirentStat.t) := bucket 2 dirents.
Definition dotFiles (dirents : list DirentStat.t) := bucket 3 dirents.
Definition normalFiles (dirents : list DirentStat.t) := bucket 4 dirents.
Definition dotDirectories (dirents : list DirentStat.t) := bucket 5 dirents.
Definition directoriesWithExtensions (dirents : list DirentStat.t) := bucket 6 dirents.
Definition UUIDDirectories (dirents : list DirentStat.t) := bucket 7 dirents.
Definition normalDirectories (dirents : list DirentStat.t) := bucket 8 dirents.
Definition shouldBeEmpty (dirents : list DirentStat.t) := bucket 9 dirents.

Definition fileExtensions (dirents : list DirentStat.t) : list string :=
  map (fun d => Path.extname d)
      (filter (fun n => JS.includes_char "." n) (normalFiles dirents)).

Definition dirExtensions (dirents : list DirentStat.t) : list string :=
  map (fun d => Path.extname d) (directoriesWithExtensions dirents).
End Buckets.

(* ================================================================== *)
(** * The extension tabulator *)
(* ================================================================== *)

(** [obj[k]] *)
Fixpoint lookup (obj : extensionObject) (k : string) : option nat :=
  match obj with
  | [] => None
  | (k', v) :: rest => if String.eqb k' k then Some v else lookup rest k
  end.

(** [obj[k] = v]: in place for a key that is there, at the end for a
    new one. *)
Fixpoint assign (obj : extensionObject) (k : string) (v : nat) : extensionObject :=
  match obj with
  | [] => [(k, v)]
  | (k', v') :: rest =>
      if String.eqb k' k then (k', v) :: rest else (k', v') :: assign rest k v
  end.

(** [Object.keys(obj)] *)
Definition keys (obj : extensionObject) : list string := map fst obj.

(** [countArrayFieldsToObject]; [lcs in obj] is read as "[lcs] is a key
    of [obj]".  That is the code for the strings the program passes,
    the results of [path.extname]: they are empty or start with a dot,
    so none of them names a property that [{}] inherits from
    [Object.prototype] (as [constructor] or [__proto__] would) and none
    is an array index. *)
Definition countArrayFieldsToObject (array : list string) (foldcase : bool)
  : extensionObject :=
  fold_left
    (fun obj str =>
       let lcs := if foldcase then JS.toLowerCase str else str in
       (* obj[lcs] = lcs in obj ? obj[lcs] + 1 : 1 *)
       assign obj lcs (match lookup obj lcs with
                       | Some n => n + 1
                       | None => 1
                       end))
    array [].

(* ================================================================== *)
(** * The containment tests *)
(* ================================================================== *)

Definition includesAll (dirents filenames : list string) : bool :=
  forallb (fun n => existsb (fun d => String.eqb d n) dirents) filenames.

Definition includesAny (dirents filenames : list string) : bool :=
  existsb (fun n => existsb (fun d => String.eqb d n) dirents) filenames.

(** [strings.includes(str[0])] *)
Definition includes (strings str : list string) : bool :=
  match str with
  | [] => false
  | str0 :: _ => existsb (fun d => String.eqb d str0) strings
  end.

(* ================================================================== *)
(** * The additional notes *)
(* ================================================================== *)

(** ["Icon\r"] *)
Definition Icon_cr : string := "Icon" ++ String "013" "".

Definition checkAdditionalNotes (dotDirectories normalFiles dotFiles : list string)
  : AdditionalInfo :=
  let additional : AdditionalInfo := [] in
  (* Git *)
  let additional :=
    if includes dotDirectories [".git"] then
      if includes dotDirectories [".github"]
      then additional ++ [GitHubRepository]
      else additional ++ [GitRepository]
    else additional in
  (* Mac Finder *)
  let additional :=
    if includes normalFiles [Icon_cr] || includes dotFiles [".DS_Store"]
    then additional ++ [MacFinderFiles]
    else additional in
  additional.

(* ================================================================== *)
(** * The signature table *)
(* ================================================================== *)

Module AutoIdentify.

(** The seven arrays [autoIdentify] is called with.  A step of the
    table holds a reference to one of them: here, the field that
    selects it. *)
Record haystacks := args {
  normalDirectories : list string;
  dotDirectories : list string;
  dirExtensions : list string;
  normalFiles : list string;
  dotFiles : list string;
  fileExtensions : list string;
  symbolicLinks : list string
}.

Definition step : Type :=
  (haystacks -> list string)
  * (list string -> list string -> bool)
  * list string.

Record entry := { name : string; steps : list step }.

Definition table : list entry :=
  [ {| name := "Android Studio or IntelliJ IDEA project";
       steps := [(dotDirectories, includes, [".idea"])] |}
  ; {| name := "Clojure project";
       steps := [(normalFiles, includes, ["project.clj"]);
                 (normalDirectories, includesAll, ["src"; "test"])] |}
  ; {| name := "Crystal project";
       steps := [(dotFiles, includesAll, [".gitignore"; ".editorconfig"]);
                 (normalFiles, includesAll, ["LICENSE"; "README.md"; "shard.yml"]);
                 (normalDirectories, includesAll, ["src"; "spec"])] |}
  ; {| name := "D (DUB) project";
       steps := [(normalFiles, includesAny, ["dub.json"; "dub.sdl"])] |}
  ; {| name := "Dart package";
       steps := [(normalFiles, includes, ["pubspec.yaml"]);
                 (normalDirectories, includes, ["lib"])] |}
  ; {| name := "Deno folder";
       steps := [(normalFiles, includesAny, ["deno.json"; "deno.jsonc"])] |}
  ; {| name := "Eclipse workspace";
       steps := [(dotFiles, includesAll, [".classpath"; ".project"]);
                 (dotDirectories, includes, [".settings"]);
                 (normalDirectories, includesAll, ["bin"; "src"])] |}
  ; {| name := "Flutter project";
       steps := [(dotDirectories, includesAll, [".dart_tool"; ".idea"]);
                 (normalDirectories, includesAll, ["android"; "ios"; "lib"; "test"]);
                 (dotFiles, includesAll, [".gitignore"; ".metadata"; ".packages"]);
                 (normalFiles, includesAll,
                  ["demo_app.iml"; "pubspec.lock"; "pubspec.yaml"])] |}
  ; {| name := "Ghidra project";
       steps := [(normalDirectories, includesAll, ["idata"; "user"; "versioned"]);
                 (normalFiles, includesAll, ["project.prp"; "projectState"])] |}
  ; {| name := "Git repository .git directory";
       steps := [(normalFiles, includesAll, ["HEAD"; "config"; "description"]);
                 (normalDirectories, includesAll, ["hooks"; "info"; "objects"; "refs"])] |}
  ; {| name := "Go module";
       steps := [(normalFiles, includes, ["go.mod"])] |}
  ; {| name := "Gradle project";
       steps := [(normalFiles, includes, ["build.gradle"])] |}
  ; {| name := "Hack project";
       steps := [(dotFiles, includes, [".hhconfig"])] |}
  ; {| name := "Julia package";
       steps := [(normalFiles, includes, ["Project.toml"]);
                 (normalDirectories, includes, ["src"])] |}
  ; {| name := "macOS application";
       steps := [(normalDirectories, includes, ["Contents"])] |}
  ; {| name := "macOS application (wrapped)";
       steps := [(normalDirectories, includes, ["Wrapper"]);
                 (symbolicLinks, includes, ["WrappedBundle"])] |}
  ; {| name := "Nim package";
       steps := [(normalDirectories, includesAll, ["src"; "tests"]);
                 (fileExtensions, includes, [".nimble"])] |}
  ; {| name := "Perl CPAN module";
       steps := [(normalDirectories, includes, ["t"]);
                 (normalFiles, includes, ["Makefile.PL"])] |}
  ; {| name := "Python package";
       steps := [(normalFiles, includes, ["__init__.py"])] |}
  ; {| name := "Racket package";
       steps := [(normalFiles, includes, ["info.rkt"])] |}
  ; {| name := "React Native project";
       steps := [(normalDirectories, includesAll, ["ios"; "android"]);
                 (normalFiles, includesAll, ["index.js"; "App.js"])] |}
  ; {| name := "Retro Virtual Machine";
       steps := [(normalDirectories, includes, ["snap"]);
                 (normalFiles, includes, ["machine"])] |}
  ; {| name := "Rust project";
       steps := [(normalFiles, includesAll, ["Cargo.lock"; "Cargo.toml"]);
                 (normalDirectories, includesAll, ["src"])] |}
  ; {| name := "Scala project";
       steps := [(normalFiles, includes, ["build.sbt"]);
                 (normalDirectories, includesAll, ["project"; "src"; "target"])] |}
  ; {| name := "Typescript project";
       steps := [(normalFiles, includes, ["tsconfig.json"]);
                 (fileExtensions, includes, [".ts"])] |}
  ; {| name := "Visual Studio project";
       steps := [(dotDirectories, includes, [".vs"]);
                 (fileExtensions, includes, [".sln"])] |}
  ; {| name := "Xcode project";
       steps := [(dirExtensions, includes, [".xcodeproj"])] |}
  ; {| name := "Zig project";
       steps := [(normalDirectories, includesAll, ["src"; "zig-cache"; "zig-out"]);
                 (normalFiles, includes, ["build.zig"])] |}
  ].

(** [entry.steps.every((s) => { const [haystack, check, needles] = s;
    return check(haystack, needles) })] *)
Definition every_step (h : haystacks) (e : entry) : bool :=
  forallb (fun s : step =>
             let '(haystack, check, needles) := s in
             check (haystack h) needles)
          (steps e).

(** [table.forEach((entry) => { if (...) answers.push(entry.name) })]
    over any table. *)
Definition run (tbl : list entry) (h : haystacks) : list string :=
  fold_left
    (fun answers entry =>
       if every_step h entry then answers ++ [name entry] else answers)
    tbl [].

Definition autoIdentify
           (normalDirectories dotDirectories dirExtensions
            normalFiles dotFiles fileExtensions symbolicLinks : list string)
  : list string :=
  run table (args normalDirectories dotDirectories dirExtensions
                  normalFiles dotFiles fileExtensions symbolicLinks).

End AutoIdentify.

(* ================================================================== *)
(** * The collection heuristic *)
(* ================================================================== *)

Module Collections.

Definition audioexts := [".mp3"; ".mp4"; ".m4a"; ".ogg"; ".ram"; ".wav"].
Definition jpegexts := [".jpeg"; ".jpg"].
Definition otherimgexts := [".gif"; ".png"; ".svg"; ".tiff"; ".webp"].
Definition videxts := [".mov"; ".mp4"; ".webp"].
Definition jsexts :=
  [".cjs"; ".coffee"; ".cts"; ".js"; ".jsx"; ".mjs"; ".mts"; ".ts"; ".tsx"].
Definition plexts := [".pod"; ".pl"; ".pm"].
Definition wordexts := [".doc"; ".docx"].
Definition excelexts := [".xls"; ".xlsx"].

Record class := { name : string; exts : list string }.

Definition extensions : list class :=
  [ {| name := "audio"; exts := audioexts |}
  ; {| name := "jpeg"; exts := jpegexts |}
  ; {| name := "image"; exts := jpegexts ++ otherimgexts |}
  ; {| name := "video"; exts := videxts |}
  ; {| name := "media"; exts := jpegexts ++ otherimgexts ++ audioexts ++ videxts |}
  ; {| name := "web"; exts := [".css"; ".htm"; ".html"; ".js"] |}
  ; {| name := "C source"; exts := [".c"; ".h"] |}
  ; {| name := "C++ source"; exts := [".cpp"; ".hpp"] |}
  ; {| name := "archive"; exts := [".bz2"; ".gz"; ".xz"; ".zip"] |}
  ; {| name := "Perl script"; exts := plexts |}
  ; {| name := "JavaScript/ECMAScript/CoffeeScript/TypeScript"; exts := jsexts |}
  ; {| name := "script"; exts := jsexts ++ plexts ++ [".lua"; ".php"; ".py"; ".sh"] |}
  ; {| name := "MS Word"; exts := wordexts |}
  ; {| name := "word processor"; exts := wordexts ++ [".odt"] |}
  ; {| name := "Excel"; exts := excelexts |}
  ; {| name := "spreadsheet"; exts := excelexts ++ [".ods"] |}
  ; {| name := "MS Office"; exts := wordexts ++ excelexts |}
  ; {| name := "LibreOffice"; exts := [".odt"; ".ods"] |}
  ; {| name := "office"; exts := wordexts ++ excelexts ++ [".odt"; ".ods"] |}
  ].

(** [fileExtensionsInThisDir.every((v) => e.exts.includes(v))] *)
Definition covers (e : class) (fileExtensionsInThisDir : list string) : bool :=
  forallb (fun v => existsb (fun x => String.eqb x v) (exts e))
          fileExtensionsInThisDir.

(** [extensions.some((e) => { if (...) { result = ...; return true }
    return false })]: the result set by the first class that covers
    the extensions. *)
Fixpoint some_class (classes : list class)
         (fileExtensionsInThisDir fileExtensions : list string)
  : option string :=
  match classes with
  | [] => None
  | e :: rest =>
      if covers e fileExtensionsInThisDir
      then Some ("a collection of "
                   ++ JS.nat_to_string (List.length fileExtensions)
                   ++ " " ++ name e ++ " files")%string
      else some_class rest fileExtensionsInThisDir fileExtensions
  end.

Definition checkForCollections
           (fileextObj : extensionObject) (fileExtensions : list string)
  : option string :=
  let fileExtensionsInThisDir := keys fileextObj in
  (* all files have the same extension *)
  if (List.length fileExtensionsInThisDir =? 1)%nat then
    let onlykey := nth 0 fileExtensionsInThisDir "" in
    match lookup fileextObj onlykey with
    | Some numkeys =>
        if (1 <? numkeys)%nat
        then Some ("a collection of " ++ JS.nat_to_string numkeys
                     ++ " " ++ onlykey ++ " files")%string
        else None
    | None => None
    end
  (* all files have extensions of the same class *)
  else if (0 <? List.length fileExtensionsInThisDir)%nat then
    some_class extensions fileExtensionsInThisDir fileExtensions
  else None.

End Collections.

(* ================================================================== *)
(** * The command line *)
(* ================================================================== *)

(** The three module variables the command line sets. *)
Record options := mkOptions {
  MAXDEPTH : JS.number;
  VERBOSE : bool;
  FOLLOWDOT : bool
}.

(** [let MAXDEPTH = 1; let VERBOSE = false; let FOLLOWDOT = false] *)
Definition defaults : options := mkOptions (JS.of_Z false 1) false false.

(** The body of the loop of [processCommandline] for one [arg]. *)
Definition processArg (st : options * list string) (arg : string)
  : options * list string :=
  let '(o, args) := st in
  if JS.first_is "-" arg then
    if (String.length arg =? 2)%nat then
      match String.get 1 arg with
      | Some "v"%char => (mkOptions (MAXDEPTH o) true (FOLLOWDOT o), args)
      | Some "d"%char => (mkOptions (MAXDEPTH o) (VERBOSE o) true, args)
      | _ => (o, args)
      end
    else
      let kv := JS.split "=" (JS.substring1 arg) in
      match kv with
      | [kv0; kv1] =>
          if (String.length kv0 =? 1)%nat then
            match kv0 with
            | String "m" _ =>
                let numpi := JS.parseInt10 kv1 in
                let numnum := JS.Number kv1 in
                if JS.strict_eq numpi numnum
                then (mkOptions numnum (VERBOSE o) (FOLLOWDOT o), args)
                else (o, args)
            | _ => (o, args)
            end
          else (o, args)
      | _ => (o, args)
      end
  else (o, args ++ [arg]).

(** [for (let i = 2; i < argv.length; ++i)] *)
Definition processCommandline (o : options) (argv : list string)
  : options * list string :=
  fold_left processArg (skipn 2 argv) (o, []).

(* ================================================================== *)
(** * The recursive explorer *)
(* ================================================================== *)

(** What [fs/promises] hands out. *)
Module Stats.
Record t := mk {
  isDirectory : bool;
  isFile : bool;
  isSymbolicLink : bool;
  size : Z
}.
End Stats.

Module Dirent.
Record t := mk {
  name : string;
  isFile : bool;
  isDirectory : bool;
  isSymbolicLink : bool
}.
End Dirent.

(** A call that may throw. *)
Definition throws (A : Type) : Type := (A + ErrnoException)%type.

Module Explorer.
Section Explorer.

(** The module variables, as [processCommandline] left them;
  [MAXDEPTH] by its integer value. *)
Variable MAXDEPTH : Z.
Variable VERBOSE : bool.
Variable FOLLOWDOT : bool.

(** The file system and the host: [fsp.lstat], [fsp.readdir],
  [path.join], the sort of the entries by [localeCompare] of their
  names, and [countObToString] (which sorts by [localeCompare]
  too). *)
Variable lstat : string -> throws Stats.t.
Variable readdir : string -> throws (list Dirent.t).
Variable join : string -> string -> string.
Variable sortByName : list Dirent.t -> list Dirent.t.
Variable countObToString : extensionObject -> string.

Definition newline : string := String "010" "".

Definition verboseSummary (depth : nat) (collections : list (collection * string))
: string :=
String.concat newline
  (map (fun coll : collection * string =>
          let name := snd coll in
          let '(len, str) :=
            match fst coll with
            | Names arr =>
                (List.length arr,
                 if (0 <? List.length arr)%nat then String.concat ", " arr else "")
            | Counts ob => (List.length (keys ob), countObToString ob)
            end in
          if (0 <? len)%nat then (name ++ ": " ++ str)%string else "")
       collections).

(** The loop over [whichDirectories]; [processFilename] is the
  recursive call, [None] when it does not return. *)
Fixpoint explore (processFilename : nat -> string -> option DirectoryInfo.t)
       (depth : nat) (filename : string)
       (whichDirectories : list string) (directoryInfos : list DirectoryInfo.t)
: option (list DirectoryInfo.t) :=
match whichDirectories with
| [] => Some directoryInfos
| which :: rest =>
    let childdirname := join filename which in
    if (Z.of_nat depth <? MAXDEPTH)%Z then
      match processFilename (depth + 1) childdirname with
      | Some res =>
          explore processFilename depth filename rest (directoryInfos ++ [res])
      | None => None
      end
    else explore processFilename depth filename rest directoryInfos
end.

(** [whichDirectories] *)
Definition whichDirectories (dirents : list DirentStat.t) : list string :=
Buckets.normalDirectories dirents
  ++ Buckets.directoriesWithExtensions dirents
  ++ (if FOLLOWDOT
      then Buckets.dotDirectories dirents ++ Buckets.UUIDDirectories dirents
      else []).

Definition processDirents
         (processFilename : nat -> string -> option DirectoryInfo.t)
         (depth : nat) (filename : string) (dirents : list DirentStat.t)
: option DirectoryInfo.t :=
let zeroLenFilenames := zeroLenFilenames dirents in
let brokenEntries := Buckets.brokenEntries dirents in
let symbolicLinks := Buckets.symbolicLinks dirents in
let unknownEntries := Buckets.unknownEntries dirents in
let dotFiles := Buckets.dotFiles dirents in
let normalFiles := Buckets.normalFiles dirents in
let dotDirectories := Buckets.dotDirectories dirents in
let directoriesWithExtensions := Buckets.directoriesWithExtensions dirents in
let UUIDDirectories := Buckets.UUIDDirectories dirents in
let normalDirectories := Buckets.normalDirectories dirents in
let shouldBeEmpty := Buckets.shouldBeEmpty dirents in
let fileExtensions := Buckets.fileExtensions dirents in
let dirExtensions := Buckets.dirExtensions dirents in
let fileextObj := countArrayFieldsToObject fileExtensions true in
let dirextObj := countArrayFieldsToObject dirExtensions false in
if (0 <? List.length dirents)%nat then
  let answers :=
    AutoIdentify.autoIdentify normalDirectories dotDirectories dirExtensions
                              normalFiles dotFiles fileExtensions symbolicLinks in
  let foundCollection :=
    Collections.checkForCollections fileextObj fileExtensions in
  let identified :=
    if (0 <? List.length answers)%nat then true
    else match foundCollection with Some _ => true | None => false end in
  let additionalInfo :=
    checkAdditionalNotes dotDirectories normalFiles dotFiles in
  if negb identified then
    let collections :=
      [ (Names brokenEntries, "broken")
      ; (Names symbolicLinks, "symlinks")
      ; (Names normalFiles, "files")
      ; (Names normalDirectories, "dirs")
      ; (Names zeroLenFilenames, "zero byte files")
      ; (Names dotFiles, "dot files")
      ; (Names dotDirectories, "dot dirs")
      ; (Names directoriesWithExtensions, "dirs with extensions")
      ; (Names unknownEntries, "neither files nor dirs")
      ; (Counts dirextObj, "dir extensions")
      ; (Counts fileextObj, "file extensions")
      ; (Names UUIDDirectories, "UUID dirs") ] in
    match explore processFilename depth filename (whichDirectories dirents) [] with
    | Some directoryInfos =>
        Some (DirectoryInfo.mk filename Directory false None
                (Some additionalInfo) (Some shouldBeEmpty) None None
                (if VERBOSE then Some (verboseSummary depth collections) else None)
                (Some directoryInfos))
    | None => None
    end
  else
    Some (DirectoryInfo.mk filename Directory true None
            (Some additionalInfo) (Some shouldBeEmpty)
            (if (0 <? List.length answers)%nat then Some answers else None)
            (if (0 <? List.length answers)%nat then None else foundCollection)
            None (Some []))
else
  Some (DirectoryInfo.mk filename Directory false None
          None (Some shouldBeEmpty) None None None (Some [])).

Definition readdirAndStat (filename : string) (depth : nat)
: throws (list DirentStat.t) :=
match readdir filename with
| inr ex => inr ex
| inl veryRawDirents =>
    let rawDirents := sortByName veryRawDirents in
    inl (map (fun dirent =>
                let ds := DirentStat.mk (Dirent.isFile dirent)
                                        (Dirent.isDirectory dirent)
                                        (Dirent.isSymbolicLink dirent)
                                        (Dirent.name dirent) None None in
                if Dirent.isFile dirent then
                  match lstat (join filename (Dirent.name dirent)) with
                  | inl s =>
                      DirentStat.mk (Dirent.isFile dirent)
                                    (Dirent.isDirectory dirent)
                                    (Dirent.isSymbolicLink dirent)
                                    (Dirent.name dirent)
                                    (Some (Stats.size s)) None
                  | inr ex =>
                      DirentStat.mk false false false (Dirent.name dirent)
                                    None (code ex)
                  end
                else ds)
             rawDirents)
end.

Definition leaf (filename : string) (kind : EntryKind) (identified : bool)
         (error : option ErrnoException) : DirectoryInfo.t :=
DirectoryInfo.mk filename kind identified error None None None None None None.

(** [processFilename]; [fuel] bounds the nesting of its calls. *)
Fixpoint processFilename (fuel : nat) (depth : nat) (filename : string)
: option DirectoryInfo.t :=
match fuel with
| O => None
| S fuel' =>
    match lstat filename with
    | inl s =>
        if Stats.isDirectory s then
          match readdirAndStat filename depth with
          | inl direntstats =>
              processDirents (processFilename fuel') depth filename direntstats
          | inr ex => Some (leaf filename Error false (Some ex))
          end
        else if Stats.isFile s then Some (leaf filename File true None)
        else if Stats.isSymbolicLink s then Some (leaf filename SymbolicLink true None)
        else Some (leaf filename Unknown false None)
    | inr ex => Some (leaf filename Error false (Some ex))
    end
end.

(** [main]: one result per argument, at depth 0. *)
Definition main (fuel : nat) (args : list string) : list (option DirectoryInfo.t) :=
map (fun arg => processFilename fuel 0 arg) args.

End Explorer.
End Explorer.

(* ================================================================== *)
(** * The renderer *)
(* ================================================================== *)

Module Render.

(** What reaches the console: a line of text, or the diagnostic
    ["*** an entry did not get collated into any category!"] with the
    entries it shows. *)
Inductive output :=
| Line (text : string)
| NotCollated (identificationFailures : option (list string)).

Fixpoint spaces (depth : nat) : string :=
  match depth with
  | O => ""
  | S d => String " " (spaces d)
  end.

Definition printText (depth : nat) (text : string) : output :=
  Line (spaces depth ++ text)%string.

Definition printEntry (depth : nat) (entry : string) : output :=
  printText depth ("<" ++ entry ++ ">")%string.

Definition printAnswer (depth : nat) (answer : string) : output :=
  printText depth ("=> " ++ answer)%string.

Definition printError (depth : nat) (msg : string) : output :=
  printText depth ("* " ++ msg)%string.

Definition is_ENOENT (c : option string) : bool :=
  match c with
  | Some c' => String.eqb c' "ENOENT"
  | None => false
  end.

(** The body of the loop of [printResults] for one result. *)
Fixpoint printResult (depth : nat) (res : DirectoryInfo.t) : list output :=
  match res with
  | DirectoryInfo.mk name kind identified error _ identificationFailures
                     answers collections _ directoryInfos =>
      printEntry depth name ::
      match kind with
      | Unknown =>
          [printEntry depth name; printAnswer depth "neither file nor directory"]
      | Error =>
          match error with
          | Some err =>
              if is_ENOENT (code err)
              then [printError depth ("no such file: " ++ name)%string]
              else [printError depth ("err: " ++ message err)%string]
          | None => [printError depth "err: undefined"]
          end
      | File => [printAnswer depth "file"]
      | Directory =>
          [printText depth "{"]
            ++ match directoryInfos with
               | Some (di :: dis) =>
                   match identificationFailures with
                   | Some [] => []
                   | _ => [NotCollated identificationFailures]
                   end
                     ++ match answers with
                        | Some a => map (fun ans => printAnswer depth ans) a
                        | None => []
                        end
                     ++ match collections with
                        | Some c => [printAnswer depth c]
                        | None => []
                        end
                     ++ (if negb identified
                         then [printAnswer depth "unidentified"]
                         else [])
                     ++ printResult (depth + 1) di
                     ++ flat_map (printResult (depth + 1)) dis
               | _ => [printAnswer depth "empty"]
               end
            ++ [printText depth "}"]
      | SymbolicLink =>
          [printEntry depth name; printAnswer depth "symlink"]
      end
  end.

Definition printResults (results : list DirectoryInfo.t) (depth : nat)
  : list output :=
  flat_map (printResult depth) results.

End Render.

(* ================================================================== *)
(** * [src/dirsniff.ts]: the variant that prints as it goes *)
(* ================================================================== *)

(** The older source file of the repository has no bucket of symbolic
    links, a table without the two macOS rows, notes that are strings,
    and prints its answers instead of returning them.  [collate], the
    containment tests, [countArrayFieldsToObject] and
    [checkForCollections] are the same text in both files. *)
Module Legacy.

Import Render.

(** Its eight tests; its [DirentStat] has no [isSymbolicLink]. *)
Definition tests : list (DirentStat.t -> bool) :=
  [ (fun d => match DirentStat.statError d with Some _ => true | None => false end)  (* 0 broken *)
  ; (fun d => negb (DirentStat.isFile d) && negb (DirentStat.isDirectory d))         (* 1 unknown type *)
  ; (fun d => DirentStat.isFile d && JS.first_is "." (DirentStat.name d))            (* 2 dot file *)
  ; (fun d => DirentStat.isFile d)                                                   (* 3 normal file *)
  ; (fun d => DirentStat.isDirectory d && JS.first_is "." (DirentStat.name d))       (* 4 dot dir *)
  ; (fun d => DirentStat.isDirectory d && JS.includes_char "." (DirentStat.name d))  (* 6 dir with file extension *)
  ; (fun d => DirentStat.isDirectory d && UUIDRegex.test (DirentStat.name d))        (* 7 UUID *)
  ; (fun d => DirentStat.isDirectory d)                                              (* 8 normal dir *)
  ].

Definition bucket (i : nat) (dirents : list DirentStat.t) : list string :=
  nth i (map (fun dsa => map DirentStat.name dsa) (collate dirents tests)) [].

Definition checkAdditionalNotes (dotDirectories normalFiles dotFiles : list string)
  : list string :=
  let additional : list string := [] in
  let additional :=
    if includes dotDirectories [".git"] then
      if includes dotDirectories [".github"]
      then additional ++ ["Github Git repository"]
      else additional ++ ["Git repository"]
    else additional in
  let additional :=
    if includes normalFiles [Icon_cr] || includes dotFiles [".DS_Store"]
    then additional ++ ["Mac Finder files"]
    else additional in
  additional.

(** The table of this file: the rows of [AutoIdentify.table] but
    ["macOS application"] and ["macOS application (wrapped)"]. *)
Definition table : list AutoIdentify.entry :=
  filter (fun e =>
            negb (String.eqb (AutoIdentify.name e) "macOS application"
                  || String.eqb (AutoIdentify.name e) "macOS application (wrapped)"))
         AutoIdentify.table.

Definition autoIdentify
           (normalDirectories dotDirectories dirExtensions
            normalFiles dotFiles fileExtensions : list string)
  : list string :=
  AutoIdentify.run table
    (AutoIdentify.args normalDirectories dotDirectories dirExtensions
                       normalFiles dotFiles fileExtensions []).

Section Explorer.

Variable MAXDEPTH : Z.
Variable VERBOSE : bool.
Variable FOLLOWDOT : bool.
Variable join : string -> string -> string.
Variable countObToString : extensionObject -> string.

(** [len && printText(depth + 2, `${name}: ${str}`)] for each
    collection. *)
Definition verboseSummary (depth : nat) (collections : list (collection * string))
  : list output :=
  flat_map (fun coll : collection * string =>
              let name := snd coll in
              let '(len, str) :=
                match fst coll with
                | Names arr =>
                    (List.length arr,
                     if (0 <? List.length arr)%nat
                     then String.concat ", " arr else "")
                | Counts ob => (List.length (keys ob), countObToString ob)
                end in
              if (0 <? len)%nat
              then [printText (depth + 2) (name ++ ": " ++ str)%string]
              else [])
           collections.

Fixpoint explore (processFilename : nat -> string -> option (list output))
         (depth : nat) (filename : string) (whichDirectories : list string)
  : option (list output) :=
  match whichDirectories with
  | [] => Some []
  | which :: rest =>
      let childdirname := join filename which in
      if (Z.of_nat depth <? MAXDEPTH)%Z then
        match processFilename (depth + 1) childdirname,
              explore processFilename depth filename rest with
        | Some out, Some outs =>
            Some ([printText depth "{"] ++ out ++ [printText depth "}"] ++ outs)
        | _, _ => None
        end
      else explore processFilename depth filename rest
  end.

(** What [processDirents] prints, and the value its local
    [identified] ends with. *)
Definition processDirents
           (processFilename : nat -> string -> option (list output))
           (depth : nat) (filename : string) (dirents : list DirentStat.t)
  : option (list output * bool) :=
  let zeroLenFilenames := zeroLenFilenames dirents in
  let brokenEntries := bucket 0 dirents in
  let unknownEntries := bucket 1 dirents in
  let dotFiles := bucket 2 dirents in
  let normalFiles := bucket 3 dirents in
  let dotDirectories := bucket 4 dirents in
  let directoriesWithExtensions := bucket 5 dirents in
  let UUIDDirectories := bucket 6 dirents in
  let normalDirectories := bucket 7 dirents in
  let shouldBeEmpty := bucket 8 dirents in
  let out0 :=
    [printEntry depth filename]
      ++ (if negb (List.length shouldBeEmpty =? 0)%nat
          then [NotCollated (Some shouldBeEmpty)] else []) in
  let fileExtensions :=
    map (fun d => Path.extname d)
        (filter (fun n => JS.includes_char "." n) normalFiles) in
  let dirExtensions := map (fun d => Path.extname d) directoriesWithExtensions in
  let fileextObj := countArrayFieldsToObject fileExtensions true in
  let dirextObj := countArrayFieldsToObject dirExtensions false in
  if (List.length dirents =? 0)%nat then
    Some (out0 ++ [printAnswer depth "empty"], true)
  else
    let answers :=
      autoIdentify normalDirectories dotDirectories dirExtensions
                   normalFiles dotFiles fileExtensions in
    let foundCollection :=
      Collections.checkForCollections fileextObj fileExtensions in
    let identified :=
      if (0 <? List.length answers)%nat then true
      else match foundCollection with Some _ => true | None => false end in
    let out1 :=
      if (0 <? List.length answers)%nat
      then map (fun ans => printAnswer depth ans) answers
      else match foundCollection with
           | Some c => [printAnswer depth c]
           | None => []
           end in
    let out2 := if negb identified then [printAnswer depth "unidentified"] else [] in
    let out3 :=
      map (fun add => printAnswer depth ("  with " ++ add)%string)
          (checkAdditionalNotes dotDirectories normalFiles dotFiles) in
    if negb identified then
      let collections :=
        [ (Names brokenEntries, "broken")
        ; (Names normalFiles, "files")
        ; (Names normalDirectories, "dirs")
        ; (Names zeroLenFilenames, "zero byte files")
        ; (Names dotFiles, "dot files")
        ; (Names dotDirectories, "dot dirs")
        ; (Names directoriesWithExtensions, "dirs with extensions")
        ; (Names unknownEntries, "neither files nor dirs")
        ; (Counts dirextObj, "dir extensions")
        ; (Counts fileextObj, "file extensions")
        ; (Names UUIDDirectories, "UUID dirs") ] in
      let out4 := if VERBOSE then verboseSummary depth collections else [] in
      let whichDirectories :=
        normalDirectories ++ directoriesWithExtensions
          ++ (if FOLLOWDOT then dotDirectories ++ UUIDDirectories else []) in
      match explore processFilename depth filename whichDirectories with
      | Some out5 => Some (out0 ++ out1 ++ out2 ++ out3 ++ out4 ++ out5, identified)
      | None => None
      end
    else Some (out0 ++ out1 ++ out2 ++ out3, identified).

(** The file system, for [readdirAndStat] and [processFilename] of
    this file. *)
Variable lstat : string -> throws Stats.t.
Variable readdir : string -> throws (list Dirent.t).
Variable sortByName : list Dirent.t -> list Dirent.t.

(** Its [readdirAndStat]: an entry has no [isSymbolicLink] here, which
    the [false] at that place stands for. *)
Definition readdirAndStat (filename : string) (depth : nat)
  : throws (list DirentStat.t) :=
  match readdir filename with
  | inr ex => inr ex
  | inl veryRawDirents =>
      let rawDirents := sortByName veryRawDirents in
      inl (map (fun dirent =>
                  if Dirent.isFile dirent then
                    match lstat (join filename (Dirent.name dirent)) with
                    | inl s =>
                        DirentStat.mk (Dirent.isFile dirent)
                                      (Dirent.isDirectory dirent) false
                                      (Dirent.name dirent)
                                      (Some (Stats.size s)) None
                    | inr ex =>
                        DirentStat.mk false false false (Dirent.name dirent)
                                      None (code ex)
                    end
                  else
                    DirentStat.mk (Dirent.isFile dirent)
                                  (Dirent.isDirectory dirent) false
                                  (Dirent.name dirent) None None)
               rawDirents)
  end.

(** The [catch] of [processFilename]: ["err: " + err.code] for an error
    without a code reads ["err: undefined"]. *)
Definition failure (depth : nat) (filename : string) (err : ErrnoException)
  : list output :=
  [ printEntry depth filename
  ; if is_ENOENT (code err)
    then printError depth ("no such file: " ++ filename)%string
    else printError depth ("err: " ++ match code err with
                                      | Some c => c
                                      | None => "undefined"
                                      end)%string ].

(** [processFilename], by what it prints; [fuel] bounds the nesting of
    its calls. *)
Fixpoint processFilename (fuel : nat) (depth : nat) (filename : string)
  : option (list output) :=
  match fuel with
  | O => None
  | S fuel' =>
      match lstat filename with
      | inl s =>
          if Stats.isDirectory s then
            match readdirAndStat filename depth with
            | inl direntstats =>
                option_map fst
                  (processDirents (processFilename fuel') depth filename
                                  direntstats)
            | inr ex => Some (failure depth filename ex)
            end
          else if Stats.isFile s then
            Some [printEntry depth filename; printAnswer depth "file"]
          else
            Some [printEntry depth filename;
                  printAnswer depth "neither file nor directory"]
      | inr ex => Some (failure depth filename ex)
      end
  end.

End Explorer.
End Legacy.


(* ================================================================== *)
(** * Notions the statements below use *)
(* ================================================================== *)

(** The [answers] and the [foundCollection] of [processDirents], as
    functions of its entries. *)
Definition answersOf (dirents : list DirentStat.t) : list string :=
  AutoIdentify.autoIdentify
    (Buckets.normalDirectories dirents) (Buckets.dotDirectories dirents)
    (Buckets.dirExtensions dirents) (Buckets.normalFiles dirents)
    (Buckets.dotFiles dirents) (Buckets.fileExtensions dirents)
    (Buckets.symbolicLinks dirents).

(** The seven arrays [processDirents] calls [autoIdentify] with. *)
Definition haystacksOf (dirents : list DirentStat.t) : AutoIdentify.haystacks :=
  AutoIdentify.args
    (Buckets.normalDirectories dirents) (Buckets.dotDirectories dirents)
    (Buckets.dirExtensions dirents) (Buckets.normalFiles dirents)
    (Buckets.dotFiles dirents) (Buckets.fileExtensions dirents)
    (Buckets.symbolicLinks dirents).

Definition foundCollectionOf (dirents : list DirentStat.t) : option string :=
  Collections.checkForCollections
    (countArrayFieldsToObject (Buckets.fileExtensions dirents) true)
    (Buckets.fileExtensions dirents).

(** The seven arrays of one call are within those of another. *)
Definition haystacks_incl (h h' : AutoIdentify.haystacks) : Prop :=
  incl (AutoIdentify.normalDirectories h) (AutoIdentify.normalDirectories h')
  /\ incl (AutoIdentify.dotDirectories h) (AutoIdentify.dotDirectories h')
  /\ incl (AutoIdentify.dirExtensions h) (AutoIdentify.dirExtensions h')
  /\ incl (AutoIdentify.normalFiles h) (AutoIdentify.normalFiles h')
  /\ incl (AutoIdentify.dotFiles h) (AutoIdentify.dotFiles h')
  /\ incl (AutoIdentify.fileExtensions h) (AutoIdentify.fileExtensions h')
  /\ incl (AutoIdentify.symbolicLinks h) (AutoIdentify.symbolicLinks h').

(** A step of the table is made of one of the seven arrays and one of
    the three containment tests. *)
Inductive known_haystack : (AutoIdentify.haystacks -> list string) -> Prop :=
| known_normalDirectories : known_haystack AutoIdentify.normalDirectories
| known_dotDirectories : known_haystack AutoIdentify.dotDirectories
| known_dirExtensions : known_haystack AutoIdentify.dirExtensions
| known_normalFiles : known_haystack AutoIdentify.normalFiles
| known_dotFiles : known_haystack AutoIdentify.dotFiles
| known_fileExtensions : known_haystack AutoIdentify.fileExtensions
| known_symbolicLinks : known_haystack AutoIdentify.symbolicLinks.

Inductive known_check : (list string -> list string -> bool) -> Prop :=
| known_includes : known_check includes
| known_includesAll : known_check includesAll
| known_includesAny : known_check includesAny.

(** The name [n] is required by a step over [haystack]: the step cannot
    pass without it.  For [includes] it is the needle, for [includesAll]
    any of the needles, for [includesAny] a needle when no other needle
    is in the array. *)
Inductive required (haystack : list string) (n : string)
  : (list string -> list string -> bool) -> list string -> Prop :=
| required_includes rest :
    required haystack n includes (n :: rest)
| required_includesAll needles :
    In n needles -> required haystack n includesAll needles
| required_includesAny needles :
    In n needles ->
    (forall m, In m needles -> In m haystack -> m = n) ->
    required haystack n includesAny needles.

(** The arrays of names, as opposed to the two arrays of extensions. *)
Inductive names_haystack : (AutoIdentify.haystacks -> list string) -> Prop :=
| names_normalDirectories : names_haystack AutoIdentify.normalDirectories
| names_dotDirectories : names_haystack AutoIdentify.dotDirectories
| names_normalFiles : names_haystack AutoIdentify.normalFiles
| names_dotFiles : names_haystack AutoIdentify.dotFiles
| names_symbolicLinks : names_haystack AutoIdentify.symbolicLinks.

(** The listing without the entries called [n]. *)
Definition without (n : string) (dirents : list DirentStat.t) : list DirentStat.t :=
  filter (fun d => negb (String.eqb (DirentStat.name d) n)) dirents.

(** The [identified] of [processDirents], as a function of its entries:
    some signature matched or a collection was found, in a listing
    that is not empty. *)
Definition identifiedOf (dirents : list DirentStat.t) : bool :=
  (0 <? List.length dirents)
  && ((0 <? List.length (answersOf dirents))
      || match foundCollectionOf dirents with Some _ => true | None => false end).

(** The [collections] that [processDirents] hands to [verboseSummary]. *)
Definition collectionsOf (dirents : list DirentStat.t) : list (collection * string) :=
  [ (Names (Buckets.brokenEntries dirents), "broken")
  ; (Names (Buckets.symbolicLinks dirents), "symlinks")
  ; (Names (Buckets.normalFiles dirents), "files")
  ; (Names (Buckets.normalDirectories dirents), "dirs")
  ; (Names (zeroLenFilenames dirents), "zero byte files")
  ; (Names (Buckets.dotFiles dirents), "dot files")
  ; (Names (Buckets.dotDirectories dirents), "dot dirs")
  ; (Names (Buckets.directoriesWithExtensions dirents), "dirs with extensions")
  ; (Names (Buckets.unknownEntries dirents), "neither files nor dirs")
  ; (Counts (countArrayFieldsToObject (Buckets.dirExtensions dirents) false),
     "dir extensions")
  ; (Counts (countArrayFieldsToObject (Buckets.fileExtensions dirents) true),
     "file extensions")
  ; (Names (Buckets.UUIDDirectories dirents), "UUID dirs") ].

(** The notes of [processDirents], as a function of its entries. *)
Definition notesOf (dirents : list DirentStat.t) : AdditionalInfo :=
  checkAdditionalNotes (Buckets.dotDirectories dirents)
                       (Buckets.normalFiles dirents)
                       (Buckets.dotFiles dirents).

(* ================================================================== *)
(** * A small file system to run the explorer on *)
(* ================================================================== *)

(** [root] holds the file [x], the directories [sub], [notes.d] and
    [.git]; [root/sub] holds [a.txt] and [b.txt]; [root/notes.d] is
    empty. *)
Module Sample.

Definition directory : Stats.t := Stats.mk true false false 4096.
Definition file : Stats.t := Stats.mk false true false 12.
Definition ENOENT : ErrnoException := mkErrno (Some "ENOENT") "no such file or directory".

Definition lstat (p : string) : throws Stats.t :=
  if String.eqb p "root" then inl directory
  else if String.eqb p "root/.git" then inl directory
  else if String.eqb p "root/notes.d" then inl directory
  else if String.eqb p "root/sub" then inl directory
  else if String.eqb p "root/x" then inl file
  else if String.eqb p "root/sub/a.txt" then inl file
  else if String.eqb p "root/sub/b.txt" then inl file
  else inr ENOENT.

Definition readdir (p : string) : throws (list Dirent.t) :=
  if String.eqb p "root"
  then inl [ Dirent.mk ".git" false true false
           ; Dirent.mk "notes.d" false true false
           ; Dirent.mk "sub" false true false
           ; Dirent.mk "x" true false false ]
  else if String.eqb p "root/sub"
  then inl [ Dirent.mk "a.txt" true false false
           ; Dirent.mk "b.txt" true false false ]
  else if String.eqb p "root/notes.d" then inl []
  else if String.eqb p "root/.git" then inl []
  else inr ENOENT.

Definition join (a b : string) : string := (a ++ "/" ++ b)%string.

(** The listings above are sorted already. *)
Definition sortByName (l : list Dirent.t) : list Dirent.t := l.

Definition countObToString (ob : extensionObject) : string := "".

(** What [readdirAndStat] answers for [root]. *)
Definition root_dirents : list DirentStat.t :=
  [ DirentStat.mk false true false ".git" None None
  ; DirentStat.mk false true false "notes.d" None None
  ; DirentStat.mk false true false "sub" None None
  ; DirentStat.mk true false false "x" (Some 12%Z) None ].

End Sample.

(** The body of the loop of [countArrayFieldsToObject]. *)
Definition count_step (foldcase : bool) (obj : extensionObject) (str : string)
  : extensionObject :=
  let lcs := if foldcase then JS.toLowerCase str else str in
  assign obj lcs (match lookup obj lcs with
                  | Some n => n + 1
                  | None => 1
                  end).

(* ================================================================== *)
(** * The collection heuristic as the specification words it *)
(* ================================================================== *)

Module Spec.

(** Section 4.4 of the specification: (1) exactly one distinct
    extension whose count exceeds 1 is reported with that count;
    (2) otherwise, if more than zero distinct extensions occur, the
    first class that holds all of them is reported, with the total file
    count; (3) otherwise nothing is reported. *)
Definition checkForCollections (fileextObj : extensionObject) (totalFiles : nat)
  : option string :=
  let distinct := keys fileextObj in
  let rule1 :=
    match distinct with
    | [onlykey] =>
        match lookup fileextObj onlykey with
        | Some n =>
            if 1 <? n
            then Some ("a collection of " ++ JS.nat_to_string n
                         ++ " " ++ onlykey ++ " files")%string
            else None
        | None => None
        end
    | _ => None
    end in
  match rule1 with
  | Some report => Some report
  | None =>
      if 0 <? List.length distinct then
        match find (fun e => Collections.covers e distinct) Collections.extensions with
        | Some e =>
            Some ("a collection of " ++ JS.nat_to_string totalFiles
                    ++ " " ++ Collections.name e ++ " files")%string
        | None => None
        end
      else None
  end.

(** The total file count of a listing: its normal files. *)
Definition foundCollectionOf (dirents : list DirentStat.t) : option string :=
  checkForCollections
    (countArrayFieldsToObject (Buckets.fileExtensions dirents) true)
    (List.length (Buckets.normalFiles dirents)).

(** The notations that the specification names as malformed for the
    value of [-m]: a fraction (a dot in it), hexadecimal (a prefix
    [0x] or [0X]) and an exponent (an [e] or [E] in it). *)
Definition fractional (V : string) : bool := JS.includes_char "." V.

Definition hexadecimal (V : string) : bool :=
  match V with
  | String "0" (String c _) => Ascii.eqb c "x" || Ascii.eqb c "X"
  | _ => false
  end.

Definition exponent (V : string) : bool :=
  JS.includes_char "e" V || JS.includes_char "E" V.

(** What the specification has for [-m=V] with such a value: the
    argument is ignored. *)
Definition malformed (V : string) : bool :=
  fractional V || hexadecimal V || exponent V.

End Spec.

(** Entries to try the program on: a file and a directory of a given
    name. *)
Definition a_file (name : string) : DirentStat.t :=
  DirentStat.mk true false false name (Some 1%Z) None.

Definition a_directory (name : string) : DirentStat.t :=
  DirentStat.mk false true false name None None.

(** A normal file whose name has no dot. *)
Definition normal_file_without_dot (d : DirentStat.t) : Prop :=
  DirentStat.statError d = None
  /\ DirentStat.isSymbolicLink d = false
  /\ DirentStat.isFile d = true
  /\ JS.includes_char "." (DirentStat.name d) = false.

(** The entries that call for a note: a dot directory [.git] or
    [.github], a normal file [Icon\r], a dot file [.DS_Store].  An
    entry is a dot directory, a normal file or a dot file by the bucket
    it lands in. *)
Definition lands_in (i : nat) (d : DirentStat.t) : Prop :=
  some_index tests d 0 (List.length tests) = i.

Definition note_entry (d : DirentStat.t) : Prop :=
  (lands_in 5 d /\ (DirentStat.name d = ".git" \/ DirentStat.name d = ".github"))
  \/ (lands_in 4 d /\ DirentStat.name d = Icon_cr)
  \/ (lands_in 3 d /\ DirentStat.name d = ".DS_Store").

(** No needle of the table is in the arrays [h]. *)
Definition no_needle_in (h : AutoIdentify.haystacks) : bool :=
  forallb (fun e =>
             forallb (fun s : AutoIdentify.step =>
                        let '(haystack, _, needles) := s in
                        forallb (fun n =>
                                   negb (existsb (fun d => String.eqb d n)
                                                 (haystack h)))
                                needles)
                     (AutoIdentify.steps e))
          AutoIdentify.table.

(** A tree of results in which every directory has an empty
    [identificationFailures]. *)
Fixpoint collated (di : DirectoryInfo.t) : Prop :=
  match di with
  | DirectoryInfo.mk _ kind _ _ _ identificationFailures _ _ _ directoryInfos =>
      (kind = Directory -> identificationFailures = Some [])
      /\ match directoryInfos with
         | Some dis => fold_right (fun child rest => collated child /\ rest) True dis
         | None => True
         end
  end.

(** What the scan of [extname] has found so far is sound for the path
    [chars]: a dot that was found is a dot of the path, before the end
    that was found. *)
Definition sound_scan (chars : list ascii) (st : Path.scan) : Prop :=
  Path.startDot st = (-1)%Z
  \/ ((0 <= Path.startDot st)%Z
      /\ nth_error chars (Z.to_nat (Path.startDot st)) = Some "."%char
      /\ (Path.startDot st < Path.end_ st)%Z).

(** A group of [n] hexadecimal digits, and the two shapes of a UUID:
    five groups of 8, 4, 4, 4 and 12 digits with a dash between them,
    or 32 digits. *)
Fixpoint all_hex (s : string) : bool :=
  match s with
  | EmptyString => true
  | String c s' => UUIDRegex.hex c && all_hex s'
  end.

Definition hex_group (n : nat) (s : string) : Prop :=
  String.length s = n /\ all_hex s = true.

Definition uuid_shaped (s : string) : Prop :=
  (exists a b c d e,
      s = (a ++ "-" ++ b ++ "-" ++ c ++ "-" ++ d ++ "-" ++ e)%string
      /\ hex_group 8 a /\ hex_group 4 b /\ hex_group 4 c /\ hex_group 4 d
      /\ hex_group 12 e)
  \/ hex_group 32 s.

(** The depth an argument asks for: the number value of [V] for an
    argument [-m=V] whose [V] reads the same as a decimal integer and as
    a number. *)
Definition depth_of (arg : string) : option JS.number :=
  match arg with
  | String a0 (String a1 (String a2 V)) =>
      if Ascii.eqb a0 "-" && Ascii.eqb a1 "m" && Ascii.eqb a2 "="
         && JS.strict_eq (JS.parseInt10 V) (JS.Number V)
      then Some (JS.Number V)
      else None
  | _ => None
  end.

(** The depths the arguments ask for, in their order. *)
Definition depths (args : list string) : list JS.number :=
  flat_map (fun arg => match depth_of arg with
                       | Some v => [v]
                       | None => []
                       end) args.

(** The levels of child results below a result. *)
Fixpoint height (di : DirectoryInfo.t) : nat :=
  match di with
  | DirectoryInfo.mk _ _ _ _ _ _ _ _ _ directoryInfos =>
      match directoryInfos with
      | Some dis =>
          fold_right (fun child rest => Nat.max (S (height child)) rest) 0 dis
      | None => 0
      end
  end.

(** [P] holds of a result and of every result below it. *)
Fixpoint every_node (P : DirectoryInfo.t -> Prop) (di : DirectoryInfo.t) : Prop :=
  P di
  /\ match di with
     | DirectoryInfo.mk _ _ _ _ _ _ _ _ _ directoryInfos =>
         match directoryInfos with
         | Some dis =>
             fold_right (fun child rest => every_node P child /\ rest) True dis
         | None => True
         end
     end.

(** A result with none of the optional fields of a directory. *)
Definition bare (di : DirectoryInfo.t) : Prop :=
  DirectoryInfo.additionalInfo di = None
  /\ DirectoryInfo.identificationFailures di = None
  /\ DirectoryInfo.answers di = None
  /\ DirectoryInfo.collections di = None
  /\ DirectoryInfo.verboseSummary di = None
  /\ DirectoryInfo.directoryInfos di = None.

(** How the fields of one result hang together, by its kind. *)
Definition node_ok (di : DirectoryInfo.t) : Prop :=
  match DirectoryInfo.kind di with
  | Directory =>
      DirectoryInfo.error di = None
      /\ (exists children,
             DirectoryInfo.directoryInfos di = Some children
             /\ (DirectoryInfo.identified di = true -> children = []))
      /\ (DirectoryInfo.identified di = true
          <-> DirectoryInfo.answers di <> None
              \/ DirectoryInfo.collections di <> None)
      /\ (DirectoryInfo.answers di = None \/ DirectoryInfo.collections di = None)
      /\ DirectoryInfo.answers di <> Some []
      /\ (DirectoryInfo.identified di = true ->
          DirectoryInfo.verboseSummary di = None)
  | Error =>
      DirectoryInfo.identified di = false
      /\ DirectoryInfo.error di <> None /\ bare di
  | File | SymbolicLink =>
      DirectoryInfo.identified di = true
      /\ DirectoryInfo.error di = None /\ bare di
  | Unknown =>
      DirectoryInfo.identified di = false
      /\ DirectoryInfo.error di = None /\ bare di
  end.

(** The child results of a result are named by a path below its
    name. *)
Definition children_named (join : string -> string -> string)
           (di : DirectoryInfo.t) : Prop :=
  forall children,
    DirectoryInfo.directoryInfos di = Some children ->
    Forall (fun child =>
              exists w, DirectoryInfo.name child = join (DirectoryInfo.name di) w)
           children.

(** What the result of [processFilename] for [filename] at [depth] is
    like: named by [filename], every result sound and named below its
    parent, and no more levels than the depth leaves. *)
Definition result_tree (MAXDEPTH : Z) (join : string -> string -> string)
           (depth : nat) (filename : string) (di : DirectoryInfo.t) : Prop :=
  DirectoryInfo.name di = filename
  /\ every_node node_ok di
  /\ every_node (children_named join) di
  /\ height di <= Z.to_nat (MAXDEPTH - Z.of_nat depth).

(** The answers [printResults] has of its own: what follows ["=> "]
    for a kind of entry, for a directory without child results and for
    an unidentified one. *)
Definition stock_answers : list string :=
  [ "neither file nor directory"; "file"; "symlink"; "empty"; "unidentified" ].

(** Two results the renderer shows alike, at every depth; and two runs
    that both give such results or both give none. *)
Definition prints_alike (di di' : DirectoryInfo.t) : Prop :=
  forall depth, Render.printResult depth di = Render.printResult depth di'.

Definition alike_results (r r' : option DirectoryInfo.t) : Prop :=
  match r, r' with
  | Some di, Some di' => prints_alike di di'
  | None, None => True
  | _, _ => False
  end.

Definition alike_lists (r r' : option (list DirectoryInfo.t)) : Prop :=
  match r, r' with
  | Some dis, Some dis' => Forall2 prints_alike dis dis'
  | None, None => True
  | _, _ => False
  end.

(** What the older file finds out about a listing: its answers and its
    collection report, from its own eight arrays. *)
Definition legacy_fileExtensions (dirents : list DirentStat.t) : list string :=
  map (fun d => Path.extname d)
      (filter (fun n => JS.includes_char "." n) (Legacy.bucket 3 dirents)).

Definition legacy_answersOf (dirents : list DirentStat.t) : list string :=
  Legacy.autoIdentify
    (Legacy.bucket 7 dirents) (Legacy.bucket 4 dirents)
    (map (fun d => Path.extname d) (Legacy.bucket 5 dirents))
    (Legacy.bucket 3 dirents) (Legacy.bucket 2 dirents)
    (legacy_fileExtensions dirents).

Definition legacy_foundCollectionOf (dirents : list DirentStat.t) : option string :=
  Collections.checkForCollections
    (countArrayFieldsToObject (legacy_fileExtensions dirents) true)
    (legacy_fileExtensions dirents).

Definition legacy_notesOf (dirents : list DirentStat.t) : list string :=
  Legacy.checkAdditionalNotes (Legacy.bucket 4 dirents) (Legacy.bucket 3 dirents)
                              (Legacy.bucket 2 dirents).

(** The signatures both files have, and the text the older file has for
    a note. *)
Definition in_both_tables (n : string) : bool :=
  negb (String.eqb n "macOS application"
        || String.eqb n "macOS application (wrapped)").

Definition note_text (k : AdditionalInfoKind) : string :=
  match k with
  | GitRepository => "Git repository"
  | GitHubRepository => "Github Git repository"
  | MacFinderFiles => "Mac Finder files"
  end.

(** The lines the older file prints for what it found: one for each
    answer, or one for the collection report. *)
Definition legacy_found_lines (depth : nat) (dirents : list DirentStat.t)
  : list Render.output :=
  if (0 <? List.length (legacy_answersOf dirents))%nat
  then map (fun ans => Render.printAnswer depth ans) (legacy_answersOf dirents)
  else match legacy_foundCollectionOf dirents with
       | Some c => [Render.printAnswer depth c]
       | None => []
       end.

Definition legacy_identifiedOf (dirents : list DirentStat.t) : bool :=
  if (0 <? List.length (legacy_answersOf dirents))%nat then true
  else match legacy_foundCollectionOf dirents with
       | Some _ => true
       | None => false
       end.

(** An extension as [path.extname] gives it: empty, or a dot and what
    follows. *)
Definition extension_shaped (s : string) : Prop :=
  s = "" \/ exists rest, s = String "." rest.

(** The collections the older file hands to its [verboseSummary], and
    the directories it goes into. *)
Definition legacy_collectionsOf (dirents : list DirentStat.t)
  : list (collection * string) :=
  [ (Names (Legacy.bucket 0 dirents), "broken")
  ; (Names (Legacy.bucket 3 dirents), "files")
  ; (Names (Legacy.bucket 7 dirents), "dirs")
  ; (Names (zeroLenFilenames dirents), "zero byte files")
  ; (Names (Legacy.bucket 2 dirents), "dot files")
  ; (Names (Legacy.bucket 4 dirents), "dot dirs")
  ; (Names (Legacy.bucket 5 dirents), "dirs with extensions")
  ; (Names (Legacy.bucket 1 dirents), "neither files nor dirs")
  ; (Counts (countArrayFieldsToObject
               (map (fun d => Path.extname d) (Legacy.bucket 5 dirents)) false),
     "dir extensions")
  ; (Counts (countArrayFieldsToObject (legacy_fileExtensions dirents) true),
     "file extensions")
  ; (Names (Legacy.bucket 6 dirents), "UUID dirs") ].

Definition legacy_whichDirectories (FOLLOWDOT : bool) (dirents : list DirentStat.t)
  : list string :=
  Legacy.bucket 7 dirents ++ Legacy.bucket 5 dirents
    ++ (if FOLLOWDOT
        then Legacy.bucket 4 dirents ++ Legacy.bucket 6 dirents
        else []).

(** The lines of the older file for one directory it went into. *)
Definition legacy_child_lines (depth : nat) (out : list Render.output)
  : list Render.output :=
  [Render.printText depth "{"] ++ out ++ [Render.printText depth "}"].
(* ================================================================== *)
(** * Properties of the partitioner *)
(* ================================================================== *)

Section CollateFacts.
Context {T : Type}.
Implicit Types (tests : list (T -> bool)) (a : list (list T)).

(** [some_index] answers the position of the first test that holds,
    counted from [i], or else [index]. *)
Lemma some_index_spec tests d i index :
  (exists k, k < List.length tests
             /\ some_index tests d i index = i + k
             /\ nth k tests (fun _ => false) d = true
             /\ forall j, j < k -> nth j tests (fun _ => false) d = false)
  \/ (some_index tests d i index = index
      /\ forall j, nth j tests (fun _ => false) d = false).
Proof.
  revert i; induction tests as [|t ts IH]; intros i; simpl.
  - right; split; [reflexivity|]. intros [|j]; reflexivity.
  - destruct (t d) eqn:Ht.
    + left; exists 0; repeat split; try lia; auto.
    + destruct (IH (S i)) as [(k & Hk & Hs & Hn & Hlt)|[Hs Hall]].
      * left; exists (S k); repeat split; try lia; auto.
        intros [|j] Hj; [exact Ht | apply Hlt; lia].
      * right; split; [exact Hs|]. intros [|j]; [exact Ht | apply Hall].
Qed.

Lemma some_index_le tests d :
  some_index tests d 0 (List.length tests) <= List.length tests.
Proof.
  destruct (some_index_spec tests d 0 (List.length tests))
    as [(k & Hk & Hs & _)|[Hs _]]; lia.
Qed.

Lemma push_at_length a index d :
  List.length (push_at a index d) = List.length a.
Proof.
  revert index; induction a as [|b bs IH]; intros [|i]; simpl; auto.
Qed.

Lemma push_at_nth a index d i :
  index < List.length a ->
  nth i (push_at a index d) [] =
    if i =? index then nth i a [] ++ [d] else nth i a [].
Proof.
  revert index i; induction a as [|b bs IH]; intros index i Hlt; simpl in Hlt.
  - lia.
  - destruct index as [|index]; destruct i as [|i]; simpl; auto.
    apply IH; lia.
Qed.

Lemma push_at_concat a index d :
  index < List.length a ->
  Permutation (List.concat (push_at a index d)) (d :: List.concat a).
Proof.
  revert index; induction a as [|b bs IH]; intros index Hlt; simpl in Hlt.
  - lia.
  - destruct index as [|index]; simpl.
    + rewrite <- app_assoc. simpl.
      symmetry. apply Permutation_middle.
    + rewrite (IH index) by lia.
      symmetry. apply Permutation_middle.
Qed.

(** The loop of [collate], from any accumulator that has a slot for
    every index. *)
Lemma collate_loop_nth tests input a i :
  List.length a = List.length tests + 1 ->
  nth i (fold_left
           (fun a d => push_at a (some_index tests d 0 (List.length tests)) d)
           input a) []
  = nth i a []
      ++ filter (fun d => some_index tests d 0 (List.length tests) =? i) input.
Proof.
  revert a; induction input as [|d input IH]; intros a Hlen; simpl.
  - now rewrite app_nil_r.
  - rewrite IH by (now rewrite push_at_length).
    rewrite push_at_nth by (pose proof (some_index_le tests d); lia).
    rewrite (Nat.eqb_sym (some_index tests d 0 (List.length tests)) i).
    destruct (i =? some_index tests d 0 (List.length tests)); simpl; auto.
    now rewrite <- app_assoc.
Qed.

Lemma collate_loop_length tests input a :
  List.length (fold_left
            (fun a d => push_at a (some_index tests d 0 (List.length tests)) d)
            input a)
  = List.length a.
Proof.
  revert a; induction input as [|d input IH]; intros a; simpl; auto.
  now rewrite IH, push_at_length.
Qed.

Lemma collate_loop_concat tests input a :
  List.length a = List.length tests + 1 ->
  Permutation
    (List.concat (fold_left
               (fun a d => push_at a (some_index tests d 0 (List.length tests)) d)
               input a))
    (List.concat a ++ input).
Proof.
  revert a; induction input as [|d input IH]; intros a Hlen; simpl.
  - now rewrite app_nil_r.
  - rewrite IH by (now rewrite push_at_length).
    rewrite push_at_concat by (pose proof (some_index_le tests d); lia).
    simpl. apply Permutation_middle.
Qed.

Lemma nth_repeat_nil n i : nth i (repeat (@nil T) n) [] = [].
Proof.
  revert i; induction n as [|n IH]; intros [|i]; simpl; auto.
Qed.

Lemma concat_repeat_nil n : List.concat (repeat (@nil T) n) = [].
Proof. induction n; simpl; auto. Qed.

(** Bucket [i] holds, in the order of the input, the elements whose
    first passing test is test [i]. *)
Lemma collate_nth tests input i :
  nth i (collate input tests) []
  = filter (fun d => some_index tests d 0 (List.length tests) =? i) input.
Proof.
  unfold collate.
  rewrite collate_loop_nth by (now rewrite repeat_length).
  now rewrite nth_repeat_nil.
Qed.

Lemma collate_length tests input :
  List.length (collate input tests) = List.length tests + 1.
Proof.
  unfold collate. now rewrite collate_loop_length, repeat_length.
Qed.

Lemma collate_concat tests input :
  Permutation (List.concat (collate input tests)) input.
Proof.
  unfold collate.
  rewrite collate_loop_concat by (now rewrite repeat_length).
  now rewrite concat_repeat_nil.
Qed.

Lemma collate_In tests input i d :
  In d (nth i (collate input tests) [])
  <-> In d input /\ some_index tests d 0 (List.length tests) = i.
Proof.
  rewrite collate_nth, filter_In, Nat.eqb_eq. tauto.
Qed.

End CollateFacts.

(** One of the nine tests holds of every entry: a file passes test 4, a
    directory test 8, and what is neither passes test 2. *)
Lemma tests_exhaustive (d : DirentStat.t) :
  some_index tests d 0 (List.length tests) < 9.
Proof.
  destruct d as [f dr sl n sz [e|]]; simpl; [lia|].
  destruct sl; simpl; [lia|].
  destruct f, dr; simpl;
    repeat match goal with
           | |- context [if ?b then _ else _] => destruct b
           end; lia.
Qed.

Lemma Some_eq {A : Type} (x y : A) : Some x = Some y -> x = y.
Proof. intros H. now inversion H. Qed.

(** The index [some_index] answers for an entry, told by the tests
    alone: test [i] holds and no earlier one does. *)
Lemma first_test_iff (d : DirentStat.t) (i : nat) :
  some_index tests d 0 (List.length tests) = i
  <-> nth i tests (fun _ => false) d = true
      /\ forall j, j < i -> nth j tests (fun _ => false) d = false.
Proof.
  pose proof (tests_exhaustive d) as Hex.
  destruct (some_index_spec tests d 0 (List.length tests))
    as [(k & Hk & Hs & Hn & Hlt)|[Hs Hall]].
  - rewrite Nat.add_0_l in Hs. split.
    + intros <-. rewrite Hs. auto.
    + intros [Hi Hlow]. rewrite Hs.
      destruct (Nat.lt_trichotomy i k) as [Hik|[->|Hki]]; auto.
      * rewrite (Hlt i Hik) in Hi. discriminate.
      * rewrite (Hlow k Hki) in Hn. discriminate.
  - rewrite Hs in Hex. simpl in Hex. lia.
Qed.

(** The tenth array is empty, whatever the entries. *)
Lemma shouldBeEmpty_nil (dirents : list DirentStat.t) :
  Buckets.shouldBeEmpty dirents = [].
Proof.
  unfold Buckets.shouldBeEmpty, bucket, buckets.
  change (@nil string) with (map DirentStat.name []) at 1.
  rewrite map_nth, collate_nth.
  induction dirents as [|d dirents IH]; [reflexivity|].
  cbn [filter]. pose proof (tests_exhaustive d) as Hd.
  destruct (Nat.eqb_spec (some_index tests d 0 (List.length tests)) 9) as [E|_].
  - rewrite E in Hd. lia.
  - exact IH.
Qed.

(** C1. For every list of entries, [collate] under the nine tests of
    [processDirents] puts each entry into exactly one of ten arrays: the
    array of the first test, in their order, that the entry passes.  The
    arrays keep the order of the listing, no entry is in two of them,
    together they are the listing, and the tenth array, which the
    program calls [shouldBeEmpty], is empty: the result of
    [processDirents] always carries an empty [identificationFailures],
    so that the renderer has nothing to report for it. *)
Theorem collate_partitions_entries (dirents : list DirentStat.t) :
  let parts := collate dirents tests in
  List.length parts = 10
  /\ (forall i,
         nth i parts []
         = filter (fun d => some_index tests d 0 (List.length tests) =? i) dirents)
  /\ (forall i d,
         In d (nth i parts [])
         <-> In d dirents
             /\ nth i tests (fun _ => false) d = true
             /\ forall j, j < i -> nth j tests (fun _ => false) d = false)
  /\ (forall d, In d dirents ->
                exists i, i < 9
                          /\ In d (nth i parts [])
                          /\ forall j, In d (nth j parts []) -> j = i)
  /\ (forall i j d, In d (nth i parts []) -> In d (nth j parts []) -> i = j)
  /\ Permutation (List.concat parts) dirents
  /\ Permutation (List.concat (buckets dirents)) (map DirentStat.name dirents)
  /\ nth 9 parts [] = []
  /\ Buckets.shouldBeEmpty dirents = []
  /\ (forall MAXDEPTH VERBOSE FOLLOWDOT join countObToString
             processFilename depth filename di,
         Explorer.processDirents MAXDEPTH VERBOSE FOLLOWDOT join countObToString
                                 processFilename depth filename dirents = Some di ->
         DirectoryInfo.identificationFailures di = Some []).
Proof.
  intros parts.
  assert (Hin : forall i d,
             In d (nth i parts [])
             <-> In d dirents /\ some_index tests d 0 (List.length tests) = i)
    by (intros; apply collate_In).
  assert (Hlast : nth 9 parts [] = []).
  { destruct (nth 9 parts []) as [|d rest] eqn:E; [reflexivity|].
    assert (Hd : In d (nth 9 parts [])) by (rewrite E; left; reflexivity).
    apply Hin in Hd. destruct Hd as [_ Hd].
    pose proof (tests_exhaustive d). lia. }
  pose proof (shouldBeEmpty_nil dirents) as Hempty.
  split; [apply collate_length|].
  split; [intros i; apply collate_nth|].
  split.
  { intros i d. rewrite Hin, first_test_iff. tauto. }
  split.
  { intros d Hd.
    exists (some_index tests d 0 (List.length tests)).
    split; [apply tests_exhaustive|].
    split; [apply Hin; auto|].
    intros j Hj. apply Hin in Hj. destruct Hj as [_ Hj]. now symmetry. }
  split.
  { intros i j d Hi Hj. apply Hin in Hi, Hj.
    destruct Hi as [_ <-], Hj as [_ <-]. reflexivity. }
  split; [apply collate_concat|].
  split.
  { unfold buckets. rewrite <- concat_map.
    apply Permutation_map, collate_concat. }
  split; [exact Hlast|].
  split; [exact Hempty|].
  intros MAXDEPTH VERBOSE FOLLOWDOT join countObToString processFilename
         depth filename di.
  unfold Explorer.processDirents. rewrite Hempty.
  destruct (0 <? List.length dirents).
  - match goal with
    | |- context [negb ?b] => destruct b
    end; cbn [negb].
    + intros H. apply Some_eq in H. now subst di.
    + destruct (Explorer.explore _ _ _ _ _ _ _); [|discriminate].
      intros H. apply Some_eq in H. now subst di.
  - intros H. apply Some_eq in H. now subst di.
Qed.

(* ================================================================== *)
(** * Properties of the signature table *)
(* ================================================================== *)

Lemma existsb_eqb_In (haystack : list string) (n : string) :
  existsb (fun d => String.eqb d n) haystack = true <-> In n haystack.
Proof.
  rewrite existsb_exists. split.
  - intros (d & Hd & Heq). apply String.eqb_eq in Heq. now subst.
  - intros Hn. exists n. split; [exact Hn | apply String.eqb_refl].
Qed.

Lemma includesAll_true dirents filenames :
  includesAll dirents filenames = true
  <-> forall n, In n filenames -> In n dirents.
Proof.
  unfold includesAll. rewrite forallb_forall.
  split; intros H n Hn; apply existsb_eqb_In; auto.
Qed.

Lemma includesAny_true dirents filenames :
  includesAny dirents filenames = true
  <-> exists n, In n filenames /\ In n dirents.
Proof.
  unfold includesAny. rewrite existsb_exists.
  split; intros (n & Hn & Hd); exists n; split; auto; now apply existsb_eqb_In.
Qed.

Lemma includes_true strings str :
  includes strings str = true
  <-> exists str0 rest, str = str0 :: rest /\ In str0 strings.
Proof.
  destruct str as [|str0 rest]; simpl.
  - split; [discriminate | intros (? & ? & ? & _); discriminate].
  - rewrite existsb_eqb_In. split.
    + intros H. exists str0, rest. auto.
    + intros (s & r & [= <- <-] & H). exact H.
Qed.

(** The loop of [autoIdentify] collects, in the order of the table, the
    names of the rows whose steps all pass. *)
Lemma run_loop tbl h answers :
  fold_left
    (fun answers entry =>
       if AutoIdentify.every_step h entry
       then answers ++ [AutoIdentify.name entry] else answers)
    tbl answers
  = answers ++ map AutoIdentify.name (filter (AutoIdentify.every_step h) tbl).
Proof.
  revert answers; induction tbl as [|e tbl IH]; intros answers; simpl.
  - now rewrite app_nil_r.
  - rewrite IH. destruct (AutoIdentify.every_step h e); simpl; auto.
    now rewrite <- app_assoc.
Qed.

Lemma run_filter tbl h :
  AutoIdentify.run tbl h
  = map AutoIdentify.name (filter (AutoIdentify.every_step h) tbl).
Proof. unfold AutoIdentify.run. now rewrite run_loop. Qed.

Lemma every_step_true h e :
  AutoIdentify.every_step h e = true
  <-> forall haystack check needles,
      In (haystack, check, needles) (AutoIdentify.steps e) ->
      check (haystack h) needles = true.
Proof.
  unfold AutoIdentify.every_step. rewrite forallb_forall. split.
  - intros H haystack check needles Hin. exact (H _ Hin).
  - intros H [[haystack check] needles] Hin. now apply H.
Qed.

(** No two rows of the table have the same name. *)
Lemma table_names_NoDup : NoDup (map AutoIdentify.name AutoIdentify.table).
Proof.
  apply (NoDup_count_occ' string_dec).
  intros x Hx. simpl in Hx.
  repeat (destruct Hx as [<-|Hx]; [vm_compute; reflexivity|]).
  contradiction.
Qed.

(** Every step of the table examines one of the seven arrays with one
    of the three containment tests. *)
Lemma table_steps_known :
  Forall (fun e =>
            Forall (fun s : AutoIdentify.step =>
                      known_haystack (fst (fst s)) /\ known_check (snd (fst s)))
                   (AutoIdentify.steps e))
         AutoIdentify.table.
Proof. unfold AutoIdentify.table. repeat constructor. Qed.

Lemma table_step_known e haystack check needles :
  In e AutoIdentify.table ->
  In (haystack, check, needles) (AutoIdentify.steps e) ->
  known_haystack haystack /\ known_check check.
Proof.
  intros He Hs.
  pose proof table_steps_known as H.
  rewrite Forall_forall in H. specialize (H e He).
  rewrite Forall_forall in H. exact (H _ Hs).
Qed.

Lemma run_In tbl h n :
  In n (AutoIdentify.run tbl h)
  <-> exists e, In e tbl /\ AutoIdentify.name e = n
                /\ AutoIdentify.every_step h e = true.
Proof.
  rewrite run_filter, in_map_iff. split.
  - intros (e & Hn & He). apply filter_In in He. exists e. tauto.
  - intros (e & He & Hn & Hs). exists e. split; [exact Hn|].
    apply filter_In. tauto.
Qed.

(** A row of the table is among the answers iff its steps all pass. *)
Lemma table_row_In h e :
  In e AutoIdentify.table ->
  In (AutoIdentify.name e) (AutoIdentify.run AutoIdentify.table h)
  <-> AutoIdentify.every_step h e = true.
Proof.
  intros He. rewrite run_In. split.
  - intros (e' & He' & Hn & Hs).
    assert (e' = e) as <-; [|exact Hs].
    pose proof table_names_NoDup as Hnd.
    clear Hs. revert He He' Hn Hnd.
    generalize AutoIdentify.table as tbl.
    induction tbl as [|x tbl IH]; simpl; intros He He' Hn Hnd; [contradiction|].
    inversion Hnd as [|? ? Hx Hnd']; subst.
    destruct He as [->|He], He' as [->|He']; auto.
    + exfalso. apply Hx. rewrite <- Hn. now apply in_map.
    + exfalso. apply Hx. rewrite Hn. now apply in_map.
  - intros Hs. exists e. auto.
Qed.

(** C2. For every seven arrays, [autoIdentify] returns exactly the names
    of the rows of the table all of whose steps pass, each step being
    one of the three containment tests (all needles are in the array,
    some needle is, the one needle is) over one of the seven arrays:
    every row that matches is reported, not only the first, no other
    row is, and the names come in the order of the table. *)
Theorem autoIdentify_collects_all_matches
        (normalDirectories dotDirectories dirExtensions
         normalFiles dotFiles fileExtensions symbolicLinks : list string) :
  let h := AutoIdentify.args normalDirectories dotDirectories dirExtensions
                             normalFiles dotFiles fileExtensions symbolicLinks in
  let answers := AutoIdentify.autoIdentify
                   normalDirectories dotDirectories dirExtensions
                   normalFiles dotFiles fileExtensions symbolicLinks in
  answers = map AutoIdentify.name
                (filter (AutoIdentify.every_step h) AutoIdentify.table)
  /\ (forall n,
         In n answers
         <-> exists e,
             In e AutoIdentify.table
             /\ AutoIdentify.name e = n
             /\ forall haystack check needles,
                 In (haystack, check, needles) (AutoIdentify.steps e) ->
                 check (haystack h) needles = true)
  /\ (forall e,
         In e AutoIdentify.table ->
         In (AutoIdentify.name e) answers
         <-> forall haystack check needles,
             In (haystack, check, needles) (AutoIdentify.steps e) ->
             check (haystack h) needles = true)
  /\ (forall e haystack check needles,
         In e AutoIdentify.table ->
         In (haystack, check, needles) (AutoIdentify.steps e) ->
         known_haystack haystack /\ known_check check)
  /\ (forall dirents filenames,
         (includesAll dirents filenames = true
          <-> forall n, In n filenames -> In n dirents)
         /\ (includesAny dirents filenames = true
             <-> exists n, In n filenames /\ In n dirents)
         /\ (includes dirents filenames = true
             <-> exists str0 rest, filenames = str0 :: rest /\ In str0 dirents)).
Proof.
  intros h answers. subst answers. unfold AutoIdentify.autoIdentify. fold h.
  split; [apply run_filter|].
  split.
  { intros n. rewrite run_In.
    split; intros (e & He & Hn & Hs); exists e; repeat split; auto;
      now apply every_step_true. }
  split.
  { intros e He. rewrite (table_row_In h e He). apply every_step_true. }
  split.
  { intros e haystack check needles. apply table_step_known. }
  intros dirents filenames.
  split; [apply includesAll_true|].
  split; [apply includesAny_true | apply includes_true].
Qed.

(** Two rows that both match are both reported, in the order of the
    table. *)
Example autoIdentify_reports_two_matches :
  AutoIdentify.autoIdentify ["src"] [] [] ["build.gradle"; "go.mod"; "Project.toml"]
                            [] [".gradle"; ".mod"; ".toml"] []
  = ["Go module"; "Gradle project"; "Julia package"].
Proof. reflexivity. Qed.

(* ================================================================== *)
(** * Signature matching and the listing *)
(* ================================================================== *)

Lemma bucket_filter i dirents :
  bucket i dirents
  = map DirentStat.name
        (filter (fun d => some_index tests d 0 (List.length tests) =? i) dirents).
Proof.
  unfold bucket, buckets.
  change (@nil string) with (map DirentStat.name []).
  rewrite map_nth. now rewrite collate_nth.
Qed.

Lemma bucket_incl i dirents dirents' :
  incl dirents dirents' -> incl (bucket i dirents) (bucket i dirents').
Proof.
  intros Hincl x. rewrite !bucket_filter, !in_map_iff.
  intros (d & Hn & Hd). exists d. split; [exact Hn|].
  apply filter_In in Hd. apply filter_In. split; [apply Hincl|]; tauto.
Qed.

Lemma bucket_without i n dirents x :
  In x (bucket i (without n dirents)) <-> In x (bucket i dirents) /\ x <> n.
Proof.
  rewrite !bucket_filter, !in_map_iff. unfold without. split.
  - intros (d & Hn & Hd). apply filter_In in Hd. destruct Hd as [Hd Hi].
    apply filter_In in Hd. destruct Hd as [Hd Hne].
    split.
    + exists d. split; [exact Hn|]. apply filter_In. auto.
    + subst x. apply negb_true_iff, String.eqb_neq in Hne. exact Hne.
  - intros [(d & Hn & Hd) Hne]. exists d. split; [exact Hn|].
    apply filter_In in Hd. destruct Hd as [Hd Hi].
    apply filter_In. split; [|exact Hi].
    apply filter_In. split; [exact Hd|].
    apply negb_true_iff, String.eqb_neq. now subst x.
Qed.

Lemma fileExtensions_incl dirents dirents' :
  incl dirents dirents' ->
  incl (Buckets.fileExtensions dirents) (Buckets.fileExtensions dirents').
Proof.
  intros Hincl. unfold Buckets.fileExtensions.
  apply incl_map. intros x Hx.
  apply filter_In in Hx. apply filter_In. split; [|tauto].
  apply (bucket_incl 4 _ _ Hincl). tauto.
Qed.

(** A larger listing gives larger arrays. *)
Lemma haystacksOf_incl dirents dirents' :
  incl dirents dirents' ->
  haystacks_incl (haystacksOf dirents) (haystacksOf dirents').
Proof.
  intros Hincl. unfold haystacks_incl, haystacksOf; simpl.
  repeat split; try (apply bucket_incl; exact Hincl).
  - unfold Buckets.dirExtensions. apply incl_map, bucket_incl, Hincl.
  - apply fileExtensions_incl, Hincl.
Qed.

Lemma known_haystack_incl haystack h h' :
  known_haystack haystack -> haystacks_incl h h' ->
  incl (haystack h) (haystack h').
Proof.
  intros Hk (H1 & H2 & H3 & H4 & H5 & H6 & H7). destruct Hk; assumption.
Qed.

(** The three containment tests keep passing when the array grows. *)
Lemma known_check_monotone check haystack haystack' needles :
  known_check check -> incl haystack haystack' ->
  check haystack needles = true -> check haystack' needles = true.
Proof.
  intros Hk Hincl. destruct Hk.
  - rewrite !includes_true. intros (n & rest & -> & Hn). eauto.
  - rewrite !includesAll_true. intros H n Hn. auto.
  - rewrite !includesAny_true. intros (n & Hn & Hd). eauto.
Qed.

Lemma every_step_monotone h h' e :
  In e AutoIdentify.table -> haystacks_incl h h' ->
  AutoIdentify.every_step h e = true -> AutoIdentify.every_step h' e = true.
Proof.
  intros He Hincl. rewrite !every_step_true.
  intros H haystack check needles Hs.
  destruct (table_step_known e haystack check needles He Hs) as [Hh Hc].
  apply (known_check_monotone check (haystack h)); auto.
  now apply known_haystack_incl.
Qed.

Lemma run_monotone h h' :
  haystacks_incl h h' ->
  incl (AutoIdentify.run AutoIdentify.table h) (AutoIdentify.run AutoIdentify.table h').
Proof.
  intros Hincl n. rewrite !run_In.
  intros (e & He & Hn & Hs). exists e. repeat split; auto.
  now apply (every_step_monotone h h').
Qed.

(** A step fails on an array that lost a name the step required. *)
Lemma required_missing haystack haystack' n check needles :
  required haystack n check needles ->
  incl haystack' haystack -> ~ In n haystack' ->
  check haystack' needles = false.
Proof.
  intros Hreq Hincl Hn. apply not_true_is_false. intros Hc. apply Hn.
  destruct Hreq as [rest|needles Hneedle|needles Hneedle Honly].
  - apply includes_true in Hc. destruct Hc as (s & r & [= <- <-] & H). exact H.
  - rewrite includesAll_true in Hc. auto.
  - apply includesAny_true in Hc. destruct Hc as (m & Hm & Hd).
    now rewrite <- (Honly m Hm (Hincl m Hd)).
Qed.

Lemma answersOf_run dirents :
  answersOf dirents = AutoIdentify.run AutoIdentify.table (haystacksOf dirents).
Proof. reflexivity. Qed.

Lemma names_haystack_without haystack n dirents x :
  names_haystack haystack ->
  In x (haystack (haystacksOf (without n dirents)))
  <-> In x (haystack (haystacksOf dirents)) /\ x <> n.
Proof.
  intros Hk. destruct Hk; simpl; apply bucket_without.
Qed.

(** C7. Signature matching is monotone in the listing.  Entries added
    to a listing never remove a signature that matched; a row of the
    table whose steps all pass on the larger listing is among its
    answers, whether it matched before or not; and a signature that
    matched is gone once the array one of its steps examines has lost a
    name that step required (the needle of [includes], any needle of
    [includesAll], the only needle present for [includesAny]), in
    particular once the entries of that name are taken out of the
    listing. *)
Theorem signature_matching_monotone :
  (forall h h',
      haystacks_incl h h' ->
      incl (AutoIdentify.run AutoIdentify.table h)
           (AutoIdentify.run AutoIdentify.table h'))
  /\ (forall dirents dirents',
         incl dirents dirents' -> incl (answersOf dirents) (answersOf dirents'))
  /\ (forall l1 l2 d, incl (answersOf (l1 ++ l2)) (answersOf (l1 ++ d :: l2)))
  /\ (forall l1 l2 d e,
         In e AutoIdentify.table ->
         ~ In (AutoIdentify.name e) (answersOf (l1 ++ l2)) ->
         (forall haystack check needles,
             In (haystack, check, needles) (AutoIdentify.steps e) ->
             check (haystack (haystacksOf (l1 ++ d :: l2))) needles = true) ->
         In (AutoIdentify.name e) (answersOf (l1 ++ d :: l2)))
  /\ (forall h h' e haystack check needles n,
         In e AutoIdentify.table ->
         In (AutoIdentify.name e) (AutoIdentify.run AutoIdentify.table h) ->
         In (haystack, check, needles) (AutoIdentify.steps e) ->
         required (haystack h) n check needles ->
         incl (haystack h') (haystack h) ->
         ~ In n (haystack h') ->
         ~ In (AutoIdentify.name e) (AutoIdentify.run AutoIdentify.table h'))
  /\ (forall dirents e haystack check needles n,
         In e AutoIdentify.table ->
         In (AutoIdentify.name e) (answersOf dirents) ->
         In (haystack, check, needles) (AutoIdentify.steps e) ->
         names_haystack haystack ->
         required (haystack (haystacksOf dirents)) n check needles ->
         ~ In (AutoIdentify.name e) (answersOf (without n dirents))).
Proof.
  assert (Hremove : forall h h' e haystack check needles n,
             In e AutoIdentify.table ->
             In (haystack, check, needles) (AutoIdentify.steps e) ->
             required (haystack h) n check needles ->
             incl (haystack h') (haystack h) ->
             ~ In n (haystack h') ->
             ~ In (AutoIdentify.name e) (AutoIdentify.run AutoIdentify.table h')).
  { intros h h' e haystack check needles n He Hs Hreq Hincl Hn Hin.
    pose proof (proj1 (table_row_In h' e He) Hin) as Hall.
    pose proof (proj1 (every_step_true h' e) Hall _ _ _ Hs) as Hc.
    clear Hin Hall. rename Hc into Hin.
    rewrite (required_missing _ _ _ _ _ Hreq Hincl Hn) in Hin. discriminate. }
  split; [exact run_monotone|].
  split.
  { intros dirents dirents' Hincl. rewrite !answersOf_run.
    apply run_monotone, haystacksOf_incl, Hincl. }
  split.
  { intros l1 l2 d. rewrite !answersOf_run.
    apply run_monotone, haystacksOf_incl.
    intros x Hx. apply in_app_or in Hx. apply in_or_app. simpl. tauto. }
  split.
  { intros l1 l2 d e He _ Hs. rewrite answersOf_run.
    apply (proj2 (table_row_In _ e He)).
    exact (proj2 (every_step_true _ e) Hs). }
  split.
  { intros h h' e haystack check needles n He _. now apply Hremove. }
  intros dirents e haystack check needles n He _ Hs Hk Hreq.
  rewrite answersOf_run.
  apply (Hremove (haystacksOf dirents) _ e haystack check needles n); auto.
  - intros x Hx. now apply (names_haystack_without haystack n dirents x Hk) in Hx.
  - intros Hx. apply (names_haystack_without haystack n dirents n Hk) in Hx.
    now destruct Hx.
Qed.

(** With [includesAny] a needle is not required while another needle is
    there: the row stays when one of two is taken away. *)
Example includesAny_other_needle_keeps_the_row :
  AutoIdentify.autoIdentify [] [] [] ["dub.json"; "dub.sdl"] [] [".json"; ".sdl"] []
  = ["D (DUB) project"]
  /\ AutoIdentify.autoIdentify [] [] [] ["dub.sdl"] [] [".sdl"] []
     = ["D (DUB) project"]
  /\ AutoIdentify.autoIdentify [] [] [] [] [] [] [] = [].
Proof. repeat split. Qed.

(* ================================================================== *)
(** * Properties of the explorer *)
(* ================================================================== *)

(** Reading the fields of a result that is written out. *)
Ltac fields :=
  cbn [DirectoryInfo.name DirectoryInfo.kind DirectoryInfo.identified
       DirectoryInfo.error DirectoryInfo.additionalInfo
       DirectoryInfo.identificationFailures DirectoryInfo.answers
       DirectoryInfo.collections DirectoryInfo.verboseSummary
       DirectoryInfo.directoryInfos andb orb negb].

Section ExplorerFacts.
Variable MAXDEPTH : Z.
Variables VERBOSE FOLLOWDOT : bool.
Variable lstat : string -> throws Stats.t.
Variable readdir : string -> throws (list Dirent.t).
Variable join : string -> string -> string.
Variable sortByName : list Dirent.t -> list Dirent.t.
Variable countObToString : extensionObject -> string.

Abbreviation explore := (Explorer.explore MAXDEPTH join).
Abbreviation processDirents :=
  (Explorer.processDirents MAXDEPTH VERBOSE FOLLOWDOT join countObToString).
Abbreviation processFilename :=
  (Explorer.processFilename MAXDEPTH VERBOSE FOLLOWDOT lstat readdir join
                            sortByName countObToString).
Abbreviation whichDirectories := (Explorer.whichDirectories FOLLOWDOT).

(** At or below the maximum depth the loop calls nothing. *)
Lemma explore_too_deep rec depth filename which acc :
  (MAXDEPTH <= Z.of_nat depth)%Z ->
  explore rec depth filename which acc = Some acc.
Proof.
  intros Hd. revert acc; induction which as [|w ws IH]; intros acc; simpl; auto.
  destruct (Z.ltb_spec (Z.of_nat depth) MAXDEPTH); [lia | apply IH].
Qed.

(** Above it, the loop calls [processFilename] once per name, in order,
    one level down, and appends the results. *)
Lemma explore_calls rec depth filename which acc children :
  (Z.of_nat depth < MAXDEPTH)%Z ->
  explore rec depth filename which acc = Some children
  <-> exists results,
      children = acc ++ results
      /\ Forall2 (fun w res => rec (depth + 1) (join filename w) = Some res)
                 which results.
Proof.
  intros Hd. revert acc children.
  induction which as [|w ws IH]; intros acc children; simpl.
  - split.
    + intros H. apply Some_eq in H. subst. exists []. rewrite app_nil_r. auto.
    + intros (results & -> & HF). inversion HF. now rewrite app_nil_r.
  - destruct (Z.ltb_spec (Z.of_nat depth) MAXDEPTH); [|lia].
    destruct (rec (depth + 1) (join filename w)) as [res|] eqn:Hres.
    + rewrite IH. split.
      * intros (results & -> & HF). exists (res :: results).
        rewrite <- app_assoc. simpl. auto.
      * intros (results & -> & HF). inversion HF as [|? r ? rs Hr HF']; subst.
        rewrite Hres in Hr. apply Some_eq in Hr. subst r.
        exists rs. rewrite <- app_assoc. simpl. auto.
    + split; [discriminate|].
      intros (results & _ & HF). inversion HF as [|? r ? rs Hr HF']; subst.
      rewrite Hres in Hr. discriminate.
Qed.

(** When every call returns, so does the loop. *)
Lemma explore_returns rec depth filename which acc :
  ((Z.of_nat depth < MAXDEPTH)%Z ->
   forall w, In w which -> exists res, rec (depth + 1) (join filename w) = Some res) ->
  exists children, explore rec depth filename which acc = Some children.
Proof.
  destruct (Z.ltb_spec (Z.of_nat depth) MAXDEPTH) as [Hd|Hd].
  - intros Hrec. specialize (Hrec Hd).
    revert acc; induction which as [|w ws IH]; intros acc; simpl; eauto.
    destruct (Z.ltb_spec (Z.of_nat depth) MAXDEPTH); [|lia].
    destruct (Hrec w (or_introl eq_refl)) as [res ->].
    apply IH. intros w' Hw'. apply Hrec. now right.
  - intros _. exists acc. now apply explore_too_deep.
Qed.

(** [processDirents] with its local constants written as functions of
    the entries. *)
Lemma processDirents_eq rec depth filename dirents :
  processDirents rec depth filename dirents
  = if 0 <? List.length dirents then
      if negb (if 0 <? List.length (answersOf dirents) then true
               else match foundCollectionOf dirents with
                    | Some _ => true
                    | None => false
                    end)
      then
        match explore rec depth filename (whichDirectories dirents) [] with
        | Some directoryInfos =>
            Some (DirectoryInfo.mk filename Directory false None
                    (Some (notesOf dirents)) (Some (Buckets.shouldBeEmpty dirents))
                    None None
                    (if VERBOSE
                     then Some (Explorer.verboseSummary countObToString depth
                                                        (collectionsOf dirents))
                     else None)
                    (Some directoryInfos))
        | None => None
        end
      else
        Some (DirectoryInfo.mk filename Directory true None
                (Some (notesOf dirents)) (Some (Buckets.shouldBeEmpty dirents))
                (if 0 <? List.length (answersOf dirents)
                 then Some (answersOf dirents) else None)
                (if 0 <? List.length (answersOf dirents)
                 then None else foundCollectionOf dirents)
                None (Some []))
    else
      Some (DirectoryInfo.mk filename Directory false None
              None (Some (Buckets.shouldBeEmpty dirents)) None None None (Some [])).
Proof.
  unfold Explorer.processDirents, answersOf, foundCollectionOf, notesOf,
    collectionsOf.
  cbv zeta. reflexivity.
Qed.

(** The result of [processDirents], field by field. *)
Lemma processDirents_result rec depth filename dirents di :
  processDirents rec depth filename dirents = Some di ->
  DirectoryInfo.name di = filename
  /\ DirectoryInfo.kind di = Directory
  /\ DirectoryInfo.identified di = identifiedOf dirents
  /\ DirectoryInfo.additionalInfo di
     = (if 0 <? List.length dirents then Some (notesOf dirents) else None)
  /\ DirectoryInfo.identificationFailures di = Some (Buckets.shouldBeEmpty dirents)
  /\ DirectoryInfo.answers di
     = (if (0 <? List.length dirents) && (0 <? List.length (answersOf dirents))
        then Some (answersOf dirents) else None)
  /\ DirectoryInfo.collections di
     = (if (0 <? List.length dirents) && negb (0 <? List.length (answersOf dirents))
        then foundCollectionOf dirents else None)
  /\ (if identifiedOf dirents
      then DirectoryInfo.directoryInfos di = Some []
      else exists children,
          DirectoryInfo.directoryInfos di = Some children
          /\ explore rec depth filename (whichDirectories dirents) [] = Some children).
Proof.
  rewrite processDirents_eq. unfold identifiedOf.
  destruct (0 <? List.length dirents) eqn:Hlen; cbn [andb].
  - destruct (0 <? List.length (answersOf dirents)); cbn [orb negb].
    + intros H. apply Some_eq in H. subst di. fields. repeat split.
    + destruct (foundCollectionOf dirents) as [c|]; cbn [negb].
      * intros H. apply Some_eq in H. subst di. fields. repeat split.
      * destruct (explore rec depth filename (whichDirectories dirents) [])
          as [children|]; [|discriminate].
        intros H. apply Some_eq in H. subst di. fields. repeat split. eauto.
  - intros H. apply Some_eq in H. subst di. fields. repeat split.
    exists []. split; [reflexivity|].
    destruct dirents; [|discriminate Hlen].
    unfold Explorer.whichDirectories. case FOLLOWDOT; reflexivity.
Qed.

Lemma processDirents_returns rec depth filename dirents :
  ((Z.of_nat depth < MAXDEPTH)%Z ->
   forall w, In w (whichDirectories dirents) ->
             exists res, rec (depth + 1) (join filename w) = Some res) ->
  exists di, processDirents rec depth filename dirents = Some di.
Proof.
  intros Hrec. unfold Explorer.processDirents.
  destruct (0 <? List.length dirents); [|eauto].
  match goal with
  | |- context [negb ?b] => destruct b
  end; cbn [negb]; [eauto|].
  destruct (explore_returns rec depth filename (whichDirectories dirents) [] Hrec)
    as [children ->].
  eauto.
Qed.

Lemma processFilename_unfold fuel depth filename :
  processFilename (S fuel) depth filename
  = match lstat filename with
    | inl s =>
        if Stats.isDirectory s then
          match Explorer.readdirAndStat lstat readdir join sortByName filename depth with
          | inl direntstats =>
              processDirents (processFilename fuel) depth filename direntstats
          | inr ex => Some (Explorer.leaf filename Error false (Some ex))
          end
        else if Stats.isFile s then Some (Explorer.leaf filename File true None)
        else if Stats.isSymbolicLink s
             then Some (Explorer.leaf filename SymbolicLink true None)
             else Some (Explorer.leaf filename Unknown false None)
    | inr ex => Some (Explorer.leaf filename Error false (Some ex))
    end.
Proof. reflexivity. Qed.

(** [processFilename] returns: the depth bounds the nesting of its
    calls, so that fuel above the remaining depth is enough. *)
Lemma processFilename_returns fuel depth filename :
  Z.to_nat (MAXDEPTH - Z.of_nat depth) < fuel ->
  exists di, processFilename fuel depth filename = Some di.
Proof.
  revert depth filename; induction fuel as [|fuel IH]; intros depth filename Hfuel.
  - lia.
  - rewrite processFilename_unfold.
    destruct (lstat filename) as [s|ex]; [|eauto].
    destruct (Stats.isDirectory s).
    + destruct (Explorer.readdirAndStat _ _ _ _ _ _) as [direntstats|ex]; [|eauto].
      apply processDirents_returns. intros Hd w _. apply IH. lia.
    + destruct (Stats.isFile s); [eauto|].
      destruct (Stats.isSymbolicLink s); eauto.
Qed.

(** More fuel does not change a result. *)
Lemma explore_fuel rec rec' depth filename which acc children :
  (forall d f di, rec d f = Some di -> rec' d f = Some di) ->
  explore rec depth filename which acc = Some children ->
  explore rec' depth filename which acc = Some children.
Proof.
  intros Hrec. revert acc; induction which as [|w ws IH]; intros acc; simpl; auto.
  destruct (Z.of_nat depth <? MAXDEPTH)%Z; [|apply IH].
  destruct (rec (depth + 1) (join filename w)) as [res|] eqn:Hres; [|discriminate].
  rewrite (Hrec _ _ _ Hres). apply IH.
Qed.

Lemma processDirents_fuel rec rec' depth filename dirents di :
  (forall d f di, rec d f = Some di -> rec' d f = Some di) ->
  processDirents rec depth filename dirents = Some di ->
  processDirents rec' depth filename dirents = Some di.
Proof.
  intros Hrec. unfold Explorer.processDirents.
  destruct (0 <? List.length dirents); [|auto].
  match goal with
  | |- context [negb ?b] => destruct b
  end; cbn [negb]; [auto|].
  destruct (explore rec depth filename (whichDirectories dirents) [])
    as [children|] eqn:Hex; [|discriminate].
  now rewrite (explore_fuel rec rec' _ _ _ _ _ Hrec Hex).
Qed.

Lemma processFilename_fuel fuel fuel' depth filename di :
  fuel <= fuel' ->
  processFilename fuel depth filename = Some di ->
  processFilename fuel' depth filename = Some di.
Proof.
  revert fuel' depth filename di.
  induction fuel as [|fuel IH]; intros fuel' depth filename di Hle.
  - discriminate.
  - destruct fuel' as [|fuel']; [lia|].
    rewrite !processFilename_unfold.
    destruct (lstat filename) as [s|ex]; [|auto].
    destruct (Stats.isDirectory s); [|auto].
    destruct (Explorer.readdirAndStat _ _ _ _ _ _) as [direntstats|ex]; [|auto].
    apply processDirents_fuel. intros d f di'. apply IH. lia.
Qed.

(** C4. A directory that is identified (a signature matched or a
    collection was found) has no child results, whatever it contains; an
    unidentified one at a depth that is the maximum or more has none
    either; an unidentified one at a depth below the maximum has exactly
    one child result for each candidate, in the order of the
    candidates: the normal directories, then the directories with an
    extension, then, when dot directories are followed, the dot
    directories and the UUID directories.  Each child result is what
    [processFilename] returns for the candidate one level down. *)
Theorem recursion_gating fuel depth filename dirents :
  Z.to_nat (MAXDEPTH - Z.of_nat depth) <= fuel ->
  exists di,
    processDirents (processFilename fuel) depth filename dirents = Some di
    /\ DirectoryInfo.identified di = identifiedOf dirents
    /\ (identifiedOf dirents = true ->
        DirectoryInfo.directoryInfos di = Some [])
    /\ (identifiedOf dirents = false -> (MAXDEPTH <= Z.of_nat depth)%Z ->
        DirectoryInfo.directoryInfos di = Some [])
    /\ (identifiedOf dirents = false -> (Z.of_nat depth < MAXDEPTH)%Z ->
        exists children,
          DirectoryInfo.directoryInfos di = Some children
          /\ List.length children = List.length (whichDirectories dirents)
          /\ Forall2 (fun w child =>
                        processFilename fuel (depth + 1) (join filename w)
                        = Some child)
                     (whichDirectories dirents) children)
    /\ whichDirectories dirents
       = Buckets.normalDirectories dirents
           ++ Buckets.directoriesWithExtensions dirents
           ++ (if FOLLOWDOT
               then Buckets.dotDirectories dirents ++ Buckets.UUIDDirectories dirents
               else []).
Proof.
  intros Hfuel.
  destruct (processDirents_returns (processFilename fuel) depth filename dirents)
    as [di Hdi].
  { intros Hd w _. apply processFilename_returns. lia. }
  exists di. split; [exact Hdi|].
  destruct (processDirents_result _ _ _ _ _ Hdi)
    as (_ & _ & Hid & _ & _ & _ & _ & Hch).
  split; [exact Hid|].
  destruct (identifiedOf dirents).
  - repeat split; try discriminate; auto.
  - destruct Hch as (children & Hc & Hex).
    split; [discriminate|].
    split.
    { intros _ Hd. rewrite explore_too_deep in Hex by exact Hd.
      apply Some_eq in Hex. now subst children. }
    split; [|reflexivity].
    intros _ Hd. exists children. split; [exact Hc|].
    apply explore_calls in Hex; [|exact Hd].
    destruct Hex as (results & -> & HF). simpl.
    split; [symmetry; exact (Forall2_length HF) | exact HF].
Qed.

End ExplorerFacts.

(** A Rust project is identified and is not looked into, though it
    holds the directory [src], whatever the depth allowed. *)
Example rust_project_not_explored :
  forall MAXDEPTH VERBOSE FOLLOWDOT join countObToString processFilename depth,
    Explorer.processDirents MAXDEPTH VERBOSE FOLLOWDOT join countObToString
                            processFilename depth "proj"
                            [a_file "Cargo.lock"; a_file "Cargo.toml";
                             a_directory "src"]
    = Some (DirectoryInfo.mk "proj" Directory true None (Some []) (Some [])
                             (Some ["Rust project"]) None None (Some [])).
Proof. intros. rewrite processDirents_eq. reflexivity. Qed.

Lemma Sample_root_dirents :
  Explorer.readdirAndStat Sample.lstat Sample.readdir Sample.join
                          Sample.sortByName "root" 0
  = inl Sample.root_dirents.
Proof. reflexivity. Qed.

(** The theorem at work: [root] of the sample file system, one level of
    depth allowed. *)
Lemma recursion_gating_witness :
  Z.to_nat (1 - Z.of_nat 0) <= 1
  /\ exists di,
      Explorer.processDirents
        1 false false Sample.join Sample.countObToString
        (Explorer.processFilename 1 false false Sample.lstat Sample.readdir
                                  Sample.join Sample.sortByName
                                  Sample.countObToString 1)
        0 "root" Sample.root_dirents = Some di
      /\ DirectoryInfo.identified di = false
      /\ exists children,
          DirectoryInfo.directoryInfos di = Some children
          /\ List.length children = 2.
Proof.
  assert (Hfuel : Z.to_nat (1 - Z.of_nat 0) <= 1) by (vm_compute; lia).
  split; [exact Hfuel|].
  destruct (recursion_gating 1 false false Sample.lstat Sample.readdir
                             Sample.join Sample.sortByName Sample.countObToString
                             1 0 "root" Sample.root_dirents Hfuel)
    as (di & Hdi & Hid & _ & _ & Hchildren & _).
  exists di. split; [exact Hdi|].
  split; [rewrite Hid; vm_compute; reflexivity|].
  destruct Hchildren as (children & Hc & Hlen & _);
    [vm_compute; reflexivity | vm_compute; reflexivity |].
  exists children. split; [exact Hc|].
  rewrite Hlen. vm_compute. reflexivity.
Defined.

(* ================================================================== *)
(** * Properties of the additional notes *)
(* ================================================================== *)

Lemma includes_one strings n :
  includes strings [n] = true <-> In n strings.
Proof.
  rewrite includes_true. split.
  - intros (s & r & [= <- <-] & H). exact H.
  - intros H. exists n, []. auto.
Qed.

Lemma includes_one_false strings n :
  includes strings [n] = false <-> ~ In n strings.
Proof.
  rewrite <- includes_one. destruct (includes strings [n]); split; intros H;
    try discriminate; try reflexivity; try (intros E; discriminate E).
  exfalso. now apply H.
Qed.

(** The notes, case by case. *)
Lemma checkAdditionalNotes_cases dotDirectories normalFiles dotFiles :
  checkAdditionalNotes dotDirectories normalFiles dotFiles
  = (if includes dotDirectories [".git"]
     then if includes dotDirectories [".github"]
          then [GitHubRepository] else [GitRepository]
     else [])
      ++ (if includes normalFiles [Icon_cr] || includes dotFiles [".DS_Store"]
          then [MacFinderFiles] else []).
Proof.
  unfold checkAdditionalNotes.
  destruct (includes dotDirectories [".git"]);
    [destruct (includes dotDirectories [".github"])|];
    destruct (includes normalFiles [Icon_cr] || includes dotFiles [".DS_Store"]);
    reflexivity.
Qed.

Ltac notes_cases dotDirectories normalFiles dotFiles :=
  rewrite checkAdditionalNotes_cases;
  pose proof (includes_one dotDirectories ".git");
  pose proof (includes_one dotDirectories ".github");
  pose proof (includes_one normalFiles Icon_cr);
  pose proof (includes_one dotFiles ".DS_Store");
  destruct (includes dotDirectories [".git"]);
  destruct (includes dotDirectories [".github"]);
  destruct (includes normalFiles [Icon_cr]);
  destruct (includes dotFiles [".DS_Store"]);
  cbn [app In orb].

Lemma notes_GitRepository dotDirectories normalFiles dotFiles :
  In GitRepository (checkAdditionalNotes dotDirectories normalFiles dotFiles)
  <-> In ".git" dotDirectories /\ ~ In ".github" dotDirectories.
Proof.
  notes_cases dotDirectories normalFiles dotFiles;
    intuition (try discriminate; try congruence).
Qed.

Lemma notes_GitHubRepository dotDirectories normalFiles dotFiles :
  In GitHubRepository (checkAdditionalNotes dotDirectories normalFiles dotFiles)
  <-> In ".git" dotDirectories /\ In ".github" dotDirectories.
Proof.
  notes_cases dotDirectories normalFiles dotFiles;
    intuition (try discriminate; try congruence).
Qed.

Lemma notes_MacFinderFiles dotDirectories normalFiles dotFiles :
  In MacFinderFiles (checkAdditionalNotes dotDirectories normalFiles dotFiles)
  <-> In Icon_cr normalFiles \/ In ".DS_Store" dotFiles.
Proof.
  notes_cases dotDirectories normalFiles dotFiles;
    intuition (try discriminate; try congruence).
Qed.

Lemma notes_NoDup dotDirectories normalFiles dotFiles :
  NoDup (checkAdditionalNotes dotDirectories normalFiles dotFiles).
Proof.
  notes_cases dotDirectories normalFiles dotFiles;
    repeat constructor; cbn [In]; intuition discriminate.
Qed.

(** [identified] says that a signature matched or a collection was
    found, in a listing that is not empty. *)
Lemma identifiedOf_true dirents :
  identifiedOf dirents = true
  <-> dirents <> []
      /\ (answersOf dirents <> [] \/ foundCollectionOf dirents <> None).
Proof.
  unfold identifiedOf.
  destruct dirents as [|d0 ds].
  - cbn [List.length Nat.ltb Nat.leb andb]. split; [discriminate|].
    intros [H _]. now elim H.
  - change (0 <? List.length (d0 :: ds)) with true. cbn [andb].
    destruct (answersOf (d0 :: ds)) as [|a0 rest].
    + change (0 <? List.length (@nil string)) with false. cbn [orb].
      destruct (foundCollectionOf (d0 :: ds)); split.
      * intros _. split; [discriminate | right; discriminate].
      * reflexivity.
      * discriminate.
      * intros [_ [H|H]]; now elim H.
    + change (0 <? List.length (a0 :: rest)) with true. cbn [orb]. split.
      * intros _. split; [discriminate | left; discriminate].
      * reflexivity.
Qed.

(* ================================================================== *)
(** * The diagnostic of the renderer *)
(* ================================================================== *)

Lemma collated_all_app l1 l2 :
  fold_right (fun child rest => collated child /\ rest) True (l1 ++ l2)
  <-> fold_right (fun child rest => collated child /\ rest) True l1
      /\ fold_right (fun child rest => collated child /\ rest) True l2.
Proof. induction l1 as [|x l1 IH]; simpl; tauto. Qed.

Section Diagnostic.
Variable MAXDEPTH : Z.
Variables VERBOSE FOLLOWDOT : bool.
Variable lstat : string -> throws Stats.t.
Variable readdir : string -> throws (list Dirent.t).
Variable join : string -> string -> string.
Variable sortByName : list Dirent.t -> list Dirent.t.
Variable countObToString : extensionObject -> string.

Lemma explore_collated rec depth filename which acc children :
  (forall d f di, rec d f = Some di -> collated di) ->
  fold_right (fun child rest => collated child /\ rest) True acc ->
  Explorer.explore MAXDEPTH join rec depth filename which acc = Some children ->
  fold_right (fun child rest => collated child /\ rest) True children.
Proof.
  intros Hrec. revert acc; induction which as [|w ws IH]; intros acc Hacc; simpl.
  - intros H. apply Some_eq in H. now subst.
  - destruct (Z.of_nat depth <? MAXDEPTH)%Z; [|now apply IH].
    destruct (rec (depth + 1) (join filename w)) as [res|] eqn:Hres; [|discriminate].
    apply IH. apply collated_all_app. simpl. split; [exact Hacc|].
    split; [|exact I]. exact (Hrec _ _ _ Hres).
Qed.

Lemma processDirents_collated rec depth filename dirents di :
  (forall d f di, rec d f = Some di -> collated di) ->
  Explorer.processDirents MAXDEPTH VERBOSE FOLLOWDOT join countObToString
                          rec depth filename dirents = Some di ->
  collated di.
Proof.
  intros Hrec. rewrite processDirents_eq, shouldBeEmpty_nil.
  destruct (0 <? List.length dirents).
  - match goal with
    | |- context [negb ?b] => destruct b
    end; cbn [negb].
    + intros H. apply Some_eq in H. subst di. simpl. auto.
    + destruct (Explorer.explore _ _ _ _ _ _ _) as [children|] eqn:Hex;
        [|discriminate].
      intros H. apply Some_eq in H. subst di. simpl. split; [auto|].
      apply (explore_collated rec depth filename _ [] children Hrec I Hex).
  - intros H. apply Some_eq in H. subst di. simpl. auto.
Qed.

(** Every result of [processFilename] is such a tree. *)
Lemma processFilename_collated fuel depth filename di :
  Explorer.processFilename MAXDEPTH VERBOSE FOLLOWDOT lstat readdir join
                           sortByName countObToString fuel depth filename
  = Some di ->
  collated di.
Proof.
  revert depth filename di; induction fuel as [|fuel IH]; intros depth filename di.
  - discriminate.
  - rewrite processFilename_unfold.
    destruct (lstat filename) as [s|ex].
    + destruct (Stats.isDirectory s).
      * destruct (Explorer.readdirAndStat _ _ _ _ _ _) as [direntstats|ex].
        -- apply processDirents_collated. exact IH.
        -- intros H. apply Some_eq in H. subst di. simpl. split; [discriminate|auto].
      * destruct (Stats.isFile s); [|destruct (Stats.isSymbolicLink s)];
          intros H; apply Some_eq in H; subst di; simpl;
          (split; [discriminate|auto]).
    + intros H. apply Some_eq in H. subst di. simpl. split; [discriminate|auto].
Qed.

End Diagnostic.

(** On such a tree the renderer prints lines only: the diagnostic for
    entries in no category does not come. *)
Lemma printResult_lines :
  forall di, collated di ->
  forall depth out, In out (Render.printResult depth di) ->
                    exists text, out = Render.Line text.
Proof.
  fix IH 1. intros di.
  destruct di as [name kind identified error additionalInfo
                  identificationFailures answers collections verboseSummary
                  directoryInfos].
  intros [Hfail Hchildren] depth out Hin.
  cbn [Render.printResult] in Hin.
  destruct Hin as [<-|Hin]; [unfold Render.printEntry, Render.printText; eauto|].
  destruct kind.
  - destruct Hin as [<-|[<-|[]]];
      unfold Render.printEntry, Render.printAnswer, Render.printText; eauto.
  - destruct error as [err|].
    + destruct (Render.is_ENOENT (code err)); destruct Hin as [<-|[]];
        unfold Render.printError, Render.printText; eauto.
    + destruct Hin as [<-|[]]; unfold Render.printError, Render.printText; eauto.
  - destruct Hin as [<-|[]]; unfold Render.printAnswer, Render.printText; eauto.
  - rewrite (Hfail eq_refl) in Hin.
    apply in_app_or in Hin. destruct Hin as [[<-|[]]|Hin];
      [unfold Render.printText; eauto|].
    apply in_app_or in Hin. destruct Hin as [Hin|[<-|[]]];
      [|unfold Render.printText; eauto].
    destruct directoryInfos as [[|child children]|];
      try (destruct Hin as [<-|[]];
           unfold Render.printAnswer, Render.printText; eauto).
    cbn [app] in Hin.
    apply in_app_or in Hin. destruct Hin as [Hin|Hin].
    { destruct answers as [a|]; [|destruct Hin].
      apply in_map_iff in Hin. destruct Hin as (ans & <- & _).
      unfold Render.printAnswer, Render.printText; eauto. }
    apply in_app_or in Hin. destruct Hin as [Hin|Hin].
    { destruct collections as [c|]; [|destruct Hin].
      destruct Hin as [<-|[]]. unfold Render.printAnswer, Render.printText; eauto. }
    apply in_app_or in Hin. destruct Hin as [Hin|Hin].
    { destruct identified; [destruct Hin|].
      destruct Hin as [<-|[]]. unfold Render.printAnswer, Render.printText; eauto. }
    cbn [fold_right] in Hchildren. destruct Hchildren as [Hchild Hrest].
    apply in_app_or in Hin. destruct Hin as [Hin|Hin].
    { exact (IH child Hchild _ _ Hin). }
    clear Hchild. revert Hrest Hin.
    induction children as [|c cs IHcs]; intros Hrest Hin; [destruct Hin|].
    cbn [flat_map] in Hin. cbn [fold_right] in Hrest.
    destruct Hrest as [Hc Hcs].
    apply in_app_or in Hin. destruct Hin as [Hin|Hin].
    + exact (IH c Hc _ _ Hin).
    + exact (IHcs Hcs Hin).
  - destruct Hin as [<-|[<-|[]]];
      unfold Render.printEntry, Render.printAnswer, Render.printText; eauto.
Qed.

(** Whatever the file system holds, rendering a result of
    [processFilename] never prints the diagnostic. *)
Lemma diagnostic_unreachable
      MAXDEPTH VERBOSE FOLLOWDOT lstat readdir join sortByName countObToString
      fuel depth filename di failures indent :
  Explorer.processFilename MAXDEPTH VERBOSE FOLLOWDOT lstat readdir join
                           sortByName countObToString fuel depth filename
  = Some di ->
  ~ In (Render.NotCollated failures) (Render.printResults [di] indent).
Proof.
  intros Hdi Hin. apply processFilename_collated in Hdi.
  unfold Render.printResults in Hin. cbn [flat_map] in Hin.
  rewrite app_nil_r in Hin.
  destruct (printResult_lines di Hdi _ _ Hin) as [text E]. discriminate E.
Qed.

(* ================================================================== *)
(** * The empty directory *)
(* ================================================================== *)

(** C6. On a listing without entries, [processDirents] returns a result
    that is not identified and has no answers at all; what it does keep
    is that nothing is explored: [processFilename] is not called and
    there are no child results.  The answer ["empty"] is what the
    renderer prints for a directory without child results.  The older
    [src/dirsniff.ts] does what the claim says: it prints ["empty"] and
    sets [identified] to true. *)
Theorem empty_directory_unidentified
        MAXDEPTH VERBOSE FOLLOWDOT join countObToString
        (processFilename : nat -> string -> option DirectoryInfo.t)
        (legacyProcessFilename : nat -> string -> option (list Render.output))
        (depth : nat) (filename : string) :
  Explorer.processDirents MAXDEPTH VERBOSE FOLLOWDOT join countObToString
                          processFilename depth filename []
  = Some (DirectoryInfo.mk filename Directory false None None (Some [])
                           None None None (Some []))
  /\ Render.printResult depth
       (DirectoryInfo.mk filename Directory false None None (Some [])
                         None None None (Some []))
     = [ Render.printEntry depth filename
       ; Render.printText depth "{"
       ; Render.printAnswer depth "empty"
       ; Render.printText depth "}" ]
  /\ Legacy.processDirents MAXDEPTH VERBOSE FOLLOWDOT join countObToString
                           legacyProcessFilename depth filename []
     = Some ([ Render.printEntry depth filename
             ; Render.printAnswer depth "empty" ], true).
Proof. repeat split. Qed.

(** The older file has the same table but for the two macOS rows, and
    its ninth array is empty as well. *)
Lemma Legacy_table_names :
  map AutoIdentify.name Legacy.table
  = [ "Android Studio or IntelliJ IDEA project"; "Clojure project";
      "Crystal project"; "D (DUB) project"; "Dart package"; "Deno folder";
      "Eclipse workspace"; "Flutter project"; "Ghidra project";
      "Git repository .git directory"; "Go module"; "Gradle project";
      "Hack project"; "Julia package"; "Nim package"; "Perl CPAN module";
      "Python package"; "Racket package"; "React Native project";
      "Retro Virtual Machine"; "Rust project"; "Scala project";
      "Typescript project"; "Visual Studio project"; "Xcode project";
      "Zig project" ].
Proof. reflexivity. Qed.

Lemma Legacy_tests_exhaustive (d : DirentStat.t) :
  some_index Legacy.tests d 0 (List.length Legacy.tests) < 8.
Proof.
  destruct d as [f dr sl n sz [e|]]; simpl; [lia|].
  destruct f, dr; simpl;
    repeat match goal with
           | |- context [if ?b then _ else _] => destruct b
           end; lia.
Qed.

Lemma Legacy_shouldBeEmpty_nil (dirents : list DirentStat.t) :
  Legacy.bucket 8 dirents = [].
Proof.
  unfold Legacy.bucket.
  change (@nil string) with (map DirentStat.name []) at 1.
  rewrite map_nth, collate_nth.
  induction dirents as [|d dirents IH]; [reflexivity|].
  cbn [filter]. pose proof (Legacy_tests_exhaustive d) as Hd.
  destruct (Nat.eqb_spec (some_index Legacy.tests d 0 (List.length Legacy.tests)) 8)
    as [E|_].
  - rewrite E in Hd. lia.
  - exact IH.
Qed.

(** The renderer prints ["empty"] for an identified directory too, in
    place of its answers: the result for a Rust project. *)
Example printResult_identified_directory :
  Render.printResult 0
    (DirectoryInfo.mk "proj" Directory true None (Some []) (Some [])
                      (Some ["Rust project"]) None None (Some []))
  = [ Render.Line "<proj>"; Render.Line "{"; Render.Line "=> empty"; Render.Line "}" ].
Proof. reflexivity. Qed.

(* ================================================================== *)
(** * The shape of an extension *)
(* ================================================================== *)

Lemma substring_at (s : string) (k m : nat) (c : ascii) :
  nth_error (list_ascii_of_string s) k = Some c ->
  exists rest, substring k (S m) s = String c rest.
Proof.
  revert k; induction s as [|a s IH]; intros k H.
  - destruct k; discriminate H.
  - destruct k as [|k]; simpl in *.
    + inversion H; subst. eauto.
    + now apply IH.
Qed.

Section Extname.
Variable chars : list ascii.

Abbreviation sound := (sound_scan chars).

Lemma extname_loop_sound rev_path suffix st :
  chars = rev rev_path ++ suffix ->
  (Path.end_ st = (-1)%Z \/ (Z.of_nat (List.length rev_path) - 1 < Path.end_ st)%Z) ->
  sound st ->
  sound (Path.extname_loop rev_path (Z.of_nat (List.length rev_path) - 1) st).
Proof.
  revert suffix st; induction rev_path as [|a l IH]; intros suffix st Hc He Hs.
  - exact Hs.
  - cbn [Path.extname_loop].
    replace (Z.of_nat (List.length (a :: l)) - 1 - 1)%Z
      with (Z.of_nat (List.length l) - 1)%Z by (cbn [List.length]; lia).
    replace (Z.of_nat (List.length (a :: l)) - 1)%Z
      with (Z.of_nat (List.length l)) in * by (cbn [List.length]; lia).
    assert (Ha : nth_error chars (List.length l) = Some a).
    { rewrite Hc. cbn [rev]. rewrite <- app_assoc.
      rewrite nth_error_app2 by (rewrite length_rev; lia).
      rewrite length_rev, Nat.sub_diag. reflexivity. }
    assert (Hc' : chars = rev l ++ a :: suffix).
    { rewrite Hc. cbn [rev]. now rewrite <- app_assoc. }
    destruct st as [sd sp en ms pd]. unfold sound_scan in Hs |- *.
    cbn [Path.startDot Path.end_ Path.preDotState Path.matchedSlash
         Path.startPart] in *.
    destruct (Ascii.eqb_spec a "/") as [Eslash|Hslash].
    + destruct (negb ms).
      * cbn [Path.startDot Path.end_]. exact Hs.
      * apply (IH (a :: suffix)); [exact Hc' | | exact Hs].
        cbn [Path.end_]. destruct He; [left|right]; lia.
    + destruct (Z.eqb_spec en (-1)) as [Een|Een];
        cbn [Path.startDot Path.end_ Path.preDotState Path.matchedSlash
             Path.startPart];
        destruct (Ascii.eqb_spec a ".") as [Edot|Hdot];
        destruct (Z.eqb_spec sd (-1)) as [Esd|Esd];
        cbn [negb Path.startDot Path.end_ Path.preDotState Path.matchedSlash
             Path.startPart];
        try destruct (negb (pd =? 1)%Z);
        apply (IH (a :: suffix)); try exact Hc';
        unfold sound_scan; cbn [Path.startDot Path.end_];
        try (right; lia);
        try (left; assumption);
        try (right; repeat split;
             [lia | rewrite Nat2Z.id; congruence | lia]);
        try (destruct Hs as [Hs|(H0 & Hn & Hlt)];
             [contradiction | right; repeat split; auto; lia]).
Qed.

(** [extname] answers the empty string or a string that starts with a
    dot: never the name of a property that every object has. *)
Lemma extname_sound_scan path :
  chars = list_ascii_of_string path ->
  sound (Path.extname_loop (rev chars) (Z.of_nat (String.length path) - 1)
                           Path.scan0).
Proof.
  intros Hc.
  assert (Hlen : String.length path = List.length (rev chars)).
  { rewrite length_rev, Hc. clear.
    induction path; simpl; congruence. }
  rewrite Hlen. apply (extname_loop_sound (rev chars) []).
  - now rewrite rev_involutive, app_nil_r.
  - left. reflexivity.
  - left. reflexivity.
Qed.

End Extname.

Lemma extname_shape path :
  Path.extname path = "" \/ exists rest, Path.extname path = String "." rest.
Proof.
  unfold Path.extname.
  pose proof (extname_sound_scan (list_ascii_of_string path) path eq_refl) as Hs.
  destruct (Path.extname_loop _ _ _) as [sd sp en ms pd].
  unfold sound_scan in Hs.
  cbn [Path.startDot Path.end_ Path.preDotState Path.startPart] in *.
  destruct (Z.eqb_spec sd (-1)) as [Esd|Esd]; [left; reflexivity|].
  cbn [orb].
  match goal with
  | |- context [if ?b then _ else _] => destruct b
  end; [left; reflexivity|].
  right. destruct Hs as [Hs|(H0 & Hn & Hlt)]; [contradiction|].
  replace (Z.to_nat (en - sd)) with (S (Z.to_nat (en - sd - 1))) by lia.
  exact (substring_at path _ _ _ Hn).
Qed.

(* ================================================================== *)
(** * Properties of the extension tabulator *)
(* ================================================================== *)

Lemma lookup_assign obj k v k' :
  lookup (assign obj k v) k' = if String.eqb k k' then Some v else lookup obj k'.
Proof.
  induction obj as [|[k0 v0] rest IH]; simpl.
  - reflexivity.
  - destruct (String.eqb_spec k0 k) as [->|Hne]; simpl.
    + destruct (String.eqb_spec k k'); reflexivity.
    + destruct (String.eqb_spec k0 k') as [->|Hne'].
      * destruct (String.eqb_spec k k'); [congruence | reflexivity].
      * exact IH.
Qed.

Lemma lookup_None obj k : lookup obj k = None <-> ~ In k (keys obj).
Proof.
  induction obj as [|[k0 v0] rest IH]; simpl.
  - tauto.
  - destruct (String.eqb_spec k0 k) as [->|Hne].
    + split; [discriminate | intros H; elim H; now left].
    + rewrite IH. tauto.
Qed.

Lemma keys_assign obj k v :
  keys (assign obj k v)
  = match lookup obj k with
    | Some _ => keys obj
    | None => keys obj ++ [k]
    end.
Proof.
  induction obj as [|[k0 v0] rest IH]; simpl.
  - reflexivity.
  - destruct (String.eqb_spec k0 k) as [->|Hne]; simpl.
    + reflexivity.
    + rewrite IH. destruct (lookup rest k); reflexivity.
Qed.

Lemma count_step_eq foldcase obj str :
  count_step foldcase obj str
  = assign obj (if foldcase then JS.toLowerCase str else str)
           (match lookup obj (if foldcase then JS.toLowerCase str else str) with
            | Some n => n + 1
            | None => 1
            end).
Proof. reflexivity. Qed.

Lemma count_loop_keys_In foldcase array obj k :
  In k (keys (fold_left (count_step foldcase) array obj))
  <-> In k (keys obj)
      \/ In k (map (fun str => if foldcase then JS.toLowerCase str else str) array).
Proof.
  revert obj; induction array as [|x array IH]; intros obj; simpl.
  - tauto.
  - rewrite IH, count_step_eq, keys_assign.
    set (lcs := if foldcase then JS.toLowerCase x else x).
    destruct (lookup obj lcs) eqn:E.
    + assert (In lcs (keys obj)).
      { destruct (in_dec string_dec lcs (keys obj)); [assumption|].
        apply lookup_None in n0. congruence. }
      split; [tauto|]. intros [H1|[<-|H1]]; tauto.
    + rewrite in_app_iff. simpl. tauto.
Qed.

Lemma count_loop_keys_NoDup foldcase array obj :
  NoDup (keys obj) -> NoDup (keys (fold_left (count_step foldcase) array obj)).
Proof.
  revert obj; induction array as [|x array IH]; intros obj Hnd; simpl; auto.
  apply IH. rewrite count_step_eq, keys_assign.
  set (lcs := if foldcase then JS.toLowerCase x else x).
  destruct (lookup obj lcs) eqn:E; [assumption|].
  apply lookup_None in E.
  apply NoDup_app; auto.
  - repeat constructor. simpl. tauto.
  - intros y Hy [<-|[]]. contradiction.
Qed.

Lemma countArrayFieldsToObject_loop array foldcase :
  countArrayFieldsToObject array foldcase
  = fold_left (count_step foldcase) array [].
Proof. reflexivity. Qed.

(** The keys of the table are the extensions that occur, each once. *)
Lemma count_keys_In array foldcase k :
  In k (keys (countArrayFieldsToObject array foldcase))
  <-> In k (map (fun str => if foldcase then JS.toLowerCase str else str) array).
Proof.
  rewrite countArrayFieldsToObject_loop, count_loop_keys_In. simpl. tauto.
Qed.

Lemma count_keys_NoDup array foldcase :
  NoDup (keys (countArrayFieldsToObject array foldcase)).
Proof.
  rewrite countArrayFieldsToObject_loop. apply count_loop_keys_NoDup. constructor.
Qed.

(** An array whose strings all fold to [ext] gives one key with the
    length of the array as its count. *)
Lemma count_loop_single array ext n :
  (forall x, In x array -> JS.toLowerCase x = ext) ->
  fold_left (count_step true) array [(ext, n)] = [(ext, n + List.length array)].
Proof.
  revert n; induction array as [|x array IH]; intros n Hall; simpl.
  - now rewrite Nat.add_0_r.
  - rewrite count_step_eq, (Hall x (or_introl eq_refl)).
    cbn [lookup assign]. rewrite String.eqb_refl.
    rewrite IH by (intros y Hy; apply Hall; now right).
    f_equal. f_equal. lia.
Qed.

Lemma count_single array ext :
  array <> [] ->
  (forall x, In x array -> JS.toLowerCase x = ext) ->
  countArrayFieldsToObject array true = [(ext, List.length array)].
Proof.
  intros Hne Hall. destruct array as [|x array]; [now elim Hne|].
  rewrite countArrayFieldsToObject_loop. cbn [fold_left].
  rewrite count_step_eq, (Hall x (or_introl eq_refl)). cbn [lookup assign].
  rewrite count_loop_single by (intros y Hy; apply Hall; now right).
  reflexivity.
Qed.

(** One key means that all the strings fold to it. *)
Lemma count_one_key array ext :
  keys (countArrayFieldsToObject array true) = [ext] ->
  array <> [] /\ forall x, In x array -> JS.toLowerCase x = ext.
Proof.
  intros Hk. split.
  - intros ->. discriminate Hk.
  - intros x Hx.
    assert (H : In (JS.toLowerCase x) (keys (countArrayFieldsToObject array true))).
    { apply count_keys_In. now apply (in_map JS.toLowerCase). }
    rewrite Hk in H. destruct H as [<-|[]]. reflexivity.
Qed.

(** The keys of the table of file extensions are empty or start with a
    dot: none is the name of a property that every object has, and none
    is an array index. *)
Lemma fileExtensions_shape dirents k :
  In k (keys (countArrayFieldsToObject (Buckets.fileExtensions dirents) true)) ->
  k = "" \/ exists rest, k = String "." rest.
Proof.
  intros Hk. apply count_keys_In in Hk. apply in_map_iff in Hk.
  destruct Hk as (x & <- & Hx).
  unfold Buckets.fileExtensions in Hx. apply in_map_iff in Hx.
  destruct Hx as (n & <- & _).
  destruct (extname_shape n) as [->|[rest ->]]; [left; reflexivity|].
  right. exists (JS.toLowerCase rest). reflexivity.
Qed.

(* ================================================================== *)
(** * Properties of the collection heuristic *)
(* ================================================================== *)

(** The text of a report. *)
Lemma checkForCollections_one_key ext n fileExtensions :
  Collections.checkForCollections [(ext, n)] fileExtensions
  = if 1 <? n
    then Some ("a collection of " ++ JS.nat_to_string n ++ " " ++ ext ++ " files")%string
    else None.
Proof.
  unfold Collections.checkForCollections. cbn [keys map fst List.length Nat.eqb nth].
  cbn [lookup]. now rewrite String.eqb_refl.
Qed.

Lemma checkForCollections_no_key fileExtensions :
  Collections.checkForCollections [] fileExtensions = None.
Proof. reflexivity. Qed.

Lemma checkForCollections_more_keys fileextObj fileExtensions :
  2 <= List.length (keys fileextObj) ->
  Collections.checkForCollections fileextObj fileExtensions
  = Collections.some_class Collections.extensions (keys fileextObj) fileExtensions.
Proof.
  intros Hlen. unfold Collections.checkForCollections.
  destruct (Nat.eqb_spec (List.length (keys fileextObj)) 1); [lia|].
  destruct (Nat.ltb_spec 0 (List.length (keys fileextObj))); [reflexivity | lia].
Qed.

(** The first class, in the order of the list, that covers the
    extensions sets the result. *)
Lemma some_class_first before e after distinct fileExtensions :
  Collections.covers e distinct = true ->
  (forall c, In c before -> Collections.covers c distinct = false) ->
  Collections.some_class (before ++ e :: after) distinct fileExtensions
  = Some ("a collection of " ++ JS.nat_to_string (List.length fileExtensions)
            ++ " " ++ Collections.name e ++ " files")%string.
Proof.
  intros He. induction before as [|c before IH]; intros Hb; simpl.
  - now rewrite He.
  - rewrite (Hb c (or_introl eq_refl)). apply IH.
    intros c' Hc'. apply Hb. now right.
Qed.

Lemma some_class_none classes distinct fileExtensions :
  (forall c, In c classes -> Collections.covers c distinct = false) ->
  Collections.some_class classes distinct fileExtensions = None.
Proof.
  induction classes as [|c classes IH]; intros Hc; simpl; auto.
  rewrite (Hc c (or_introl eq_refl)). apply IH.
  intros c' Hc'. apply Hc. now right.
Qed.

(** A class covers the table when it holds the folded extension of
    every file. *)
Lemma covers_iff e fileExtensions :
  Collections.covers e (keys (countArrayFieldsToObject fileExtensions true)) = true
  <-> forall x, In x fileExtensions -> In (JS.toLowerCase x) (Collections.exts e).
Proof.
  unfold Collections.covers. rewrite forallb_forall. split.
  - intros H x Hx. apply existsb_eqb_In, H, count_keys_In.
    now apply (in_map JS.toLowerCase).
  - intros H v Hv. apply existsb_eqb_In.
    apply count_keys_In in Hv. apply in_map_iff in Hv.
    destruct Hv as (x & <- & Hx). auto.
Qed.

(** C5. When the extensions of the files all fold to one extension, the
    table has that one key, counted as often as there are extensions;
    with two files or more the heuristic reports
    ["a collection of N <ext> files"], N being that count and <ext> the
    folded extension, and with one file it reports nothing.  So it is
    for every listing with these extensions. *)
Theorem single_extension_collection (fileExtensions : list string) (ext : string) :
  fileExtensions <> [] ->
  (forall x, In x fileExtensions -> JS.toLowerCase x = ext) ->
  let fileextObj := countArrayFieldsToObject fileExtensions true in
  let N := List.length fileExtensions in
  keys fileextObj = [ext]
  /\ lookup fileextObj ext = Some N
  /\ (1 < N ->
      Collections.checkForCollections fileextObj fileExtensions
      = Some ("a collection of " ++ JS.nat_to_string N ++ " " ++ ext ++ " files")%string)
  /\ (N = 1 -> Collections.checkForCollections fileextObj fileExtensions = None)
  /\ (forall dirents,
         Buckets.fileExtensions dirents = fileExtensions ->
         foundCollectionOf dirents
         = if 1 <? N
           then Some ("a collection of " ++ JS.nat_to_string N
                        ++ " " ++ ext ++ " files")%string
           else None).
Proof.
  intros Hne Hall fileextObj N. subst fileextObj N.
  rewrite (count_single fileExtensions ext Hne Hall).
  split; [reflexivity|].
  split; [cbn [lookup]; now rewrite String.eqb_refl|].
  rewrite checkForCollections_one_key.
  split.
  { intros HN. destruct (Nat.ltb_spec 1 (List.length fileExtensions)); [reflexivity|lia]. }
  split.
  { intros ->. reflexivity. }
  intros dirents Hd. unfold foundCollectionOf. rewrite Hd.
  rewrite (count_single fileExtensions ext Hne Hall).
  apply checkForCollections_one_key.
Qed.

(** The theorem on the extensions of [a.txt] and [b.TXT]. *)
Lemma single_extension_collection_witness :
  Collections.checkForCollections
    (countArrayFieldsToObject [".txt"; ".TXT"] true) [".txt"; ".TXT"]
  = Some "a collection of 2 .txt files".
Proof.
  refine (proj1 (proj2 (proj2
            (single_extension_collection [".txt"; ".TXT"] ".txt" _ _))) _).
  - discriminate.
  - intros x [<-|[<-|[]]]; reflexivity.
  - simpl. lia.
Defined.

(** A listing with a single extension among its files is not reported
    as a collection. *)
Lemma one_extension_bearing_file dirents :
  List.length (Buckets.fileExtensions dirents) = 1 ->
  foundCollectionOf dirents = None.
Proof.
  intros Hlen. unfold foundCollectionOf.
  destruct (Buckets.fileExtensions dirents) as [|x [|y rest]];
    try discriminate Hlen.
  rewrite (count_single [x] (JS.toLowerCase x)).
  - apply checkForCollections_one_key.
  - discriminate.
  - intros y [<-|[]]. reflexivity.
Qed.

Lemma no_signature_matches_nothing : answersOf [] = [].
Proof. reflexivity. Qed.

(** The directory with exactly [a.txt] and [b.txt], and the directory
    with only [readme.txt]. *)
Example txt_directories :
  forall MAXDEPTH VERBOSE FOLLOWDOT join countObToString processFilename depth,
    Explorer.processDirents MAXDEPTH VERBOSE FOLLOWDOT join countObToString
                            processFilename depth "docs"
                            [a_file "a.txt"; a_file "b.txt"]
    = Some (DirectoryInfo.mk "docs" Directory true None (Some []) (Some [])
                             None (Some "a collection of 2 .txt files")
                             None (Some []))
    /\ Explorer.processDirents MAXDEPTH VERBOSE FOLLOWDOT join countObToString
                               processFilename depth "docs" [a_file "readme.txt"]
       = Some (DirectoryInfo.mk "docs" Directory false None (Some []) (Some [])
                                None None
                                (if VERBOSE
                                 then Some (Explorer.verboseSummary
                                              countObToString depth
                                              (collectionsOf [a_file "readme.txt"]))
                                 else None)
                                (Some [])).
Proof.
  intros maxdepth verbose followdot join countObToString processFilename depth.
  rewrite !processDirents_eq. split.
  - reflexivity.
  - unfold Explorer.whichDirectories. destruct followdot; reflexivity.
Qed.

(** C3, as amended.  With no signature matched and two distinct
    (folded) extensions or more, the classes are tried in their order
    and the first one that holds the folded extension of every file
    with an extension sets the report
    ["a collection of N <class> files"], N being the number of normal
    files whose name has a dot; without such a class nothing is
    reported. *)
Theorem class_collection (dirents : list DirentStat.t) :
  let fileExtensions := Buckets.fileExtensions dirents in
  let distinct := keys (countArrayFieldsToObject fileExtensions true) in
  let N := List.length (filter (fun n => JS.includes_char "." n)
                               (Buckets.normalFiles dirents)) in
  2 <= List.length distinct ->
  (forall e,
      Collections.covers e distinct = true
      <-> forall x, In x fileExtensions ->
                    In (JS.toLowerCase x) (Collections.exts e))
  /\ (forall before e after,
         Collections.extensions = before ++ e :: after ->
         Collections.covers e distinct = true ->
         (forall c, In c before -> Collections.covers c distinct = false) ->
         foundCollectionOf dirents
         = Some ("a collection of " ++ JS.nat_to_string N
                   ++ " " ++ Collections.name e ++ " files")%string)
  /\ ((forall c, In c Collections.extensions ->
                 Collections.covers c distinct = false) ->
      foundCollectionOf dirents = None)
  /\ (answersOf dirents = [] ->
      forall MAXDEPTH VERBOSE FOLLOWDOT join countObToString
             processFilename depth filename di,
        Explorer.processDirents MAXDEPTH VERBOSE FOLLOWDOT join countObToString
                                processFilename depth filename dirents = Some di ->
        DirectoryInfo.collections di = foundCollectionOf dirents
        /\ DirectoryInfo.answers di = None).
Proof.
  intros fileExtensions distinct N Hlen.
  assert (HN : N = List.length fileExtensions).
  { subst N fileExtensions. unfold Buckets.fileExtensions. now rewrite length_map. }
  assert (Hfound : foundCollectionOf dirents
                   = Collections.some_class Collections.extensions distinct
                                            fileExtensions).
  { unfold foundCollectionOf. now apply checkForCollections_more_keys. }
  split; [intros e; apply covers_iff|].
  split.
  { intros before e after Hext He Hbefore.
    rewrite Hfound, Hext, HN. now apply some_class_first. }
  split.
  { intros Hnone. rewrite Hfound. now apply some_class_none. }
  intros Hans MAXDEPTH VERBOSE FOLLOWDOT join countObToString processFilename
         depth filename di Hdi.
  destruct (processDirents_result _ _ _ _ _ _ _ _ _ _ Hdi)
    as (_ & _ & _ & _ & _ & Ha & Hc & _).
  rewrite Ha, Hc, Hans.
  destruct dirents as [|d0 ds]; [cbv in Hlen; lia|].
  split; reflexivity.
Qed.

(** The directory with only [image1.jpg] and [image2.jpeg]: the class
    [jpeg] comes before [image] and [media], and wins. *)
Lemma class_collection_witness :
  foundCollectionOf [a_file "image1.jpg"; a_file "image2.jpeg"]
  = Some "a collection of 2 jpeg files".
Proof.
  assert (Hlen : 2 <= List.length
                        (keys (countArrayFieldsToObject
                                 (Buckets.fileExtensions
                                    [a_file "image1.jpg"; a_file "image2.jpeg"])
                                 true)))
    by (vm_compute; lia).
  refine (proj1 (proj2 (class_collection
                          [a_file "image1.jpg"; a_file "image2.jpeg"] Hlen))
                [ {| Collections.name := "audio";
                     Collections.exts := Collections.audioexts |} ]
                {| Collections.name := "jpeg";
                   Collections.exts := Collections.jpegexts |}
                _ _ _ _).
  - reflexivity.
  - reflexivity.
  - intros c [<-|[]]. reflexivity.
Defined.

(** C3 as stated fails in two ways.  A directory with the single file
    [photo.jpg]: no signature matches, rule (1) reports nothing, one
    distinct extension occurs and the class [jpeg] holds it, yet the
    program reports nothing, where the wording gives
    ["a collection of 1 jpeg files"].  A directory with [a.jpg],
    [b.jpeg] and [README]: the program counts the two files that have
    an extension, where the wording counts three files. *)
Lemma class_rule_counterexample :
  (answersOf [a_file "photo.jpg"] = []
   /\ Spec.foundCollectionOf [a_file "photo.jpg"]
      = Some "a collection of 1 jpeg files"
   /\ foundCollectionOf [a_file "photo.jpg"] = None)
  /\ (answersOf [a_file "README"; a_file "a.jpg"; a_file "b.jpeg"] = []
      /\ Spec.foundCollectionOf [a_file "README"; a_file "a.jpg"; a_file "b.jpeg"]
         = Some "a collection of 3 jpeg files"
      /\ foundCollectionOf [a_file "README"; a_file "a.jpg"; a_file "b.jpeg"]
         = Some "a collection of 2 jpeg files").
Proof. repeat split. Qed.

(* ================================================================== *)
(** * Files without an extension *)
(* ================================================================== *)

Lemma bucket_app i l1 l2 :
  bucket i (l1 ++ l2) = bucket i l1 ++ bucket i l2.
Proof. rewrite !bucket_filter, filter_app, map_app. reflexivity. Qed.

Lemma bucket_cons i d l :
  bucket i (d :: l)
  = (if some_index tests d 0 (List.length tests) =? i
     then [DirentStat.name d] else [])
      ++ bucket i l.
Proof.
  rewrite !bucket_filter. cbn [filter].
  destruct (some_index tests d 0 (List.length tests) =? i); reflexivity.
Qed.

Lemma first_is_includes_char c s :
  JS.includes_char c s = false -> JS.first_is c s = false.
Proof.
  destruct s as [|a s]; simpl; auto.
  destruct (Ascii.eqb a c); [discriminate | reflexivity].
Qed.

(** Such a file goes to the normal files. *)
Lemma normal_file_without_dot_index d :
  normal_file_without_dot d ->
  some_index tests d 0 (List.length tests) = 4.
Proof.
  intros (He & Hs & Hf & Hdot).
  apply first_is_includes_char in Hdot.
  destruct d as [f dr sl n sz e]; simpl in *. subst. rewrite Hdot.
  simpl. reflexivity.
Qed.

Lemma fileExtensions_app l1 l2 :
  Buckets.fileExtensions (l1 ++ l2)
  = Buckets.fileExtensions l1 ++ Buckets.fileExtensions l2.
Proof.
  unfold Buckets.fileExtensions, Buckets.normalFiles.
  now rewrite bucket_app, filter_app, map_app.
Qed.

Lemma fileExtensions_cons_without_dot d l :
  normal_file_without_dot d ->
  Buckets.fileExtensions (d :: l) = Buckets.fileExtensions l.
Proof.
  intros Hd. unfold Buckets.fileExtensions, Buckets.normalFiles.
  rewrite bucket_cons, (normal_file_without_dot_index d Hd).
  cbn [Nat.eqb app filter].
  destruct Hd as (_ & _ & _ & ->). reflexivity.
Qed.

(** C10. A normal file whose name has no dot leaves the list of file
    extensions and their table as they are without it, wherever it
    stands in the listing: it is not counted in the N of a report and
    it changes nothing in what the collection heuristic answers.  A
    listing whose normal files all have names without a dot has no file
    extension at all, and the heuristic answers nothing for it. *)
Theorem files_without_dot_ignored :
  (forall l1 l2 d,
      normal_file_without_dot d ->
      Buckets.fileExtensions (l1 ++ d :: l2) = Buckets.fileExtensions (l1 ++ l2)
      /\ countArrayFieldsToObject (Buckets.fileExtensions (l1 ++ d :: l2)) true
         = countArrayFieldsToObject (Buckets.fileExtensions (l1 ++ l2)) true
      /\ foundCollectionOf (l1 ++ d :: l2) = foundCollectionOf (l1 ++ l2))
  /\ (forall dirents,
         (forall n, In n (Buckets.normalFiles dirents) ->
                    JS.includes_char "." n = false) ->
         Buckets.fileExtensions dirents = []
         /\ keys (countArrayFieldsToObject (Buckets.fileExtensions dirents) true) = []
         /\ foundCollectionOf dirents = None).
Proof.
  split.
  - intros l1 l2 d Hd.
    assert (E : Buckets.fileExtensions (l1 ++ d :: l2)
                = Buckets.fileExtensions (l1 ++ l2)).
    { rewrite !fileExtensions_app. f_equal.
      now apply fileExtensions_cons_without_dot. }
    unfold foundCollectionOf. rewrite E. auto.
  - intros dirents Hall.
    assert (E : Buckets.fileExtensions dirents = []).
    { unfold Buckets.fileExtensions.
      induction (Buckets.normalFiles dirents) as [|n ns IH]; [reflexivity|].
      cbn [filter]. rewrite (Hall n (or_introl eq_refl)).
      apply IH. intros m Hm. apply Hall. now right. }
    unfold foundCollectionOf. rewrite E. auto.
Qed.

(** A file without a dot among two pictures: the report and its count
    are those of the two pictures alone. *)
Example README_among_pictures :
  foundCollectionOf [a_file "README"; a_file "a.jpg"; a_file "b.jpeg"]
  = foundCollectionOf [a_file "a.jpg"; a_file "b.jpeg"]
  /\ foundCollectionOf [a_file "a.jpg"; a_file "b.jpeg"]
     = Some "a collection of 2 jpeg files"
  /\ foundCollectionOf [a_file "LICENSE"; a_file "Makefile"] = None.
Proof. repeat split. Qed.

(* ================================================================== *)
(** * Properties of the command line *)
(* ================================================================== *)

Lemma split_from_no_sep sep cur s :
  JS.includes_char sep s = false ->
  JS.split_from sep cur s = [(cur ++ s)%string].
Proof.
  revert cur; induction s as [|a s IH]; intros cur; simpl.
  - intros _. f_equal. clear. induction cur; simpl; congruence.
  - destruct (Ascii.eqb a sep); [discriminate|]. simpl. intros H.
    rewrite IH by exact H. f_equal.
    clear. induction cur; simpl; congruence.
Qed.

Lemma split_from_length sep cur s :
  1 <= List.length (JS.split_from sep cur s).
Proof.
  revert cur; induction s as [|a s IH]; intros cur; simpl; [lia|].
  destruct (Ascii.eqb a sep); simpl; [lia | apply IH].
Qed.

Lemma split_from_sep sep cur s :
  JS.includes_char sep s = true ->
  2 <= List.length (JS.split_from sep cur s).
Proof.
  revert cur; induction s as [|a s IH]; intros cur; simpl.
  - discriminate.
  - destruct (Ascii.eqb a sep); simpl.
    + intros _. pose proof (split_from_length sep "" s). lia.
    + apply IH.
Qed.

(** [NaN] is not equal to anything. *)
Lemma strict_eq_NaN x : JS.strict_eq x JS.NaN = false.
Proof. destruct x as [| | |s m e]; try destruct s; reflexivity. Qed.

Section NotNumeric.
(** A character that no numeric literal holds: not a digit of any
    radix, not white space, and none of the letters and signs of the
    grammar. *)
Variable c : ascii.
Hypothesis c_not_hex : JS.hex_value c = None.
Hypothesis c_not_digit : JS.digit_value c = None.
Hypothesis c_not_space : JS.isWhiteSpace c = false.
Hypothesis c_not_sign : c <> "-"%char /\ c <> "+"%char /\ c <> "."%char.

Lemma trimStart_keeps s :
  JS.includes_char c s = true -> JS.includes_char c (JS.trimStart s) = true.
Proof.
  induction s as [|a s IH]; simpl; auto.
  destruct (Ascii.eqb_spec a c) as [->|Hne]; simpl.
  - rewrite c_not_space. simpl. now rewrite Ascii.eqb_refl.
  - intros H. destruct (JS.isWhiteSpace a); auto.
    simpl. destruct (Ascii.eqb_spec a c); [contradiction | exact H].
Qed.

Lemma trimEnd_aux_keeps s :
  JS.includes_char c s = true ->
  exists t, JS.trimEnd_aux s = Some t /\ JS.includes_char c t = true.
Proof.
  induction s as [|a s IH]; simpl; [discriminate|].
  destruct (Ascii.eqb_spec a c) as [->|Hne]; simpl.
  - intros _. destruct (JS.trimEnd_aux s) as [t|].
    + exists (String c t). simpl. now rewrite Ascii.eqb_refl.
    + rewrite c_not_space. exists (String c ""). simpl.
      now rewrite Ascii.eqb_refl.
  - intros H. destruct (IH H) as (t & -> & Ht).
    exists (String a t). simpl. split; [reflexivity|].
    destruct (Ascii.eqb a c); auto.
Qed.

Lemma trim_keeps s :
  JS.includes_char c s = true -> JS.includes_char c (JS.trim s) = true.
Proof.
  intros H. unfold JS.trim, JS.trimEnd.
  destruct (trimEnd_aux_keeps _ (trimStart_keeps _ H)) as (t & -> & Ht). exact Ht.
Qed.

(** The digits read stop before such a character. *)
Lemma digits_prefix_keeps value radix acc count s :
  value c = None ->
  JS.includes_char c s = true ->
  JS.includes_char c (snd (JS.digits_prefix value radix acc count s)) = true.
Proof.
  intros Hv. revert acc count; induction s as [|a s IH]; intros acc count; simpl.
  - discriminate.
  - destruct (Ascii.eqb_spec a c) as [->|Hne]; simpl.
    + intros _. rewrite Hv. simpl. now rewrite Ascii.eqb_refl.
    + intros H. destruct (value a) as [d|].
      * destruct (d <? radix)%Z; [now apply IH|].
        simpl. destruct (Ascii.eqb_spec a c); [contradiction | exact H].
      * simpl. destruct (Ascii.eqb_spec a c); [contradiction | exact H].
Qed.

Lemma sign_keeps s :
  JS.includes_char c s = true -> JS.includes_char c (snd (JS.sign s)) = true.
Proof.
  destruct c_not_sign as (Hm & Hp & _).
  destruct s as [|a r]; simpl; [discriminate|].
  destruct (Ascii.eqb_spec a c) as [->|Hne].
  - intros _.
    destruct (Ascii.eqb_spec c "-"); [contradiction|].
    destruct (Ascii.eqb_spec c "+"); [contradiction|].
    simpl. now rewrite Ascii.eqb_refl.
  - simpl. intros H.
    destruct (Ascii.eqb a "-"); [exact H|].
    destruct (Ascii.eqb a "+"); [exact H|].
    simpl. destruct (Ascii.eqb_spec a c); [contradiction | exact H].
Qed.

Lemma exponentPart_fails s :
  JS.includes_char c s = true -> JS.exponentPart s = None.
Proof.
  intros H. unfold JS.exponentPart.
  destruct s as [|a r]; [discriminate|].
  destruct (Ascii.eqb a "e" || Ascii.eqb a "E") eqn:Ee; [|reflexivity].
  assert (Hr : JS.includes_char c r = true).
  { simpl in H. destruct (Ascii.eqb_spec a c) as [->|]; [|exact H].
    exfalso. revert Ee c_not_hex. clear.
    destruct (Ascii.eqb_spec c "e") as [->|]; [discriminate|].
    destruct (Ascii.eqb_spec c "E") as [->|]; [discriminate|].
    discriminate. }
  pose proof (sign_keeps r Hr) as Hs.
  destruct (JS.sign r) as [eneg r1]. simpl in Hs.
  pose proof (digits_prefix_keeps JS.digit_value 10 0 0 r1 c_not_digit Hs) as Hd.
  destruct (JS.digits_prefix JS.digit_value 10 0 0 r1) as [[e n] rest].
  simpl in Hd. destruct n; [reflexivity|].
  destruct rest; [discriminate Hd | reflexivity].
Qed.

Lemma fraction_keeps ipart r :
  JS.includes_char c r = true ->
  JS.includes_char c (snd (JS.fraction ipart r)) = true.
Proof.
  destruct c_not_sign as (_ & _ & Hdot).
  destruct r as [|a r']; simpl; [discriminate|].
  destruct (Ascii.eqb_spec a c) as [->|Hne].
  - intros _. destruct (Ascii.eqb_spec c "."); [contradiction|].
    simpl. now rewrite Ascii.eqb_refl.
  - simpl. intros H. destruct (Ascii.eqb a ".").
    + now apply digits_prefix_keeps.
    + simpl. destruct (Ascii.eqb_spec a c); [contradiction | exact H].
Qed.

Hypothesis c_not_Infinity : JS.includes_char c "Infinity" = false.
Hypothesis c_not_radix : JS.radix_of c = None.

Lemma includes_char_eqb s s' :
  JS.includes_char c s = true -> JS.includes_char c s' = false ->
  String.eqb s s' = false.
Proof.
  intros H H'. destruct (String.eqb_spec s s') as [->|]; [|reflexivity].
  congruence.
Qed.

Lemma unsignedDecimal_NaN neg s :
  JS.includes_char c s = true -> JS.unsignedDecimal neg s = JS.NaN.
Proof.
  intros H. unfold JS.unsignedDecimal.
  rewrite (includes_char_eqb s "Infinity" H c_not_Infinity).
  pose proof (digits_prefix_keeps JS.digit_value 10 0 0 s c_not_digit H) as Hd.
  destruct (JS.digits_prefix JS.digit_value 10 0 0 s) as [[ipart icount] r].
  simpl in Hd.
  pose proof (fraction_keeps ipart r Hd) as Hf.
  destruct (JS.fraction ipart r) as [[m fcount] r1]. simpl in Hf.
  rewrite (exponentPart_fails r1 Hf).
  destruct icount, fcount; reflexivity.
Qed.

Lemma nonDecimal_NaN s v :
  JS.includes_char c s = true -> JS.nonDecimal s = Some v -> v = JS.NaN.
Proof.
  intros H. unfold JS.nonDecimal.
  destruct s as [|z [|p r]]; try discriminate.
  destruct (Ascii.eqb_spec z "0") as [->|]; [|discriminate].
  destruct (JS.radix_of p) as [rx|] eqn:Ep; [|discriminate].
  assert (Hr : JS.includes_char c r = true).
  { cbn [JS.includes_char] in H.
    apply orb_true_iff in H. destruct H as [H|H].
    { apply Ascii.eqb_eq in H. subst c. discriminate c_not_digit. }
    apply orb_true_iff in H. destruct H as [H|H]; [|exact H].
    apply Ascii.eqb_eq in H. subst p. congruence. }
  pose proof (digits_prefix_keeps JS.hex_value rx 0 0 r c_not_hex Hr) as Hd.
  destruct (JS.digits_prefix JS.hex_value rx 0 0 r) as [[v' n] rest].
  simpl in Hd. destruct n; [now intros [= <-]|].
  destruct rest; [discriminate Hd | now intros [= <-]].
Qed.

(** A string with such a character is no number. *)
Lemma Number_NaN s :
  JS.includes_char c s = true -> JS.Number s = JS.NaN.
Proof.
  intros H. unfold JS.Number.
  pose proof (trim_keeps s H) as Ht.
  destruct (JS.trim s) as [|a r] eqn:Et; [discriminate|].
  destruct c_not_sign as (Hm & Hp & _).
  assert (Hr : (Ascii.eqb a "-" || Ascii.eqb a "+") = true ->
               JS.includes_char c r = true).
  { intros Ha. simpl in Ht.
    destruct (Ascii.eqb_spec a c) as [->|]; [|exact Ht].
    destruct (Ascii.eqb_spec c "-"); [contradiction|].
    destruct (Ascii.eqb_spec c "+"); [contradiction|]. discriminate. }
  destruct (Ascii.eqb a "-").
  { apply unsignedDecimal_NaN. now apply Hr. }
  destruct (Ascii.eqb a "+").
  { apply unsignedDecimal_NaN. now apply Hr. }
  destruct (JS.nonDecimal (String a r)) as [v|] eqn:En.
  - now apply (nonDecimal_NaN _ _ Ht).
  - now apply unsignedDecimal_NaN.
Qed.

End NotNumeric.

(** A string with an equals sign is no number. *)
Lemma Number_with_equals s :
  JS.includes_char "=" s = true -> JS.Number s = JS.NaN.
Proof.
  apply Number_NaN; try reflexivity.
  repeat split; discriminate.
Qed.

Lemma append_empty_l s : ("" ++ s)%string = s.
Proof. reflexivity. Qed.

(** What the loop of [processCommandline] does with [-m=V]. *)
Lemma processArg_m o args V :
  processArg (o, args) ("-m=" ++ V)
  = match JS.split "=" V with
    | [kv1] =>
        if JS.strict_eq (JS.parseInt10 kv1) (JS.Number kv1)
        then (mkOptions (JS.Number kv1) (VERBOSE o) (FOLLOWDOT o), args)
        else (o, args)
    | _ => (o, args)
    end.
Proof.
  unfold processArg.
  change (JS.first_is "-" ("-m=" ++ V)) with true. cbv iota.
  change (String.length ("-m=" ++ V)) with (3 + String.length V).
  change (3 + String.length V =? 2) with false. cbv iota.
  change (JS.split "=" (JS.substring1 ("-m=" ++ V))) with ("m" :: JS.split "=" V).
  destruct (JS.split "=" V) as [|kv1 [|kv2 rest]]; reflexivity.
Qed.

(** C9, as amended.  For every argument [-m=V], the maximum depth
    becomes the number value of V exactly when [parseInt(V, 10)] and
    [Number(V)] are equal numbers; for every other V the argument
    changes nothing, so that the earlier value, 1 from the start, stays.
    The other two options and the list of paths are as they were.  The
    test is on the two values and not on the notation of V. *)
Theorem maxdepth_option (o : options) (args : list string) (V : string) :
  processArg (o, args) ("-m=" ++ V)
  = (if JS.strict_eq (JS.parseInt10 V) (JS.Number V)
     then mkOptions (JS.Number V) (VERBOSE o) (FOLLOWDOT o)
     else o,
     args)
  /\ (JS.strict_eq (JS.parseInt10 V) (JS.Number V) = true ->
      MAXDEPTH (fst (processArg (o, args) ("-m=" ++ V))) = JS.Number V)
  /\ (JS.strict_eq (JS.parseInt10 V) (JS.Number V) = false ->
      fst (processArg (o, args) ("-m=" ++ V)) = o)
  /\ MAXDEPTH defaults = JS.of_Z false 1
  /\ fst (processCommandline defaults ["node"; "dirsniff"; ("-m=" ++ V)%string])
     = (if JS.strict_eq (JS.parseInt10 V) (JS.Number V)
        then mkOptions (JS.Number V) false false
        else defaults).
Proof.
  assert (E : forall o args,
             processArg (o, args) ("-m=" ++ V)
             = (if JS.strict_eq (JS.parseInt10 V) (JS.Number V)
                then mkOptions (JS.Number V) (VERBOSE o) (FOLLOWDOT o)
                else o,
                args)).
  { clear. intros o args. rewrite processArg_m. unfold JS.split.
    destruct (JS.includes_char "=" V) eqn:Heq.
    - rewrite (Number_with_equals V Heq), strict_eq_NaN.
      pose proof (split_from_sep "=" "" V Heq) as Hlen.
      destruct (JS.split_from "=" "" V) as [|kv1 [|kv2 rest]];
        try reflexivity. simpl in Hlen. lia.
    - rewrite (split_from_no_sep "=" "" V Heq), append_empty_l.
      destruct (JS.strict_eq (JS.parseInt10 V) (JS.Number V)); reflexivity. }
  split; [apply E|].
  split; [intros H; rewrite E, H; reflexivity|].
  split; [intros H; rewrite E, H; reflexivity|].
  split; [reflexivity|].
  unfold processCommandline. cbn [skipn fold_left]. rewrite E.
  destruct (JS.strict_eq (JS.parseInt10 V) (JS.Number V)); reflexivity.
Qed.

(** Values that set the depth, and values that are ignored. *)
Example maxdepth_values :
  map (fun V => MAXDEPTH (fst (processArg (defaults, []) ("-m=" ++ V))))
      ["3"; "0"; " 12 "; "+5"]
  = [JS.of_Z false 3; JS.of_Z false 0; JS.of_Z false 12; JS.of_Z false 5]
  /\ map (fun V => fst (processArg (defaults, []) ("-m=" ++ V)))
         [""; "abc"; "1.5"; "0x10"; "1e3"; "12px"; "1=2"; "Infinity"; ".5"]
     = repeat defaults 9.
Proof. split; vm_compute; reflexivity. Qed.

(** A fraction, an exponent or a hexadecimal prefix that leaves the
    value what [parseInt] reads passes the test of the program. *)
Example maxdepth_values_equal_to_their_integer :
  map (fun V => MAXDEPTH (fst (processArg (defaults, []) ("-m=" ++ V))))
      ["2.0"; "2e0"; "0x0"; "2."]
  = [JS.of_Z false 2; JS.of_Z false 2; JS.of_Z false 0; JS.of_Z false 2].
Proof. vm_compute. reflexivity. Qed.

(** C9 as stated fails: it has a value in fractional, hexadecimal or
    exponent notation ignored, with the depth left at 1.  The values
    [2.0], [0x0] and [2e0] are in these notations, and the program sets
    the depth to 2, 0 and 2 for them, since [parseInt] and [Number] read
    the same number from each. *)
Lemma maxdepth_notation_counterexample :
  (Spec.fractional "2.0" = true /\ Spec.malformed "2.0" = true
   /\ MAXDEPTH (fst (processCommandline defaults ["node"; "dirsniff"; "-m=2.0"]))
      = JS.of_Z false 2)
  /\ (Spec.hexadecimal "0x0" = true /\ Spec.malformed "0x0" = true
      /\ MAXDEPTH (fst (processCommandline defaults ["node"; "dirsniff"; "-m=0x0"]))
         = JS.of_Z false 0)
  /\ (Spec.exponent "2e0" = true /\ Spec.malformed "2e0" = true
      /\ MAXDEPTH (fst (processCommandline defaults ["node"; "dirsniff"; "-m=2e0"]))
         = JS.of_Z false 2)
  /\ MAXDEPTH defaults = JS.of_Z false 1
  /\ JS.strict_eq (JS.of_Z false 2) (JS.of_Z false 1) = false
  /\ JS.strict_eq (JS.of_Z false 0) (JS.of_Z false 1) = false.
Proof. repeat split; vm_compute; reflexivity. Qed.

(* ================================================================== *)
(** * The notes and the decision *)
(* ================================================================== *)

(** ** The entries that call for a note decide nothing *)

Lemma dirExtensions_app l1 l2 :
  Buckets.dirExtensions (l1 ++ l2)
  = Buckets.dirExtensions l1 ++ Buckets.dirExtensions l2.
Proof.
  unfold Buckets.dirExtensions, Buckets.directoriesWithExtensions.
  now rewrite bucket_app, map_app.
Qed.

(** The arrays of a listing are those of its parts, one after the
    other. *)
Lemma haystacksOf_app haystack l1 l2 :
  known_haystack haystack ->
  haystack (haystacksOf (l1 ++ l2))
  = haystack (haystacksOf l1) ++ haystack (haystacksOf l2).
Proof.
  intros Hk. destruct Hk; cbn [haystacksOf AutoIdentify.normalDirectories
    AutoIdentify.dotDirectories AutoIdentify.dirExtensions
    AutoIdentify.normalFiles AutoIdentify.dotFiles AutoIdentify.fileExtensions
    AutoIdentify.symbolicLinks];
    first [apply bucket_app | apply dirExtensions_app | apply fileExtensions_app].
Qed.

Lemma haystacksOf_insert haystack l1 l2 d n :
  known_haystack haystack ->
  In n (haystack (haystacksOf (l1 ++ d :: l2)))
  <-> In n (haystack (haystacksOf (l1 ++ l2)))
      \/ In n (haystack (haystacksOf [d])).
Proof.
  intros Hk.
  change (d :: l2) with ([d] ++ l2).
  rewrite !(haystacksOf_app haystack) by exact Hk.
  rewrite !in_app_iff. tauto.
Qed.

(** A containment test looks at its needles only. *)
Lemma known_check_needles check haystack haystack' needles :
  known_check check ->
  (forall n, In n needles -> (In n haystack' <-> In n haystack)) ->
  check haystack' needles = check haystack needles.
Proof.
  intros Hk Hn.
  assert (He : forall n, In n needles ->
                         existsb (fun d => String.eqb d n) haystack'
                         = existsb (fun d => String.eqb d n) haystack).
  { intros n Hin. apply eq_true_iff_eq. rewrite !existsb_eqb_In. now apply Hn. }
  destruct Hk.
  - destruct needles as [|n rest]; [reflexivity|]. simpl.
    apply He. now left.
  - unfold includesAll. revert He. clear.
    induction needles as [|n rest IH]; intros He; [reflexivity|]. simpl.
    rewrite (He n (or_introl eq_refl)). f_equal. apply IH.
    intros m Hm. apply He. now right.
  - unfold includesAny. revert He. clear.
    induction needles as [|n rest IH]; intros He; [reflexivity|]. simpl.
    rewrite (He n (or_introl eq_refl)). f_equal. apply IH.
    intros m Hm. apply He. now right.
Qed.

Lemma no_needle_in_step hd e haystack check needles n :
  no_needle_in hd = true ->
  In e AutoIdentify.table ->
  In (haystack, check, needles) (AutoIdentify.steps e) ->
  In n needles -> ~ In n (haystack hd).
Proof.
  unfold no_needle_in. rewrite forallb_forall. intros H He Hs Hn.
  specialize (H e He). rewrite forallb_forall in H.
  specialize (H _ Hs). cbv beta iota in H. rewrite forallb_forall in H.
  specialize (H n Hn). apply negb_true_iff in H.
  intros Hin. apply existsb_eqb_In in Hin. congruence.
Qed.

Lemma forallb_agree {A : Type} (f g : A -> bool) (l : list A) :
  (forall x, In x l -> f x = g x) -> forallb f l = forallb g l.
Proof.
  induction l as [|x l IH]; intros H; [reflexivity|]. simpl.
  rewrite (H x (or_introl eq_refl)). f_equal. apply IH.
  intros y Hy. apply H. now right.
Qed.

(** Names that are no needle of the table change no answer. *)
Lemma run_without_needles h h' hd :
  no_needle_in hd = true ->
  (forall haystack n,
      known_haystack haystack ->
      In n (haystack h') <-> In n (haystack h) \/ In n (haystack hd)) ->
  AutoIdentify.run AutoIdentify.table h' = AutoIdentify.run AutoIdentify.table h.
Proof.
  intros Hno Hadd. rewrite !run_filter. f_equal.
  apply filter_ext_in. intros e He.
  unfold AutoIdentify.every_step. apply forallb_agree.
  intros [[haystack check] needles] Hs.
  destruct (table_step_known e haystack check needles He Hs) as [Hh Hc].
  apply known_check_needles; [exact Hc|].
  intros n Hn. rewrite (Hadd haystack n Hh).
  pose proof (no_needle_in_step hd e haystack check needles n Hno He Hs Hn).
  tauto.
Qed.

Lemma bucket_one i d :
  bucket i [d]
  = if some_index tests d 0 (List.length tests) =? i
    then [DirentStat.name d] else [].
Proof.
  rewrite bucket_cons, (bucket_filter i []). cbn [filter map]. apply app_nil_r.
Qed.

(** The arrays of a listing with only such an entry in it. *)
Lemma note_entry_haystacks d :
  note_entry d ->
  haystacksOf [d] = AutoIdentify.args [] [".git"] [] [] [] [] []
  \/ haystacksOf [d] = AutoIdentify.args [] [".github"] [] [] [] [] []
  \/ haystacksOf [d] = AutoIdentify.args [] [] [] [Icon_cr] [] [] []
  \/ haystacksOf [d] = AutoIdentify.args [] [] [] [] [".DS_Store"] [] [].
Proof.
  unfold note_entry, lands_in, haystacksOf, Buckets.fileExtensions,
    Buckets.dirExtensions, Buckets.normalDirectories, Buckets.dotDirectories,
    Buckets.normalFiles, Buckets.dotFiles, Buckets.symbolicLinks,
    Buckets.directoriesWithExtensions.
  rewrite !bucket_one.
  intros [[-> [-> | ->]] | [[-> ->] | [-> ->]]]; cbn; auto.
Qed.

Lemma note_entry_no_needle d :
  note_entry d -> no_needle_in (haystacksOf [d]) = true.
Proof.
  intros Hd.
  destruct (note_entry_haystacks d Hd) as [-> | [-> | [-> | ->]]];
    vm_compute; reflexivity.
Qed.

Lemma note_entry_no_extension d :
  note_entry d -> Buckets.fileExtensions [d] = [].
Proof.
  intros Hd.
  change (Buckets.fileExtensions [d])
    with (AutoIdentify.fileExtensions (haystacksOf [d])).
  destruct (note_entry_haystacks d Hd) as [-> | [-> | [-> | ->]]]; reflexivity.
Qed.

(** An entry that calls for a note changes neither the answers nor the
    collection nor, so, [identified]. *)
Lemma note_entry_decides_nothing l1 l2 d :
  note_entry d ->
  answersOf (l1 ++ d :: l2) = answersOf (l1 ++ l2)
  /\ foundCollectionOf (l1 ++ d :: l2) = foundCollectionOf (l1 ++ l2)
  /\ identifiedOf (l1 ++ d :: l2) = identifiedOf (l1 ++ l2).
Proof.
  intros Hd.
  assert (Ha : answersOf (l1 ++ d :: l2) = answersOf (l1 ++ l2)).
  { rewrite !answersOf_run.
    apply (run_without_needles _ _ (haystacksOf [d])).
    - now apply note_entry_no_needle.
    - intros haystack n Hk. now apply haystacksOf_insert. }
  assert (Hf : foundCollectionOf (l1 ++ d :: l2) = foundCollectionOf (l1 ++ l2)).
  { unfold foundCollectionOf.
    change (d :: l2) with ([d] ++ l2).
    rewrite !fileExtensions_app, (note_entry_no_extension d Hd). reflexivity. }
  split; [exact Ha|]. split; [exact Hf|].
  unfold identifiedOf. rewrite Ha, Hf.
  destruct (l1 ++ l2) as [|x rest] eqn:E.
  - change (foundCollectionOf []) with (@None string).
    change (answersOf []) with (@nil string).
    destruct (0 <? List.length (l1 ++ d :: l2)); reflexivity.
  - assert ((0 <? List.length (l1 ++ d :: l2)) = true) as ->.
    { apply Nat.ltb_lt. rewrite length_app. simpl. lia. }
    reflexivity.
Qed.

(** C8. The notes of a directory hold the Git note exactly when there
    is a dot directory [.git] and none called [.github], the GitHub note
    (and then not the Git note) exactly when both are there, and the
    Finder note exactly when there is a normal file called [Icon\r] or a
    dot file [.DS_Store]; no note comes twice, a repository note and the
    Finder note come together when both are called for, and
    [identified] of the result of [processDirents] is a matter of the
    signatures and the collection alone, while the notes of a listing
    that is not empty go into [additionalInfo].  The entries that call
    for a note change neither the answers nor the collection: a listing
    is identified with them exactly when it is without them. *)
Theorem additional_notes (dotDirectories normalFiles dotFiles : list string) :
  let notes := checkAdditionalNotes dotDirectories normalFiles dotFiles in
  (In GitRepository notes
   <-> In ".git" dotDirectories /\ ~ In ".github" dotDirectories)
  /\ (In GitHubRepository notes
      <-> In ".git" dotDirectories /\ In ".github" dotDirectories)
  /\ (In MacFinderFiles notes
      <-> In Icon_cr normalFiles \/ In ".DS_Store" dotFiles)
  /\ NoDup notes
  /\ ~ (In GitRepository notes /\ In GitHubRepository notes)
  /\ (In ".git" dotDirectories ->
      In Icon_cr normalFiles \/ In ".DS_Store" dotFiles ->
      (In GitRepository notes \/ In GitHubRepository notes)
      /\ In MacFinderFiles notes)
  /\ (forall MAXDEPTH VERBOSE FOLLOWDOT join countObToString
             processFilename depth filename dirents di,
         Explorer.processDirents MAXDEPTH VERBOSE FOLLOWDOT join countObToString
                                 processFilename depth filename dirents = Some di ->
         DirectoryInfo.identified di = identifiedOf dirents
         /\ (DirectoryInfo.identified di = true
             <-> dirents <> []
                 /\ (answersOf dirents <> [] \/ foundCollectionOf dirents <> None))
         /\ (dirents <> [] ->
             DirectoryInfo.additionalInfo di = Some (notesOf dirents)))
  /\ (forall l1 l2 d,
         note_entry d ->
         answersOf (l1 ++ d :: l2) = answersOf (l1 ++ l2)
         /\ foundCollectionOf (l1 ++ d :: l2) = foundCollectionOf (l1 ++ l2)
         /\ identifiedOf (l1 ++ d :: l2) = identifiedOf (l1 ++ l2)).
Proof.
  intros notes. subst notes.
  split; [apply notes_GitRepository|].
  split; [apply notes_GitHubRepository|].
  split; [apply notes_MacFinderFiles|].
  split; [apply notes_NoDup|].
  split.
  { rewrite notes_GitRepository, notes_GitHubRepository. tauto. }
  split.
  { rewrite notes_GitRepository, notes_GitHubRepository, notes_MacFinderFiles.
    intros Hgit Hmac. split; [|exact Hmac].
    destruct (in_dec string_dec ".github" dotDirectories); tauto. }
  split; [|exact note_entry_decides_nothing].
  intros MAXDEPTH VERBOSE FOLLOWDOT join countObToString processFilename
         depth filename dirents di Hdi.
  destruct (processDirents_result _ _ _ _ _ _ _ _ _ _ Hdi)
    as (_ & _ & Hid & Hnotes & _).
  split; [exact Hid|].
  split.
  - rewrite Hid. apply identifiedOf_true.
  - intros Hne. rewrite Hnotes.
    destruct dirents; [now elim Hne | reflexivity].
Qed.

(** A repository on GitHub with Finder files in it carries both notes,
    and the plain Git note is not among them. *)
Example notes_co_occur :
  checkAdditionalNotes [".git"; ".github"] ["Makefile"] [".DS_Store"]
  = [GitHubRepository; MacFinderFiles]
  /\ checkAdditionalNotes [".git"] [Icon_cr] [] = [GitRepository; MacFinderFiles].
Proof. split; reflexivity. Qed.


(* ================================================================== *)
(** * More on the partitioner *)
(* ================================================================== *)

(** X1. [collate], for any list of tests: it returns one array more
    than there are tests; array [i] holds, in the order of the input,
    the elements whose first passing test is test [i]; the last array
    holds the elements that pass no test; and together the arrays are
    the input. *)
Theorem collate_by_first_test {T : Type} (input : list T) (tests : list (T -> bool)) :
  List.length (collate input tests) = List.length tests + 1
  /\ (forall i,
         nth i (collate input tests) []
         = filter (fun d => some_index tests d 0 (List.length tests) =? i) input)
  /\ (forall i d,
         i < List.length tests ->
         In d (nth i (collate input tests) [])
         <-> In d input
             /\ nth i tests (fun _ => false) d = true
             /\ forall j, j < i -> nth j tests (fun _ => false) d = false)
  /\ (forall d,
         In d (nth (List.length tests) (collate input tests) [])
         <-> In d input /\ forall t, In t tests -> t d = false)
  /\ Permutation (List.concat (collate input tests)) input.
Proof.
  split; [apply collate_length|].
  split; [intros i; apply collate_nth|].
  split.
  { intros i d Hi. rewrite collate_In.
    destruct (some_index_spec tests d 0 (List.length tests))
      as [(k & Hk & Hs & Hn & Hlt)|[Hs Hall]]; rewrite Hs.
    - rewrite Nat.add_0_l. split.
      + intros [Hd <-]. auto.
      + intros (Hd & Ht & Hlow). split; [exact Hd|].
        destruct (Nat.lt_trichotomy i k) as [Hik|[E|Hki]]; auto.
        * rewrite (Hlt i Hik) in Ht. discriminate.
        * rewrite (Hlow k Hki) in Hn. discriminate.
    - split.
      + intros [_ E]. lia.
      + intros (_ & Ht & _). rewrite Hall in Ht. discriminate. }
  split; [|apply collate_concat].
  intros d. rewrite collate_In.
  destruct (some_index_spec tests d 0 (List.length tests))
    as [(k & Hk & Hs & Hn & Hlt)|[Hs Hall]]; rewrite Hs.
  - split.
    + intros [_ E]. lia.
    + intros [_ Hnone]. exfalso.
      assert (Hin : In (nth k tests (fun _ => false)) tests) by (apply nth_In; lia).
      rewrite (Hnone _ Hin) in Hn. discriminate.
  - split; [|tauto]. intros [Hd _]. split; [exact Hd|].
    intros t Ht. destruct (In_nth tests t (fun _ => false) Ht) as (j & _ & <-).
    apply Hall.
Qed.

(** The bucket an entry lands in, told by its attributes. *)
Lemma lands_in_attributes (d : DirentStat.t) :
  (lands_in 0 d <-> DirentStat.statError d <> None)
  /\ (lands_in 1 d
      <-> DirentStat.statError d = None /\ DirentStat.isSymbolicLink d = true)
  /\ (lands_in 2 d
      <-> DirentStat.statError d = None /\ DirentStat.isSymbolicLink d = false
          /\ DirentStat.isFile d = false /\ DirentStat.isDirectory d = false)
  /\ (lands_in 3 d
      <-> DirentStat.statError d = None /\ DirentStat.isSymbolicLink d = false
          /\ DirentStat.isFile d = true
          /\ JS.first_is "." (DirentStat.name d) = true)
  /\ (lands_in 4 d
      <-> DirentStat.statError d = None /\ DirentStat.isSymbolicLink d = false
          /\ DirentStat.isFile d = true
          /\ JS.first_is "." (DirentStat.name d) = false)
  /\ (lands_in 5 d
      <-> DirentStat.statError d = None /\ DirentStat.isSymbolicLink d = false
          /\ DirentStat.isFile d = false /\ DirentStat.isDirectory d = true
          /\ JS.first_is "." (DirentStat.name d) = true)
  /\ (lands_in 6 d
      <-> DirentStat.statError d = None /\ DirentStat.isSymbolicLink d = false
          /\ DirentStat.isFile d = false /\ DirentStat.isDirectory d = true
          /\ JS.first_is "." (DirentStat.name d) = false
          /\ JS.includes_char "." (DirentStat.name d) = true)
  /\ (lands_in 7 d
      <-> DirentStat.statError d = None /\ DirentStat.isSymbolicLink d = false
          /\ DirentStat.isFile d = false /\ DirentStat.isDirectory d = true
          /\ JS.includes_char "." (DirentStat.name d) = false
          /\ UUIDRegex.test (DirentStat.name d) = true)
  /\ (lands_in 8 d
      <-> DirentStat.statError d = None /\ DirentStat.isSymbolicLink d = false
          /\ DirentStat.isFile d = false /\ DirentStat.isDirectory d = true
          /\ JS.includes_char "." (DirentStat.name d) = false
          /\ UUIDRegex.test (DirentStat.name d) = false).
Proof.
  unfold lands_in.
  pose proof (first_is_includes_char "." (DirentStat.name d)) as Hdot.
  destruct d as [f dr sl n sz e]. simpl in *.
  destruct e as [e|], sl, f, dr,
    (JS.first_is "." n), (JS.includes_char "." n), (UUIDRegex.test n);
    simpl;
    repeat split; intros;
    repeat match goal with
           | H : _ /\ _ |- _ => destruct H
           end;
    try discriminate; try lia; try congruence; auto;
    try (specialize (Hdot eq_refl); discriminate).
Qed.

Lemma bucket_In i dirents n :
  In n (bucket i dirents)
  <-> exists d, In d dirents /\ DirentStat.name d = n /\ lands_in i d.
Proof.
  rewrite bucket_filter, in_map_iff. unfold lands_in. split.
  - intros (d & Hn & Hd). apply filter_In in Hd. destruct Hd as [Hd Hi].
    apply Nat.eqb_eq in Hi. eauto.
  - intros (d & Hd & Hn & Hi). exists d. split; [exact Hn|].
    apply filter_In. split; [exact Hd | now apply Nat.eqb_eq].
Qed.

(** X2. What each array of [processDirents] holds, told by the
    attributes of the entries: the names of the entries with a stat
    error; else of the symbolic links; else of what is neither file nor
    directory; else of the files, by a leading dot; else of the
    directories, by a leading dot, then by a dot anywhere, then by the
    UUID shape.  An entry that says it is both a file and a directory
    counts as a file. *)
Theorem bucket_membership (dirents : list DirentStat.t) (n : string) :
  let named (P : DirentStat.t -> Prop) :=
    exists d, In d dirents /\ DirentStat.name d = n /\ P d in
  (In n (Buckets.brokenEntries dirents)
   <-> named (fun d => DirentStat.statError d <> None))
  /\ (In n (Buckets.symbolicLinks dirents)
      <-> named (fun d => DirentStat.statError d = None
                          /\ DirentStat.isSymbolicLink d = true))
  /\ (In n (Buckets.unknownEntries dirents)
      <-> named (fun d => DirentStat.statError d = None
                          /\ DirentStat.isSymbolicLink d = false
                          /\ DirentStat.isFile d = false
                          /\ DirentStat.isDirectory d = false))
  /\ (In n (Buckets.dotFiles dirents)
      <-> named (fun d => DirentStat.statError d = None
                          /\ DirentStat.isSymbolicLink d = false
                          /\ DirentStat.isFile d = true
                          /\ JS.first_is "." (DirentStat.name d) = true))
  /\ (In n (Buckets.normalFiles dirents)
      <-> named (fun d => DirentStat.statError d = None
                          /\ DirentStat.isSymbolicLink d = false
                          /\ DirentStat.isFile d = true
                          /\ JS.first_is "." (DirentStat.name d) = false))
  /\ (In n (Buckets.dotDirectories dirents)
      <-> named (fun d => DirentStat.statError d = None
                          /\ DirentStat.isSymbolicLink d = false
                          /\ DirentStat.isFile d = false
                          /\ DirentStat.isDirectory d = true
                          /\ JS.first_is "." (DirentStat.name d) = true))
  /\ (In n (Buckets.directoriesWithExtensions dirents)
      <-> named (fun d => DirentStat.statError d = None
                          /\ DirentStat.isSymbolicLink d = false
                          /\ DirentStat.isFile d = false
                          /\ DirentStat.isDirectory d = true
                          /\ JS.first_is "." (DirentStat.name d) = false
                          /\ JS.includes_char "." (DirentStat.name d) = true))
  /\ (In n (Buckets.UUIDDirectories dirents)
      <-> named (fun d => DirentStat.statError d = None
                          /\ DirentStat.isSymbolicLink d = false
                          /\ DirentStat.isFile d = false
                          /\ DirentStat.isDirectory d = true
                          /\ JS.includes_char "." (DirentStat.name d) = false
                          /\ UUIDRegex.test (DirentStat.name d) = true))
  /\ (In n (Buckets.normalDirectories dirents)
      <-> named (fun d => DirentStat.statError d = None
                          /\ DirentStat.isSymbolicLink d = false
                          /\ DirentStat.isFile d = false
                          /\ DirentStat.isDirectory d = true
                          /\ JS.includes_char "." (DirentStat.name d) = false
                          /\ UUIDRegex.test (DirentStat.name d) = false)).
Proof.
  intros named. subst named. cbv beta.
  unfold Buckets.brokenEntries, Buckets.symbolicLinks, Buckets.unknownEntries,
    Buckets.dotFiles, Buckets.normalFiles, Buckets.dotDirectories,
    Buckets.directoriesWithExtensions, Buckets.UUIDDirectories,
    Buckets.normalDirectories.
  rewrite !bucket_In.
  repeat split; intros (d & Hd & Hn & H); exists d;
    (split; [exact Hd|]); (split; [exact Hn|]);
    destruct (lands_in_attributes d)
      as (H0 & H1 & H2 & H3 & H4 & H5 & H6 & H7 & H8);
    first [ now apply H0 | now apply H1 | now apply H2 | now apply H3
          | now apply H4 | now apply H5 | now apply H6 | now apply H7
          | now apply H8 ].
Qed.

(* ================================================================== *)
(** * The UUID pattern *)
(* ================================================================== *)

Lemma hexes_app n h r : hex_group n h -> UUIDRegex.hexes n (h ++ r) = Some r.
Proof.
  revert h. induction n as [|n IH]; intros h [Hlen Hhex].
  - destruct h; [reflexivity | discriminate].
  - destruct h as [|c h]; [discriminate|].
    cbn [all_hex] in Hhex. apply andb_true_iff in Hhex. destruct Hhex as [Hc Hh].
    cbn [String.append UUIDRegex.hexes]. rewrite Hc. apply IH.
    split; [|exact Hh]. cbn [String.length] in Hlen. lia.
Qed.

Lemma hexes_split n s r :
  UUIDRegex.hexes n s = Some r -> exists h, s = (h ++ r)%string /\ hex_group n h.
Proof.
  revert s. induction n as [|n IH]; intros s H.
  - cbn [UUIDRegex.hexes] in H. apply Some_eq in H. subst r.
    exists EmptyString. repeat split.
  - destruct s as [|c s]; cbn [UUIDRegex.hexes] in H; [discriminate|].
    destruct (UUIDRegex.hex c) eqn:Hc; [|discriminate].
    destruct (IH _ H) as (h & -> & Hlen & Hhex).
    exists (String c h). split; [reflexivity|]. split.
    + cbn [String.length]. now rewrite Hlen.
    + cbn [all_hex]. now rewrite Hc, Hhex.
Qed.

Lemma cont_split n o r :
  UUIDRegex.cont n o = Some r ->
  exists h, o = Some (h ++ r)%string /\ hex_group n h.
Proof.
  destruct o as [s|]; [|discriminate]. cbn [UUIDRegex.cont]. intros H.
  destruct (hexes_split _ _ _ H) as (h & -> & Hh). eauto.
Qed.

Lemma dash_split o r :
  UUIDRegex.dash o = Some r -> o = Some ("-" ++ r)%string.
Proof.
  destruct o as [[|c s]|]; try discriminate. cbn [UUIDRegex.dash].
  destruct (Ascii.eqb_spec c "-") as [->|Hc].
  - intros H. apply Some_eq in H. now subst.
  - intros H. exfalso.
    destruct c as [[] [] [] [] [] [] [] []]; try discriminate H.
    now apply Hc.
Qed.

Lemma at_end_split o : UUIDRegex.at_end o = true -> o = Some EmptyString.
Proof. destruct o as [[|c s]|]; try discriminate. reflexivity. Qed.

Lemma append_empty_r s : (s ++ "")%string = s.
Proof. induction s as [|c s IH]; [reflexivity|]. cbn [String.append]. now rewrite IH. Qed.

(** The pattern accepts the UUID shapes and nothing else. *)
Lemma UUID_test_iff (name : string) :
  UUIDRegex.test name = true <-> uuid_shaped name.
Proof.
  unfold UUIDRegex.test, uuid_shaped. rewrite orb_true_iff. split.
  - intros [H|H]; [left|right].
    + apply at_end_split in H.
      apply cont_split in H. destruct H as (e & H & He). rewrite append_empty_r in H.
      apply dash_split in H.
      apply cont_split in H. destruct H as (d & H & Hd).
      apply dash_split in H.
      apply cont_split in H. destruct H as (c & H & Hc).
      apply dash_split in H.
      apply cont_split in H. destruct H as (b & H & Hb).
      apply dash_split in H.
      apply hexes_split in H. destruct H as (a & H & Ha).
      exists a, b, c, d, e. split; [exact H|].
      repeat (split; [assumption|]). assumption.
    + apply at_end_split in H. apply hexes_split in H.
      destruct H as (h & H & Hh). rewrite append_empty_r in H. now subst.
  - intros [(a & b & c & d & e & -> & Ha & Hb & Hc & Hd & He)|H]; [left|right].
    + rewrite (hexes_app _ _ _ Ha). cbn [UUIDRegex.dash String.append UUIDRegex.cont].
      rewrite (hexes_app _ _ _ Hb). cbn [UUIDRegex.dash String.append UUIDRegex.cont].
      rewrite (hexes_app _ _ _ Hc). cbn [UUIDRegex.dash String.append UUIDRegex.cont].
      rewrite (hexes_app _ _ _ Hd). cbn [UUIDRegex.dash String.append UUIDRegex.cont].
      rewrite <- (append_empty_r e), (hexes_app _ _ _ He). reflexivity.
    + rewrite <- (append_empty_r name), (hexes_app _ _ _ H). reflexivity.
Qed.

Lemma includes_char_app c a b :
  JS.includes_char c (a ++ b) = JS.includes_char c a || JS.includes_char c b.
Proof.
  induction a as [|x a IH]; [reflexivity|].
  cbn [String.append JS.includes_char]. now rewrite IH, orb_assoc.
Qed.

Lemma all_hex_no_dot h : all_hex h = true -> JS.includes_char "." h = false.
Proof.
  induction h as [|c h IH]; [reflexivity|].
  cbn [all_hex JS.includes_char]. intros H. apply andb_true_iff in H.
  destruct H as [Hc Hh]. rewrite (IH Hh), orb_false_r.
  destruct (Ascii.eqb_spec c ".") as [->|]; [discriminate Hc | reflexivity].
Qed.

(** A name the UUID pattern accepts has no dot. *)
Lemma UUID_no_dot n : UUIDRegex.test n = true -> JS.includes_char "." n = false.
Proof.
  intros H. apply (proj1 (UUID_test_iff n)) in H.
  destruct H as [(a & b & c & d & e & -> & Ha & Hb & Hc & Hd & He)|[_ H]].
  - rewrite !includes_char_app.
    rewrite (all_hex_no_dot _ (proj2 Ha)), (all_hex_no_dot _ (proj2 Hb)),
      (all_hex_no_dot _ (proj2 Hc)), (all_hex_no_dot _ (proj2 Hd)),
      (all_hex_no_dot _ (proj2 He)).
    reflexivity.
  - now apply all_hex_no_dot.
Qed.

Lemma length_append a b :
  String.length (a ++ b) = String.length a + String.length b.
Proof.
  induction a as [|c a IH]; [reflexivity|].
  cbn [String.append String.length]. now rewrite IH.
Qed.

Lemma uuid_shaped_length n :
  uuid_shaped n -> String.length n = 36 \/ String.length n = 32.
Proof.
  intros [(a & b & c & d & e & -> & Ha & Hb & Hc & Hd & He)|[H _]];
    [left | right; exact H].
  rewrite !length_append.
  rewrite (proj1 Ha), (proj1 Hb), (proj1 Hc), (proj1 Hd), (proj1 He).
  reflexivity.
Qed.

(** X3. The names the UUID pattern of [processDirents] accepts are the
    strings of 32 hexadecimal digits and the strings of five groups of
    8, 4, 4, 4 and 12 hexadecimal digits with one dash between two
    groups, the digits being [0-9], [A-F] and [a-f].  Such a name has 32
    or 36 characters and no dot. *)
Theorem UUIDRegex_test_shape (name : string) :
  (UUIDRegex.test name = true <-> uuid_shaped name)
  /\ (UUIDRegex.test name = true ->
      (String.length name = 36 \/ String.length name = 32)
      /\ JS.includes_char "." name = false).
Proof.
  split; [apply UUID_test_iff|]. intros H. split.
  - apply uuid_shaped_length, UUID_test_iff, H.
  - apply UUID_no_dot, H.
Qed.

(* ================================================================== *)
(** * The directories the program descends into *)
(* ================================================================== *)

(** X4. [whichDirectories]: the names the program descends into are the
    names of the entries that are directories and not files, not
    symbolic links and without a stat error; without the option [-d],
    those of them whose name neither starts with a dot nor has the shape
    of a UUID. *)
Theorem recursion_candidates (followdot : bool) (dirents : list DirentStat.t)
        (n : string) :
  In n (Explorer.whichDirectories followdot dirents)
  <-> exists d, In d dirents /\ DirentStat.name d = n
                /\ DirentStat.statError d = None
                /\ DirentStat.isSymbolicLink d = false
                /\ DirentStat.isFile d = false
                /\ DirentStat.isDirectory d = true
                /\ (followdot = true
                    \/ (JS.first_is "." n = false /\ UUIDRegex.test n = false)).
Proof.
  unfold Explorer.whichDirectories, Buckets.normalDirectories,
    Buckets.directoriesWithExtensions, Buckets.dotDirectories,
    Buckets.UUIDDirectories.
  rewrite !in_app_iff. split.
  - assert (Hlive : forall i, In n (bucket i dirents) ->
              forall P : DirentStat.t -> Prop,
                (forall d, DirentStat.name d = n -> lands_in i d -> P d) ->
                exists d, In d dirents /\ DirentStat.name d = n /\ P d).
    { intros i Hi P HP. apply bucket_In in Hi.
      destruct Hi as (d & Hd & Hn & Hl). exists d. auto. }
    intros [H|[H|H]].
    + apply (Hlive _ H). intros d Hn Hl. subst n.
      destruct (lands_in_attributes d)
        as (_ & _ & _ & _ & _ & H5 & H6 & H7 & H8).
      apply H8 in Hl.
      destruct Hl as (He & Hs & Hf & Hd & Hdot & Hu).
      repeat (split; [assumption|]). right.
      split; [now apply first_is_includes_char | exact Hu].
    + apply (Hlive _ H). intros d Hn Hl. subst n.
      destruct (lands_in_attributes d)
        as (_ & _ & _ & _ & _ & H5 & H6 & H7 & H8).
      apply H6 in Hl.
      destruct Hl as (He & Hs & Hf & Hd & Hfirst & Hdot).
      repeat (split; [assumption|]). right. split; [exact Hfirst|].
      destruct (UUIDRegex.test (DirentStat.name d)) eqn:Hu; [|reflexivity].
      apply UUID_no_dot in Hu. congruence.
    + destruct followdot; [|destruct H].
      apply in_app_iff in H. destruct H as [H|H].
      * apply (Hlive _ H). intros d Hn Hl. subst n.
        destruct (lands_in_attributes d)
        as (_ & _ & _ & _ & _ & H5 & H6 & H7 & H8).
      apply H5 in Hl.
        destruct Hl as (He & Hs & Hf & Hd & Hfirst).
        repeat (split; [assumption|]). now left.
      * apply (Hlive _ H). intros d Hn Hl. subst n.
        destruct (lands_in_attributes d)
        as (_ & _ & _ & _ & _ & H5 & H6 & H7 & H8).
      apply H7 in Hl.
        destruct Hl as (He & Hs & Hf & Hd & Hdot & Hu).
        repeat (split; [assumption|]). now left.
  - intros (d & Hin & Hn & He & Hs & Hf & Hd & Hopt). subst n.
    rewrite !bucket_In.
    destruct (lands_in_attributes d)
      as (_ & _ & _ & _ & _ & H5 & H6 & H7 & H8).
    destruct (JS.first_is "." (DirentStat.name d)) eqn:Hfirst.
    + destruct Hopt as [->|[Hopt _]]; [|discriminate].
      right. right. apply in_app_iff. left. rewrite bucket_In.
      exists d. repeat split; try assumption. apply H5. auto.
    + destruct (JS.includes_char "." (DirentStat.name d)) eqn:Hdot.
      * right. left. exists d. repeat split; try assumption. apply H6. auto 7.
      * destruct (UUIDRegex.test (DirentStat.name d)) eqn:Hu.
        -- destruct Hopt as [->|[_ Hopt]]; [|discriminate].
           right. right. apply in_app_iff. right. rewrite bucket_In.
           exists d. repeat split; try assumption. apply H7. auto 7.
        -- left. exists d. repeat split; try assumption. apply H8. auto 7.
Qed.

(* ================================================================== *)
(** * More on the extension tabulator *)
(* ================================================================== *)

Lemma assign_sum obj k v :
  list_sum (map snd (assign obj k v)) + match lookup obj k with
                                        | Some n => n
                                        | None => 0
                                        end
  = list_sum (map snd obj) + v.
Proof.
  induction obj as [|[k0 v0] rest IH]; cbn [assign lookup].
  - simpl. lia.
  - destruct (String.eqb k0 k); simpl in *; lia.
Qed.

Lemma count_step_sum foldcase obj str :
  list_sum (map snd (count_step foldcase obj str)) = list_sum (map snd obj) + 1.
Proof.
  rewrite count_step_eq.
  set (lcs := if foldcase then JS.toLowerCase str else str).
  pose proof (assign_sum obj lcs (match lookup obj lcs with
                                  | Some n => n + 1
                                  | None => 1
                                  end)) as H.
  destruct (lookup obj lcs); lia.
Qed.

Lemma count_loop_sum foldcase array obj :
  list_sum (map snd (fold_left (count_step foldcase) array obj))
  = list_sum (map snd obj) + List.length array.
Proof.
  revert obj. induction array as [|x array IH]; intros obj; cbn [fold_left List.length].
  - lia.
  - rewrite IH, count_step_sum. lia.
Qed.

Lemma count_loop_lookup foldcase array obj k :
  match lookup (fold_left (count_step foldcase) array obj) k with
  | Some n => n
  | None => 0
  end
  = match lookup obj k with Some n => n | None => 0 end
    + count_occ string_dec
        (map (fun str => if foldcase then JS.toLowerCase str else str) array) k.
Proof.
  revert obj. induction array as [|x array IH]; intros obj;
    cbn [fold_left map count_occ].
  - lia.
  - rewrite IH, count_step_eq, lookup_assign.
    set (lcs := if foldcase then JS.toLowerCase x else x).
    destruct (String.eqb_spec lcs k) as [->|Hne].
    + destruct (string_dec k k) as [_|Hkk]; [|now elim Hkk].
      destruct (lookup obj k); lia.
    + destruct (string_dec lcs k) as [Heq|_]; [now elim Hne|]. reflexivity.
Qed.

(** The value at a key is the number of its occurrences. *)
Lemma count_lookup array foldcase k :
  lookup (countArrayFieldsToObject array foldcase) k
  = match count_occ string_dec
            (map (fun str => if foldcase then JS.toLowerCase str else str) array) k
    with
    | O => None
    | S n => Some (S n)
    end.
Proof.
  pose proof (count_loop_lookup foldcase array [] k) as Hc.
  rewrite <- countArrayFieldsToObject_loop in Hc. cbn [lookup] in Hc.
  pose proof (count_keys_In array foldcase k) as Hk.
  pose proof (lookup_None (countArrayFieldsToObject array foldcase) k) as Hn.
  destruct (count_occ string_dec
              (map (fun str => if foldcase then JS.toLowerCase str else str) array) k)
    as [|c] eqn:E.
  - apply Hn. rewrite Hk. apply (count_occ_not_In string_dec). exact E.
  - destruct (lookup (countArrayFieldsToObject array foldcase) k) as [v|].
    + now subst v.
    + exfalso. apply (proj1 Hn eq_refl). apply Hk.
      apply (count_occ_In string_dec). rewrite E. lia.
Qed.

Lemma toLowerCase_extension_shaped s :
  extension_shaped s -> extension_shaped (JS.toLowerCase s).
Proof.
  intros [->|[rest ->]]; [left; reflexivity|].
  right. exists (JS.toLowerCase rest). reflexivity.
Qed.

(** The two arrays [processDirents] calls [countArrayFieldsToObject]
    with hold extensions. *)
Lemma fileExtensions_extension_shaped dirents :
  Forall extension_shaped (Buckets.fileExtensions dirents).
Proof.
  apply Forall_forall. intros x Hx. unfold Buckets.fileExtensions in Hx.
  apply in_map_iff in Hx. destruct Hx as (n & <- & _). apply extname_shape.
Qed.

Lemma dirExtensions_extension_shaped dirents :
  Forall extension_shaped (Buckets.dirExtensions dirents).
Proof.
  apply Forall_forall. intros x Hx. unfold Buckets.dirExtensions in Hx.
  apply in_map_iff in Hx. destruct Hx as (n & <- & _). apply extname_shape.
Qed.

(** X5. [countArrayFieldsToObject] on an array of extensions (strings
    that are empty or start with a dot, as the two arrays that
    [processDirents] passes are): the table has one key for each string
    that occurs in the array (folded to lower case when [foldcase] is
    set), no key twice; the value at a key is the number of times it
    occurs; the values add up to the length of the array; and every key
    is an extension again, so that none is a name that [{}] inherits. *)
Theorem countArrayFieldsToObject_counts (array : list string) (foldcase : bool) :
  Forall extension_shaped array ->
  let key := fun str => if foldcase then JS.toLowerCase str else str in
  let obj := countArrayFieldsToObject array foldcase in
  (forall k, lookup obj k
             = match count_occ string_dec (map key array) k with
               | O => None
               | S n => Some (S n)
               end)
  /\ (forall k, In k (keys obj) <-> In k (map key array))
  /\ NoDup (keys obj)
  /\ list_sum (map snd obj) = List.length array
  /\ Forall extension_shaped (keys obj).
Proof.
  intros Hshape key obj. subst key obj. split; [|split; [|split; [|split]]].
  - intros k. apply count_lookup.
  - intros k. apply count_keys_In.
  - apply count_keys_NoDup.
  - rewrite countArrayFieldsToObject_loop, count_loop_sum. reflexivity.
  - apply Forall_forall. intros k Hk. apply count_keys_In in Hk.
    apply in_map_iff in Hk. destruct Hk as (x & <- & Hx).
    pose proof (proj1 (Forall_forall _ _) Hshape x Hx) as Hs.
    destruct foldcase; [now apply toLowerCase_extension_shaped | exact Hs].
Qed.

Lemma countArrayFieldsToObject_counts_witness :
  Forall extension_shaped [".txt"; ".TXT"; ".md"; ""]
  /\ countArrayFieldsToObject [".txt"; ".TXT"; ".md"; ""] true
     = [(".txt", 2); (".md", 1); ("", 1)]
  /\ list_sum (map snd (countArrayFieldsToObject [".txt"; ".TXT"; ".md"; ""] true))
     = 4.
Proof.
  assert (H : Forall extension_shaped [".txt"; ".TXT"; ".md"; ""]).
  { repeat (apply Forall_cons;
              [first [ left; reflexivity | right; eexists; reflexivity ]|]).
    apply Forall_nil. }
  split; [exact H|]. split; [reflexivity|].
  apply (proj1 (proj2 (proj2 (proj2
           (countArrayFieldsToObject_counts [".txt"; ".TXT"; ".md"; ""] true H))))).
Defined.

(* ================================================================== *)
(** * What a collection report tells *)
(* ================================================================== *)

Lemma some_class_Some classes distinct fileExtensions r :
  Collections.some_class classes distinct fileExtensions = Some r ->
  exists e, In e classes /\ Collections.covers e distinct = true
            /\ r = ("a collection of "
                      ++ JS.nat_to_string (List.length fileExtensions)
                      ++ " " ++ Collections.name e ++ " files")%string.
Proof.
  induction classes as [|e classes IH]; cbn [Collections.some_class].
  - discriminate.
  - destruct (Collections.covers e distinct) eqn:Hc.
    + intros H. apply Some_eq in H. exists e. split; [now left|]. auto.
    + intros H. destruct (IH H) as (e' & Hin & H'). exists e'.
      split; [now right | exact H'].
Qed.

Lemma count_keys_length array foldcase :
  List.length (keys (countArrayFieldsToObject array foldcase)) <= List.length array.
Proof.
  rewrite <- (length_map (fun str => if foldcase then JS.toLowerCase str else str) array).
  apply NoDup_incl_length; [apply count_keys_NoDup|].
  intros k Hk. now apply count_keys_In.
Qed.

Lemma checkForCollections_Some fileExtensions r :
  Collections.checkForCollections
    (countArrayFieldsToObject fileExtensions true) fileExtensions = Some r ->
  2 <= List.length fileExtensions
  /\ exists kind,
      r = ("a collection of " ++ JS.nat_to_string (List.length fileExtensions)
             ++ " " ++ kind ++ " files")%string
      /\ ((forall x, In x fileExtensions -> JS.toLowerCase x = kind)
          \/ exists e, In e Collections.extensions
                       /\ Collections.name e = kind
                       /\ forall x, In x fileExtensions ->
                                    In (JS.toLowerCase x) (Collections.exts e)).
Proof.
  intros H.
  destruct (keys (countArrayFieldsToObject fileExtensions true))
    as [|k [|k' ks]] eqn:Hk.
  - destruct (countArrayFieldsToObject fileExtensions true); [|discriminate Hk].
    discriminate H.
  - destruct (count_one_key _ _ Hk) as [Hne Hall].
    rewrite (count_single _ _ Hne Hall), checkForCollections_one_key in H.
    destruct (1 <? List.length fileExtensions) eqn:Hn; [|discriminate H].
    apply Nat.ltb_lt in Hn. apply Some_eq in H. split; [lia|].
    exists k. split; [now symmetry | now left].
  - pose proof (count_keys_length fileExtensions true) as Hlen.
    rewrite checkForCollections_more_keys in H
      by (rewrite Hk; cbn [List.length]; lia).
    rewrite Hk in Hlen. cbn [List.length] in Hlen. split; [lia|].
    apply some_class_Some in H. destruct H as (e & Hin & Hc & ->).
    exists (Collections.name e). split; [reflexivity|]. right.
    exists e. split; [exact Hin|]. split; [reflexivity|].
    apply covers_iff. exact Hc.
Qed.

(** X6. Whatever [checkForCollections] reports for a listing, there are
    at least two normal files whose name has a dot, the report is
    ["a collection of N <kind> files"] with N the number of these files,
    and [<kind>] is either the one extension all of them fold to, or the
    name of a class of the table that holds the folded extension of each
    of them. *)
Theorem collection_report_sound (dirents : list DirentStat.t) (r : string) :
  foundCollectionOf dirents = Some r ->
  let N := List.length (filter (fun n => JS.includes_char "." n)
                               (Buckets.normalFiles dirents)) in
  2 <= N
  /\ exists kind,
      r = ("a collection of " ++ JS.nat_to_string N ++ " " ++ kind ++ " files")%string
      /\ ((forall x, In x (Buckets.fileExtensions dirents) ->
                     JS.toLowerCase x = kind)
          \/ exists e, In e Collections.extensions
                       /\ Collections.name e = kind
                       /\ forall x, In x (Buckets.fileExtensions dirents) ->
                                    In (JS.toLowerCase x) (Collections.exts e)).
Proof.
  intros H N. subst N. unfold foundCollectionOf in H.
  apply checkForCollections_Some in H.
  unfold Buckets.fileExtensions in H at 1 2. rewrite !length_map in H.
  exact H.
Qed.

Lemma collection_report_sound_witness :
  foundCollectionOf [a_file "a.JPG"; a_file "b.png"; a_file "notes"]
  = Some "a collection of 2 image files"
  /\ 2 <= 2
  /\ exists kind,
      "a collection of 2 image files"
      = ("a collection of " ++ JS.nat_to_string 2 ++ " " ++ kind ++ " files")%string
      /\ ((forall x, In x (Buckets.fileExtensions
                             [a_file "a.JPG"; a_file "b.png"; a_file "notes"]) ->
                     JS.toLowerCase x = kind)
          \/ exists e, In e Collections.extensions
                       /\ Collections.name e = kind
                       /\ forall x, In x (Buckets.fileExtensions
                                            [a_file "a.JPG"; a_file "b.png";
                                             a_file "notes"]) ->
                                    In (JS.toLowerCase x) (Collections.exts e)).
Proof.
  split; [vm_compute; reflexivity|].
  apply (collection_report_sound
           [a_file "a.JPG"; a_file "b.png"; a_file "notes"]
           "a collection of 2 image files").
  vm_compute. reflexivity.
Defined.

(* ================================================================== *)
(** * The order of the listing *)
(* ================================================================== *)

Lemma filter_Permutation {A : Type} (f : A -> bool) (l l' : list A) :
  Permutation l l' -> Permutation (filter f l) (filter f l').
Proof.
  induction 1 as [|x l l' _ IH|x y l|l l' l'' _ IH1 _ IH2]; cbn [filter].
  - constructor.
  - destruct (f x); [now constructor | exact IH].
  - destruct (f x), (f y); try apply Permutation_refl. apply perm_swap.
  - now transitivity (filter f l').
Qed.

Lemma bucket_Permutation i l l' :
  Permutation l l' -> Permutation (bucket i l) (bucket i l').
Proof.
  intros H. rewrite !bucket_filter.
  now apply Permutation_map, filter_Permutation.
Qed.

Lemma fileExtensions_Permutation l l' :
  Permutation l l' ->
  Permutation (Buckets.fileExtensions l) (Buckets.fileExtensions l').
Proof.
  intros H. unfold Buckets.fileExtensions, Buckets.normalFiles.
  now apply Permutation_map, filter_Permutation, bucket_Permutation.
Qed.

Lemma dirExtensions_Permutation l l' :
  Permutation l l' ->
  Permutation (Buckets.dirExtensions l) (Buckets.dirExtensions l').
Proof.
  intros H. unfold Buckets.dirExtensions, Buckets.directoriesWithExtensions.
  now apply Permutation_map, bucket_Permutation.
Qed.

Lemma haystacksOf_Permutation haystack l l' :
  known_haystack haystack -> Permutation l l' ->
  Permutation (haystack (haystacksOf l)) (haystack (haystacksOf l')).
Proof.
  intros Hk H. destruct Hk; cbn [haystacksOf AutoIdentify.normalDirectories
    AutoIdentify.dotDirectories AutoIdentify.dirExtensions
    AutoIdentify.normalFiles AutoIdentify.dotFiles AutoIdentify.fileExtensions
    AutoIdentify.symbolicLinks];
    first [ now apply bucket_Permutation
          | now apply fileExtensions_Permutation
          | now apply dirExtensions_Permutation ].
Qed.

Lemma haystacksOf_Permutation_incl l l' :
  Permutation l l' -> haystacks_incl (haystacksOf l) (haystacksOf l').
Proof.
  intros H. unfold haystacks_incl.
  repeat split; intros n Hn;
    eapply Permutation_in; try exact Hn;
    first [ apply (haystacksOf_Permutation _ l l' known_normalDirectories H)
          | apply (haystacksOf_Permutation _ l l' known_dotDirectories H)
          | apply (haystacksOf_Permutation _ l l' known_dirExtensions H)
          | apply (haystacksOf_Permutation _ l l' known_normalFiles H)
          | apply (haystacksOf_Permutation _ l l' known_dotFiles H)
          | apply (haystacksOf_Permutation _ l l' known_fileExtensions H)
          | apply (haystacksOf_Permutation _ l l' known_symbolicLinks H) ].
Qed.

Lemma bool_eq_iff (a b : bool) : (a = true <-> b = true) -> a = b.
Proof.
  destruct a, b; intros [H1 H2]; auto.
  - symmetry. now apply H1.
Qed.

Lemma answersOf_Permutation l l' :
  Permutation l l' -> answersOf l = answersOf l'.
Proof.
  intros H. rewrite !answersOf_run, !run_filter. f_equal.
  apply filter_ext_in. intros e He. apply bool_eq_iff. split.
  - apply every_step_monotone; [exact He|]. now apply haystacksOf_Permutation_incl.
  - apply every_step_monotone; [exact He|].
    now apply haystacksOf_Permutation_incl, Permutation_sym.
Qed.

Lemma includes_Permutation strings strings' str :
  Permutation strings strings' -> includes strings str = includes strings' str.
Proof.
  intros H. apply bool_eq_iff. rewrite !includes_true.
  split; intros (s0 & rest & E & Hin); exists s0, rest; (split; [exact E|]).
  - now apply (Permutation_in _ H).
  - now apply (Permutation_in _ (Permutation_sym H)).
Qed.

Lemma notesOf_Permutation l l' :
  Permutation l l' -> notesOf l = notesOf l'.
Proof.
  intros H. unfold notesOf. rewrite !checkAdditionalNotes_cases.
  unfold Buckets.dotDirectories, Buckets.normalFiles, Buckets.dotFiles.
  rewrite !(includes_Permutation _ _ _ (bucket_Permutation 5 l l' H)),
    (includes_Permutation _ _ _ (bucket_Permutation 4 l l' H)),
    (includes_Permutation _ _ _ (bucket_Permutation 3 l l' H)).
  reflexivity.
Qed.

Lemma count_lookup_Permutation a a' foldcase k :
  Permutation a a' ->
  lookup (countArrayFieldsToObject a foldcase) k
  = lookup (countArrayFieldsToObject a' foldcase) k.
Proof.
  intros H. rewrite !count_lookup.
  now rewrite (proj1 (Permutation_count_occ string_dec _ _)
                 (Permutation_map _ H) k).
Qed.

Lemma count_keys_Permutation a a' foldcase :
  Permutation a a' ->
  Permutation (keys (countArrayFieldsToObject a foldcase))
              (keys (countArrayFieldsToObject a' foldcase)).
Proof.
  intros H. apply NoDup_Permutation; try apply count_keys_NoDup.
  intros k. rewrite !count_keys_In. split; apply Permutation_in.
  - now apply Permutation_map.
  - now apply Permutation_map, Permutation_sym.
Qed.

Lemma covers_Permutation e distinct distinct' :
  Permutation distinct distinct' ->
  Collections.covers e distinct = Collections.covers e distinct'.
Proof.
  intros H. apply bool_eq_iff. unfold Collections.covers.
  rewrite !forallb_forall. split; intros Hall v Hv; apply Hall.
  - now apply (Permutation_in _ (Permutation_sym H)).
  - now apply (Permutation_in _ H).
Qed.

Lemma some_class_Permutation classes distinct distinct' fe fe' :
  Permutation distinct distinct' -> List.length fe = List.length fe' ->
  Collections.some_class classes distinct fe
  = Collections.some_class classes distinct' fe'.
Proof.
  intros Hd Hl. induction classes as [|e classes IH];
    cbn [Collections.some_class]; [reflexivity|].
  rewrite (covers_Permutation e _ _ Hd), Hl, IH. reflexivity.
Qed.

Lemma checkForCollections_Permutation a a' :
  Permutation a a' ->
  Collections.checkForCollections (countArrayFieldsToObject a true) a
  = Collections.checkForCollections (countArrayFieldsToObject a' true) a'.
Proof.
  intros H. pose proof (count_keys_Permutation a a' true H) as Hk.
  unfold Collections.checkForCollections. cbv zeta.
  rewrite <- (Permutation_length Hk).
  destruct (List.length (keys (countArrayFieldsToObject a true)) =? 1) eqn:E1.
  - apply Nat.eqb_eq in E1.
    destruct (keys (countArrayFieldsToObject a true)) as [|k [|? ?]] eqn:Ek;
      try discriminate E1.
    apply Permutation_length_1_inv in Hk. rewrite Hk. cbn [nth].
    now rewrite (count_lookup_Permutation a a' true k H).
  - destruct (0 <? List.length (keys (countArrayFieldsToObject a true)));
      [|reflexivity].
    apply some_class_Permutation; [exact Hk | now apply Permutation_length].
Qed.

Lemma foundCollectionOf_Permutation l l' :
  Permutation l l' -> foundCollectionOf l = foundCollectionOf l'.
Proof.
  intros H. unfold foundCollectionOf.
  now apply checkForCollections_Permutation, fileExtensions_Permutation.
Qed.

(** X7. What [processDirents] finds out about a directory does not
    depend on the order in which the entries are listed: the matched
    signatures, the collection report, the notes and whether the
    directory is identified are the same for two listings with the same
    entries. *)
Theorem identification_order_independent (dirents dirents' : list DirentStat.t) :
  Permutation dirents dirents' ->
  answersOf dirents = answersOf dirents'
  /\ foundCollectionOf dirents = foundCollectionOf dirents'
  /\ notesOf dirents = notesOf dirents'
  /\ identifiedOf dirents = identifiedOf dirents'.
Proof.
  intros H. split; [now apply answersOf_Permutation|].
  split; [now apply foundCollectionOf_Permutation|].
  split; [now apply notesOf_Permutation|].
  unfold identifiedOf.
  now rewrite (Permutation_length H), (answersOf_Permutation _ _ H),
    (foundCollectionOf_Permutation _ _ H).
Qed.

Lemma identification_order_independent_witness :
  Permutation [a_file "go.mod"; a_directory "src"; a_directory ".git"]
              [a_directory ".git"; a_directory "src"; a_file "go.mod"]
  /\ answersOf [a_file "go.mod"; a_directory "src"; a_directory ".git"]
     = answersOf [a_directory ".git"; a_directory "src"; a_file "go.mod"].
Proof.
  assert (P : Permutation
                [a_file "go.mod"; a_directory "src"; a_directory ".git"]
                [a_directory ".git"; a_directory "src"; a_file "go.mod"]).
  { apply (perm_trans (perm_swap _ _ _)).
    apply (perm_trans (perm_skip _ (perm_swap _ _ _))).
    apply (perm_trans (perm_swap _ _ _)).
    apply Permutation_refl. }
  split; [exact P|].
  apply (proj1 (identification_order_independent _ _ P)).
Defined.

(* ================================================================== *)
(** * The command line as a whole *)
(* ================================================================== *)

Lemma split_from_hd sep cur s :
  exists x rest, JS.split_from sep cur s = x :: rest
                 /\ String.length cur <= String.length x.
Proof.
  revert cur. induction s as [|a s IH]; intros cur; cbn [JS.split_from].
  - exists cur, []. auto.
  - destruct (Ascii.eqb a sep).
    + exists cur, (JS.split_from sep "" s). auto.
    + destruct (IH (cur ++ String a "")%string) as (x & rest & E & Hlen).
      exists x, rest. split; [exact E|].
      rewrite length_append in Hlen. lia.
Qed.

Lemma eqb_length_false s t :
  String.length s <> String.length t -> String.eqb s t = false.
Proof.
  intros H. destruct (String.eqb_spec s t) as [->|]; [now elim H | reflexivity].
Qed.

Lemma depth_of_m V :
  depth_of ("-m=" ++ V)
  = if JS.strict_eq (JS.parseInt10 V) (JS.Number V)
    then Some (JS.Number V) else None.
Proof. reflexivity. Qed.

(** One argument: what it does to the three options and to the
    paths. *)
Lemma processArg_spec o args arg :
  processArg (o, args) arg
  = (mkOptions (match depth_of arg with Some v => v | None => MAXDEPTH o end)
               (VERBOSE o || String.eqb arg "-v")
               (FOLLOWDOT o || String.eqb arg "-d"),
     if JS.first_is "-" arg then args else args ++ [arg]).
Proof.
  destruct o as [m v f]. cbn [MAXDEPTH VERBOSE FOLLOWDOT].
  destruct arg as [|a0 r0].
  - cbn. now rewrite !orb_false_r.
  - destruct (Ascii.eqb_spec a0 "-") as [->|Hne].
    + destruct r0 as [|a1 [|a2 V]].
      * cbn. now rewrite !orb_false_r.
      * destruct a1 as [[] [] [] [] [] [] [] []]; cbn;
          rewrite ?orb_false_r, ?orb_true_r; reflexivity.
      * rewrite !(eqb_length_false (String "-" (String a1 (String a2 V))))
          by (cbn [String.length]; lia).
        rewrite !orb_false_r.
        change (JS.first_is "-" (String "-" (String a1 (String a2 V)))) with true.
        cbv iota.
        destruct (Ascii.eqb_spec a1 "m") as [->|H1];
          [destruct (Ascii.eqb_spec a2 "=") as [->|H2]|].
        -- change (String "-" (String "m" (String "=" V))) with ("-m=" ++ V)%string.
           rewrite processArg_m, depth_of_m.
           cbn [MAXDEPTH VERBOSE FOLLOWDOT].
           destruct (JS.includes_char "=" V) eqn:Hinc.
           ++ rewrite (Number_with_equals V Hinc), strict_eq_NaN.
              pose proof (split_from_sep "=" "" V Hinc) as Hlen.
              unfold JS.split.
              destruct (JS.split_from "=" "" V) as [|k1 [|k2 rest]];
                cbn [List.length] in Hlen; try lia; reflexivity.
           ++ unfold JS.split. rewrite (split_from_no_sep _ _ _ Hinc).
              cbn [String.append].
              destruct (JS.strict_eq (JS.parseInt10 V) (JS.Number V)); reflexivity.
        -- unfold processArg, depth_of.
           change (JS.first_is "-" (String "-" (String "m" (String a2 V)))) with true.
           cbv iota. cbn [String.length Nat.eqb].
           rewrite (proj2 (Ascii.eqb_neq _ _) H2).
           change (Ascii.eqb "-" "-") with true. change (Ascii.eqb "m" "m") with true.
           cbn [andb]. unfold JS.split. cbn [JS.substring1 JS.split_from].
           change (Ascii.eqb "m" "=") with false. cbv iota.
           rewrite (proj2 (Ascii.eqb_neq _ _) H2). cbn [String.append].
           destruct (split_from_hd "=" (String "m" (String a2 "")) V)
             as (x & rest & -> & Hlen).
           cbn [String.length] in Hlen.
           destruct rest as [|kv1 [|? ?]]; try reflexivity.
           destruct (String.length x =? 1) eqn:E; [|reflexivity].
           apply Nat.eqb_eq in E. lia.
        -- unfold processArg, depth_of.
           change (JS.first_is "-" (String "-" (String a1 (String a2 V)))) with true.
           cbv iota. cbn [String.length Nat.eqb].
           rewrite (proj2 (Ascii.eqb_neq _ _) H1), andb_false_r. cbn [andb].
           unfold JS.split. cbn [JS.substring1 JS.split_from].
           destruct (Ascii.eqb a1 "=").
           ++ destruct (if Ascii.eqb a2 "=" then _ else _) as [|kv1 [|? ?]];
                reflexivity.
           ++ cbn [String.append].
              destruct (Ascii.eqb a2 "=").
              ** destruct (JS.split_from "=" "" V) as [|kv1 [|? ?]];
                   try reflexivity.
                 cbn [String.length Nat.eqb].
                 destruct a1 as [[] [] [] [] [] [] [] []];
                   first [ reflexivity | now elim H1 ].
              ** destruct (split_from_hd "=" (String a1 (String a2 "")) V)
                   as (x & rest & -> & Hlen).
                 cbn [String.length] in Hlen.
                 destruct rest as [|kv1 [|? ?]]; try reflexivity.
                 destruct (String.length x =? 1) eqn:E; [|reflexivity].
                 apply Nat.eqb_eq in E. lia.
    + unfold processArg. cbn [JS.first_is].
      rewrite (proj2 (Ascii.eqb_neq _ _) Hne).
      assert (Hd : depth_of (String a0 r0) = None).
      { unfold depth_of. destruct r0 as [|a1 [|a2 V]]; try reflexivity.
        now rewrite (proj2 (Ascii.eqb_neq _ _) Hne). }
      rewrite Hd. cbn [String.eqb].
      rewrite (proj2 (Ascii.eqb_neq _ _) Hne), !orb_false_r. reflexivity.
Qed.

Lemma last_default {A : Type} (x : A) (l : list A) (d d' : A) :
  last (x :: l) d = last (x :: l) d'.
Proof.
  revert x. induction l as [|y l IH]; intros x; [reflexivity|].
  change (last (x :: y :: l) d) with (last (y :: l) d).
  change (last (x :: y :: l) d') with (last (y :: l) d').
  apply IH.
Qed.

Lemma last_cons {A : Type} (x : A) (l : list A) (d : A) :
  last (x :: l) d = last l x.
Proof.
  destruct l as [|y l]; [reflexivity|].
  change (last (x :: y :: l) d) with (last (y :: l) d). apply last_default.
Qed.

Lemma processCommandline_loop rest o args :
  fold_left processArg rest (o, args)
  = (mkOptions (last (depths rest) (MAXDEPTH o))
               (VERBOSE o || existsb (fun arg => String.eqb arg "-v") rest)
               (FOLLOWDOT o || existsb (fun arg => String.eqb arg "-d") rest),
     args ++ filter (fun arg => negb (JS.first_is "-" arg)) rest).
Proof.
  revert o args. induction rest as [|a rest IH]; intros o args.
  - destruct o as [m v f]. cbn [fold_left depths flat_map last existsb filter
                                MAXDEPTH VERBOSE FOLLOWDOT].
    now rewrite !orb_false_r, app_nil_r.
  - cbn [fold_left]. rewrite processArg_spec, IH.
    cbn [MAXDEPTH VERBOSE FOLLOWDOT existsb filter].
    rewrite !orb_assoc. f_equal.
    + f_equal. unfold depths. cbn [flat_map].
      destruct (depth_of a) as [x|]; [|reflexivity].
      cbn [app]. symmetry. apply last_cons.
    + destruct (JS.first_is "-" a); cbn [negb]; [reflexivity|].
      now rewrite <- app_assoc.
Qed.

(** X8. [processCommandline] as a whole, the first two elements of
    [argv] left aside: the paths are the arguments that do not start
    with a dash, in their order; [-v] and [-d] switch their option on
    wherever they stand and nothing switches it off; the depth is the
    one the last argument [-m=V] with a well-formed [V] asks for, and
    the earlier value without such an argument; every other argument
    with a dash (as [-vd], [--verbose], [-m], [-x]) changes
    nothing. *)
Theorem processCommandline_spec (o : options) (argv : list string) :
  let rest := skipn 2 argv in
  let r := processCommandline o argv in
  snd r = filter (fun arg => negb (JS.first_is "-" arg)) rest
  /\ VERBOSE (fst r) = VERBOSE o || existsb (fun arg => String.eqb arg "-v") rest
  /\ FOLLOWDOT (fst r)
     = FOLLOWDOT o || existsb (fun arg => String.eqb arg "-d") rest
  /\ MAXDEPTH (fst r) = last (depths rest) (MAXDEPTH o)
  /\ (forall arg,
         JS.first_is "-" arg = true -> arg <> "-v" -> arg <> "-d" ->
         depth_of arg = None ->
         forall args, processArg (o, args) arg = (o, args)).
Proof.
  intros rest r. subst rest r. unfold processCommandline.
  rewrite processCommandline_loop. cbn [fst snd MAXDEPTH VERBOSE FOLLOWDOT app].
  repeat split.
  intros arg Hdash Hv Hd Hm args. rewrite processArg_spec, Hdash, Hm.
  rewrite (proj2 (String.eqb_neq _ _) Hv), (proj2 (String.eqb_neq _ _) Hd).
  rewrite !orb_false_r. now destruct o.
Qed.

(* ================================================================== *)
(** * The tree of results *)
(* ================================================================== *)

Lemma every_node_children P l :
  fold_right (fun child rest => every_node P child /\ rest) True l
  <-> Forall (every_node P) l.
Proof.
  induction l as [|x l IH]; cbn [fold_right].
  - split; auto.
  - rewrite IH. split.
    + intros [Hx Hl]. now constructor.
    + intros H. inversion H; subst. auto.
Qed.

Lemma height_children l n :
  fold_right (fun child rest => Nat.max (S (height child)) rest) 0 l <= n
  <-> Forall (fun child => S (height child) <= n) l.
Proof.
  induction l as [|x l IH]; cbn [fold_right].
  - split; [constructor | lia].
  - split.
    + intros H. constructor; [lia|]. apply IH. lia.
    + intros H. inversion H as [|? ? Hx Hl]; subst. apply IH in Hl. lia.
Qed.

Section Tree.
Variable MAXDEPTH : Z.
Variables VERBOSE FOLLOWDOT : bool.
Variable lstat : string -> throws Stats.t.
Variable readdir : string -> throws (list Dirent.t).
Variable join : string -> string -> string.
Variable sortByName : list Dirent.t -> list Dirent.t.
Variable countObToString : extensionObject -> string.

Abbreviation tree_ok := (result_tree MAXDEPTH join).

Lemma leaf_tree_ok depth filename kind identified error :
  node_ok (Explorer.leaf filename kind identified error) ->
  tree_ok depth filename (Explorer.leaf filename kind identified error).
Proof.
  intros H. unfold result_tree, Explorer.leaf. cbn [every_node height].
  fields. repeat split; try exact H; try lia.
  intros children Hc. discriminate Hc.
Qed.

Lemma explore_tree_ok rec depth filename which children :
  (forall d f di, rec d f = Some di -> tree_ok d f di) ->
  Explorer.explore MAXDEPTH join rec depth filename which [] = Some children ->
  Forall (fun child =>
            (exists w, DirectoryInfo.name child = join filename w)
            /\ every_node node_ok child
            /\ every_node (children_named join) child
            /\ S (height child) <= Z.to_nat (MAXDEPTH - Z.of_nat depth))
         children.
Proof.
  intros Hrec Hex.
  destruct (Z.ltb_spec (Z.of_nat depth) MAXDEPTH) as [Hlt|Hge].
  - apply (explore_calls MAXDEPTH join rec depth filename which [] children Hlt)
      in Hex.
    destruct Hex as (results & -> & HF). cbn [app].
    induction HF as [|w res ws results Hres _ IH]; constructor; [|exact IH].
    destruct (Hrec _ _ _ Hres) as (Hn & Hok & Hnamed & Hh).
    split; [eauto|]. split; [exact Hok|]. split; [exact Hnamed|]. lia.
  - rewrite (explore_too_deep MAXDEPTH join rec depth filename which [] Hge) in Hex.
    apply Some_eq in Hex. subst children. constructor.
Qed.

Lemma processDirents_tree_ok rec depth filename dirents di :
  (forall d f di, rec d f = Some di -> tree_ok d f di) ->
  Explorer.processDirents MAXDEPTH VERBOSE FOLLOWDOT join countObToString
                          rec depth filename dirents = Some di ->
  tree_ok depth filename di.
Proof.
  intros Hrec. rewrite processDirents_eq.
  destruct (0 <? List.length dirents).
  - destruct (0 <? List.length (answersOf dirents)) eqn:Ha; cbn [negb].
    + intros H. apply Some_eq in H. subst di.
      unfold result_tree, node_ok, children_named. cbn [every_node height fold_right].
      fields. repeat split; try discriminate; try lia; eauto.
      * intros _. left. discriminate.
      * intros E. apply Some_eq in E. rewrite E in Ha. discriminate Ha.
      * intros children Hc. apply Some_eq in Hc. subst children. constructor.
    + destruct (foundCollectionOf dirents) as [c|] eqn:Hc; cbn [negb].
      * intros H. apply Some_eq in H. subst di.
        unfold result_tree, node_ok, children_named. cbn [every_node height fold_right].
        fields. repeat split; try discriminate; try lia; eauto.
        -- intros _. right. discriminate.
        -- intros children Hch. apply Some_eq in Hch. subst children. constructor.
      * destruct (Explorer.explore _ _ _ _ _ _ _) as [children|] eqn:Hex;
          [|discriminate].
        intros H. apply Some_eq in H. subst di.
        pose proof (explore_tree_ok rec depth filename _ children Hrec Hex) as HF.
        unfold result_tree, node_ok, children_named. cbn [every_node height].
        fields. split; [reflexivity|]. split; [|split].
        -- split.
           ++ repeat split; try discriminate; eauto.
              ** exists children. split; [reflexivity | discriminate].
              ** intros [H|H]; now elim H.
           ++ apply every_node_children. revert HF. apply Forall_impl.
              intros child H. apply H.
        -- split.
           ++ intros children' E. apply Some_eq in E. subst children'.
              revert HF. apply Forall_impl. intros child H. apply H.
           ++ apply every_node_children. revert HF. apply Forall_impl.
              intros child H. apply H.
        -- apply height_children. revert HF. apply Forall_impl.
           intros child H. apply H.
  - intros H. apply Some_eq in H. subst di.
    unfold result_tree, node_ok, children_named. cbn [every_node height fold_right].
    fields. repeat split; try discriminate; try lia; eauto.
    + intros [H|H]; now elim H.
    + intros children Hc. apply Some_eq in Hc. subst children. constructor.
Qed.

Lemma processFilename_tree_ok fuel depth filename di :
  Explorer.processFilename MAXDEPTH VERBOSE FOLLOWDOT lstat readdir join
                           sortByName countObToString fuel depth filename
  = Some di ->
  tree_ok depth filename di.
Proof.
  revert depth filename di; induction fuel as [|fuel IH]; intros depth filename di.
  - discriminate.
  - rewrite processFilename_unfold.
    assert (Hbare : forall kind identified error,
               bare (Explorer.leaf filename kind identified error))
      by (intros; repeat split).
    destruct (lstat filename) as [s|ex].
    + destruct (Stats.isDirectory s).
      * destruct (Explorer.readdirAndStat _ _ _ _ _ _) as [direntstats|ex].
        -- apply processDirents_tree_ok. exact IH.
        -- intros H. apply Some_eq in H. subst di. apply leaf_tree_ok.
           unfold node_ok. cbn [Explorer.leaf DirectoryInfo.kind].
           split; [reflexivity|]. split; [discriminate | apply Hbare].
      * destruct (Stats.isFile s); [|destruct (Stats.isSymbolicLink s)];
          intros H; apply Some_eq in H; subst di; apply leaf_tree_ok;
          unfold node_ok; cbn [Explorer.leaf DirectoryInfo.kind];
          (split; [reflexivity|]); (split; [reflexivity | apply Hbare]).
    + intros H. apply Some_eq in H. subst di. apply leaf_tree_ok.
      unfold node_ok. cbn [Explorer.leaf DirectoryInfo.kind].
      split; [reflexivity|]. split; [discriminate | apply Hbare].
Qed.

(** X9. [processFilename] returns for every path, whatever the file
    system answers, and its result does not depend on the fuel of the
    model.  The result is named by the path.  In it and in every result
    below it the fields hang together by the kind: a result for a
    directory has no error and a list of child results, which is empty
    when the directory is identified; it is identified exactly when it
    has answers or a collection report, never both, and the answers are
    not an empty list; the verbose summary comes with unidentified
    directories only.  A result of another kind has none of these
    fields; it has an error exactly when its kind is [Error]; a file
    and a symbolic link are identified, an error and an unknown entry
    are not. *)
Theorem result_tree_invariants fuel depth filename :
  Z.to_nat (MAXDEPTH - Z.of_nat depth) < fuel ->
  exists di,
    Explorer.processFilename MAXDEPTH VERBOSE FOLLOWDOT lstat readdir join
                             sortByName countObToString fuel depth filename
    = Some di
    /\ DirectoryInfo.name di = filename
    /\ every_node node_ok di
    /\ (forall fuel',
           Z.to_nat (MAXDEPTH - Z.of_nat depth) < fuel' ->
           Explorer.processFilename MAXDEPTH VERBOSE FOLLOWDOT lstat readdir join
                                    sortByName countObToString fuel' depth filename
           = Some di).
Proof.
  intros Hfuel.
  destruct (processFilename_returns MAXDEPTH VERBOSE FOLLOWDOT lstat readdir join
              sortByName countObToString fuel depth filename Hfuel) as (di & Hdi).
  exists di. split; [exact Hdi|].
  destruct (processFilename_tree_ok _ _ _ _ Hdi) as (Hn & Hok & _ & _).
  split; [exact Hn|]. split; [exact Hok|].
  intros fuel' Hfuel'.
  destruct (processFilename_returns MAXDEPTH VERBOSE FOLLOWDOT lstat readdir join
              sortByName countObToString fuel' depth filename Hfuel')
    as (di' & Hdi').
  rewrite Hdi'. f_equal.
  pose proof (processFilename_fuel MAXDEPTH VERBOSE FOLLOWDOT lstat readdir join
                sortByName countObToString fuel (fuel + fuel') depth filename di
                ltac:(lia) Hdi) as H1.
  pose proof (processFilename_fuel MAXDEPTH VERBOSE FOLLOWDOT lstat readdir join
                sortByName countObToString fuel' (fuel + fuel') depth filename di'
                ltac:(lia) Hdi') as H2.
  rewrite H1 in H2. now apply Some_eq in H2.
Qed.

(** X10. The tree of results is no deeper than the maximum depth
    allows: below a result at [depth] there are at most
    [MAXDEPTH - depth] levels of child results, and none when [depth]
    is the maximum or more.  Every child result is named by
    [path.join] of the name of its parent and a name of the listing. *)
Theorem result_tree_depth fuel depth filename di :
  Explorer.processFilename MAXDEPTH VERBOSE FOLLOWDOT lstat readdir join
                           sortByName countObToString fuel depth filename
  = Some di ->
  height di <= Z.to_nat (MAXDEPTH - Z.of_nat depth)
  /\ ((MAXDEPTH <= Z.of_nat depth)%Z -> height di = 0)
  /\ every_node (children_named join) di.
Proof.
  intros Hdi.
  destruct (processFilename_tree_ok _ _ _ _ Hdi) as (_ & _ & Hnamed & Hh).
  split; [exact Hh|]. split; [lia | exact Hnamed].
Qed.

End Tree.

Lemma result_tree_invariants_witness :
  Z.to_nat (1 - Z.of_nat 0) < 2
  /\ exists di,
      Explorer.processFilename 1 true false Sample.lstat Sample.readdir
                               Sample.join Sample.sortByName
                               Sample.countObToString 2 0 "root"
      = Some di
      /\ DirectoryInfo.name di = "root"
      /\ every_node node_ok di.
Proof.
  assert (Hfuel : Z.to_nat (1 - Z.of_nat 0) < 2) by (vm_compute; lia).
  split; [exact Hfuel|].
  destruct (result_tree_invariants 1 true false Sample.lstat Sample.readdir
              Sample.join Sample.sortByName Sample.countObToString
              2 0 "root" Hfuel) as (di & Hdi & Hn & Hok & _).
  exists di. auto.
Defined.

Lemma result_tree_depth_witness :
  exists di,
    Explorer.processFilename 1 false false Sample.lstat Sample.readdir
                             Sample.join Sample.sortByName
                             Sample.countObToString 2 0 "root"
    = Some di
    /\ height di = 1
    /\ height di <= Z.to_nat (1 - Z.of_nat 0).
Proof.
  eexists. split; [vm_compute; reflexivity|].
  split; [vm_compute; reflexivity|].
  apply (result_tree_depth 1 false false Sample.lstat Sample.readdir
           Sample.join Sample.sortByName Sample.countObToString 2 0 "root").
  vm_compute. reflexivity.
Defined.

(* ================================================================== *)
(** * What the renderer shows of a result *)
(* ================================================================== *)

Lemma spaces_head d d' c s c' s' :
  c <> " "%char -> c' <> " "%char ->
  (Render.spaces d ++ String c s)%string = (Render.spaces d' ++ String c' s')%string ->
  c = c' /\ s = s'.
Proof.
  intros Hc Hc'. revert d'. induction d as [|d IH]; intros [|d'];
    cbn [Render.spaces String.append]; intros E.
  - inversion E. auto.
  - inversion E. now elim Hc.
  - inversion E. now elim Hc'.
  - inversion E. eauto.
Qed.

Lemma printText_head d d' c s c' s' :
  c <> " "%char -> c' <> " "%char ->
  Render.printText d (String c s) = Render.printText d' (String c' s') ->
  c = c' /\ s = s'.
Proof.
  intros Hc Hc' E. unfold Render.printText in E. inversion E as [E'].
  exact (spaces_head _ _ _ _ _ _ Hc Hc' E').
Qed.

Lemma printAnswer_inj d d' a a' :
  Render.printAnswer d a = Render.printAnswer d' a' -> a = a'.
Proof.
  unfold Render.printAnswer. cbn [String.append]. intros E.
  apply printText_head in E; [|discriminate|discriminate].
  destruct E as [_ E]. now inversion E.
Qed.

Lemma printAnswer_not_entry d d' a n :
  Render.printAnswer d a <> Render.printEntry d' n.
Proof.
  unfold Render.printAnswer, Render.printEntry. cbn [String.append]. intros E.
  apply printText_head in E; [|discriminate|discriminate].
  destruct E as [E _]. discriminate E.
Qed.

Lemma printAnswer_not_error d d' a m :
  Render.printAnswer d a <> Render.printError d' m.
Proof.
  unfold Render.printAnswer, Render.printError. cbn [String.append]. intros E.
  apply printText_head in E; [|discriminate|discriminate].
  destruct E as [E _]. discriminate E.
Qed.

Lemma printAnswer_not_brace d d' a c :
  c <> "="%char -> c <> " "%char ->
  Render.printAnswer d a <> Render.printText d' (String c "").
Proof.
  unfold Render.printAnswer. cbn [String.append]. intros Hc Hs E.
  apply printText_head in E; [|discriminate|exact Hs].
  destruct E as [E _]. now elim Hc.
Qed.

(** In a tree of sound results, the answers shown are the renderer's
    own. *)
Lemma printResult_stock_answers :
  forall di, every_node node_ok di ->
  forall d d' a, In (Render.printAnswer d' a) (Render.printResult d di) ->
                 In a stock_answers.
Proof.
  fix IH 1. intros di.
  destruct di as [name kind identified error additionalInfo
                  identificationFailures answers collections verboseSummary
                  directoryInfos].
  intros [Hok Hchildren] d d' a Hin.
  cbn [Render.printResult] in Hin.
  destruct Hin as [E|Hin]; [symmetry in E; now apply printAnswer_not_entry in E|].
  unfold node_ok in Hok.
  cbn [DirectoryInfo.kind DirectoryInfo.identified DirectoryInfo.error
       DirectoryInfo.answers DirectoryInfo.collections
       DirectoryInfo.verboseSummary DirectoryInfo.directoryInfos] in Hok.
  destruct kind.
  - destruct Hin as [E|[E|[]]]; symmetry in E.
    + now apply printAnswer_not_entry in E.
    + apply printAnswer_inj in E. subst a. unfold stock_answers. cbn [In]. auto 6.
  - exfalso. destruct error as [err|].
    + destruct (Render.is_ENOENT (code err)); destruct Hin as [E|[]];
        symmetry in E; now apply printAnswer_not_error in E.
    + destruct Hin as [E|[]]; symmetry in E; now apply printAnswer_not_error in E.
  - destruct Hin as [E|[]]; symmetry in E.
    apply printAnswer_inj in E. subst a. unfold stock_answers. cbn [In]. auto 6.
  - destruct Hok as (_ & (children' & Hc & Hid) & Hiff & _).
    apply in_app_or in Hin. destruct Hin as [[E|[]]|Hin].
    { symmetry in E. exfalso. revert E. now apply printAnswer_not_brace. }
    apply in_app_or in Hin. destruct Hin as [Hin|[E|[]]].
    2: { symmetry in E. exfalso. revert E. now apply printAnswer_not_brace. }
    destruct directoryInfos as [[|child children]|];
      try (destruct Hin as [E|[]]; symmetry in E; apply printAnswer_inj in E;
           subst a; unfold stock_answers; cbn [In]; auto 6).
    apply Some_eq in Hc. subst children'.
    destruct identified; [specialize (Hid eq_refl); discriminate Hid|].
    destruct answers as [ans|];
      [assert (false = true) by (apply Hiff; left; discriminate); discriminate|].
    destruct collections as [c|];
      [assert (false = true) by (apply Hiff; right; discriminate); discriminate|].
    cbn [fold_right] in Hchildren. destruct Hchildren as [Hchild Hrest].
    apply in_app_or in Hin. destruct Hin as [Hin|Hin].
    { destruct identificationFailures as [[|? ?]|]; try destruct Hin as [E|[]];
        try discriminate E. destruct Hin. }
    cbn [app negb] in Hin.
    destruct Hin as [E|Hin].
    { symmetry in E. apply printAnswer_inj in E. subst a.
      unfold stock_answers. cbn [In]. auto 6. }
    apply in_app_or in Hin. destruct Hin as [Hin|Hin].
    { exact (IH child Hchild _ _ _ Hin). }
    clear Hchild Hid. revert Hrest Hin.
    induction children as [|c cs IHcs]; intros Hrest Hin; [destruct Hin|].
    cbn [flat_map] in Hin. cbn [fold_right] in Hrest.
    destruct Hrest as [Hc Hcs].
    apply in_app_or in Hin. destruct Hin as [Hin|Hin].
    + exact (IH c Hc _ _ _ Hin).
    + exact (IHcs Hcs Hin).
  - destruct Hin as [E|[E|[]]]; symmetry in E.
    + now apply printAnswer_not_entry in E.
    + apply printAnswer_inj in E. subst a. unfold stock_answers. cbn [In]. auto 6.
Qed.

(** X11. What [printResults] shows of a result of [processFilename]:
    every line ["=> ..."] carries one of the renderer's own five
    answers, so that no matched signature and no collection report is
    ever printed; and a directory that was identified is shown as
    ["<name>"], ["{"], ["=> empty"], ["}"], since it has no child
    results. *)
Theorem answers_never_printed
        MAXDEPTH VERBOSE FOLLOWDOT lstat readdir join sortByName countObToString
        fuel depth filename di :
  Explorer.processFilename MAXDEPTH VERBOSE FOLLOWDOT lstat readdir join
                           sortByName countObToString fuel depth filename
  = Some di ->
  (forall indent d a,
      In (Render.printAnswer d a) (Render.printResults [di] indent) ->
      In a stock_answers)
  /\ (forall indent,
         DirectoryInfo.kind di = Directory ->
         DirectoryInfo.identified di = true ->
         Render.printResults [di] indent
         = [ Render.printEntry indent filename
           ; Render.printText indent "{"
           ; Render.printAnswer indent "empty"
           ; Render.printText indent "}" ]).
Proof.
  intros Hdi.
  destruct (processFilename_tree_ok _ _ _ _ _ _ _ _ _ _ _ _ Hdi)
    as (Hn & Hok & _ & _).
  split.
  - intros indent d a Hin. unfold Render.printResults in Hin.
    cbn [flat_map] in Hin. rewrite app_nil_r in Hin.
    exact (printResult_stock_answers di Hok _ _ _ Hin).
  - intros indent Hkind Hid.
    destruct di as [name kind identified error additionalInfo
                    identificationFailures answers collections verboseSummary
                    directoryInfos].
    destruct Hok as [Hnode _]. unfold node_ok in Hnode.
    cbn [DirectoryInfo.kind DirectoryInfo.identified DirectoryInfo.name
         DirectoryInfo.error DirectoryInfo.answers DirectoryInfo.collections
         DirectoryInfo.verboseSummary DirectoryInfo.directoryInfos] in *.
    subst kind identified name.
    destruct Hnode as (_ & (children & Hc & Hnil) & _).
    rewrite (Hnil eq_refl) in Hc. subst directoryInfos.
    unfold Render.printResults. cbn [flat_map Render.printResult app].
    reflexivity.
Qed.

Lemma answers_never_printed_witness :
  exists di,
    Explorer.processFilename 1 false false Sample.lstat Sample.readdir
                             Sample.join Sample.sortByName
                             Sample.countObToString 2 0 "root/sub"
    = Some di
    /\ DirectoryInfo.collections di = Some "a collection of 2 .txt files"
    /\ Render.printResults [di] 0
       = [ Render.Line "<root/sub>"; Render.Line "{"; Render.Line "=> empty"
         ; Render.Line "}" ].
Proof.
  eexists. split; [vm_compute; reflexivity|].
  split; [vm_compute; reflexivity|].
  apply (proj2 (answers_never_printed
                  1 false false Sample.lstat Sample.readdir Sample.join
                  Sample.sortByName Sample.countObToString 2 0 "root/sub" _
                  eq_refl) 0); reflexivity.
Defined.

(* ================================================================== *)
(** * The verbose option and the output *)
(* ================================================================== *)

Lemma prints_alike_refl di : prints_alike di di.
Proof. intros depth. reflexivity. Qed.

Lemma flat_map_alike depth dis dis' :
  Forall2 prints_alike dis dis' ->
  flat_map (Render.printResult depth) dis = flat_map (Render.printResult depth) dis'.
Proof.
  induction 1 as [|di di' dis dis' H _ IH]; cbn [flat_map]; [reflexivity|].
  now rewrite (H depth), IH.
Qed.

Section Verbose.
Variable MAXDEPTH : Z.
Variables VERBOSE VERBOSE' FOLLOWDOT : bool.
Variable lstat : string -> throws Stats.t.
Variable readdir : string -> throws (list Dirent.t).
Variable join : string -> string -> string.
Variable sortByName : list Dirent.t -> list Dirent.t.
Variables countObToString countObToString' : extensionObject -> string.

Lemma explore_alike rec rec' depth filename which acc acc' :
  (forall d f, alike_results (rec d f) (rec' d f)) ->
  Forall2 prints_alike acc acc' ->
  alike_lists (Explorer.explore MAXDEPTH join rec depth filename which acc)
              (Explorer.explore MAXDEPTH join rec' depth filename which acc').
Proof.
  intros Hrec. revert acc acc'.
  induction which as [|w ws IH]; intros acc acc' Hacc; cbn [Explorer.explore].
  - exact Hacc.
  - destruct (Z.of_nat depth <? MAXDEPTH)%Z; [|now apply IH].
    specialize (Hrec (depth + 1) (join filename w)). unfold alike_results in Hrec.
    destruct (rec (depth + 1) (join filename w)) as [res|],
             (rec' (depth + 1) (join filename w)) as [res'|];
      try contradiction; [|exact I].
    apply IH. apply Forall2_app; [exact Hacc|]. constructor; [exact Hrec|constructor].
Qed.

Lemma processDirents_alike rec rec' depth filename dirents :
  (forall d f, alike_results (rec d f) (rec' d f)) ->
  alike_results
    (Explorer.processDirents MAXDEPTH VERBOSE FOLLOWDOT join countObToString
                             rec depth filename dirents)
    (Explorer.processDirents MAXDEPTH VERBOSE' FOLLOWDOT join countObToString'
                             rec' depth filename dirents).
Proof.
  intros Hrec. rewrite !processDirents_eq.
  destruct (0 <? List.length dirents); [|apply prints_alike_refl].
  match goal with
  | |- context [negb ?b] => destruct b
  end; cbn [negb]; [apply prints_alike_refl|].
  pose proof (explore_alike rec rec' depth filename
                (Explorer.whichDirectories FOLLOWDOT dirents) [] [] Hrec
                (Forall2_nil _)) as Hex.
  unfold alike_lists in Hex.
  destruct (Explorer.explore MAXDEPTH join rec _ _ _ _) as [children|],
           (Explorer.explore MAXDEPTH join rec' _ _ _ _) as [children'|];
    try contradiction; [|exact I].
  unfold alike_results. intros d. cbn [Render.printResult].
  destruct Hex as [|child child' children children' Hchild Hrest];
    [reflexivity|].
  now rewrite (Hchild (d + 1)), (flat_map_alike (d + 1) _ _ Hrest).
Qed.

Lemma processFilename_alike fuel depth filename :
  alike_results
    (Explorer.processFilename MAXDEPTH VERBOSE FOLLOWDOT lstat readdir join
                              sortByName countObToString fuel depth filename)
    (Explorer.processFilename MAXDEPTH VERBOSE' FOLLOWDOT lstat readdir join
                              sortByName countObToString' fuel depth filename).
Proof.
  revert depth filename. induction fuel as [|fuel IH]; intros depth filename.
  - exact I.
  - rewrite !processFilename_unfold.
    destruct (lstat filename) as [s|ex]; [|apply prints_alike_refl].
    destruct (Stats.isDirectory s).
    + destruct (Explorer.readdirAndStat _ _ _ _ _ _) as [direntstats|ex];
        [|apply prints_alike_refl].
      apply processDirents_alike. exact IH.
    + destruct (Stats.isFile s); [|destruct (Stats.isSymbolicLink s)];
        apply prints_alike_refl.
Qed.

(** X12. The option [-v] changes nothing in what is printed: with and
    without it (and whatever [countObToString] gives) [processFilename]
    returns results that [printResults] shows with the same lines.  The
    verbose summary is put into the result and not shown. *)
Theorem verbose_prints_the_same fuel depth filename indent :
  option_map (fun di => Render.printResults [di] indent)
    (Explorer.processFilename MAXDEPTH VERBOSE FOLLOWDOT lstat readdir join
                              sortByName countObToString fuel depth filename)
  = option_map (fun di => Render.printResults [di] indent)
      (Explorer.processFilename MAXDEPTH VERBOSE' FOLLOWDOT lstat readdir join
                                sortByName countObToString' fuel depth filename).
Proof.
  pose proof (processFilename_alike fuel depth filename) as H.
  unfold alike_results in H.
  destruct (Explorer.processFilename MAXDEPTH VERBOSE _ _ _ _ _ _ _ _ _) as [di|],
           (Explorer.processFilename MAXDEPTH VERBOSE' _ _ _ _ _ _ _ _ _) as [di'|];
    try contradiction; [|reflexivity].
  cbn [option_map]. unfold Render.printResults. cbn [flat_map].
  now rewrite (H indent).
Qed.

End Verbose.

(* ================================================================== *)
(** * The program as a whole *)
(* ================================================================== *)

(** X13. [main] gets one result for each path of the command line, in
    the order of the paths, and each result is named by its path and is
    a sound tree of results: [processFilename] returns a result for
    every one of them, a failure of [lstat] or [readdir] being a result
    of kind [Error], so that no path is left without a result. *)
Theorem main_results
        MAXDEPTH VERBOSE FOLLOWDOT lstat readdir join sortByName countObToString
        (fuel : nat) (args : list string) :
  Z.to_nat MAXDEPTH < fuel ->
  exists results,
    Explorer.main MAXDEPTH VERBOSE FOLLOWDOT lstat readdir join sortByName
                  countObToString fuel args
    = map Some results
    /\ map DirectoryInfo.name results = args
    /\ Forall (every_node node_ok) results.
Proof.
  intros Hfuel.
  unfold Explorer.main. induction args as [|arg args IH].
  - exists []. repeat split. constructor.
  - destruct IH as (results & Hres & Hnames & Hok).
    destruct (processFilename_returns MAXDEPTH VERBOSE FOLLOWDOT lstat readdir join
                sortByName countObToString fuel 0 arg) as (di & Hdi).
    { cbn [Z.of_nat]. rewrite Z.sub_0_r. exact Hfuel. }
    destruct (processFilename_tree_ok _ _ _ _ _ _ _ _ _ _ _ _ Hdi)
      as (Hn & Hnode & _ & _).
    exists (di :: results). cbn [map]. rewrite Hdi, Hres, Hn, Hnames.
    repeat split. now constructor.
Qed.

Lemma main_results_witness :
  Z.to_nat 1 < 2
  /\ exists results,
      Explorer.main 1 false false Sample.lstat Sample.readdir Sample.join
                    Sample.sortByName Sample.countObToString 2
                    ["root"; "root/x"; "nowhere"]
      = map Some results
      /\ map DirectoryInfo.name results = ["root"; "root/x"; "nowhere"].
Proof.
  assert (Hfuel : Z.to_nat 1 < 2) by (vm_compute; lia).
  split; [exact Hfuel|].
  destruct (main_results 1 false false Sample.lstat Sample.readdir Sample.join
              Sample.sortByName Sample.countObToString 2
              ["root"; "root/x"; "nowhere"] Hfuel)
    as (results & Hres & Hnames & _).
  exists results. auto.
Defined.

(* ================================================================== *)
(** * The listing of a directory *)
(* ================================================================== *)

(** X14. [readdirAndStat] on a directory that can be read, the sort
    being a permutation: there is one entry for each entry of the
    directory, with its name, in the sorted order; an entry has a size
    exactly when it still says it is a file; an entry with a stat error
    says it is neither file, directory nor symbolic link; and the
    broken entries are what the directory listed as a file and whose
    [lstat] failed with an error that has a code, since nothing else is
    looked at with [lstat]. *)
Theorem readdirAndStat_entries
        (lstat : string -> throws Stats.t)
        (readdir : string -> throws (list Dirent.t))
        (join : string -> string -> string)
        (sortByName : list Dirent.t -> list Dirent.t)
        (filename : string) (depth : nat) (raw : list Dirent.t) :
  (forall l, Permutation (sortByName l) l) ->
  readdir filename = inl raw ->
  exists ds,
    Explorer.readdirAndStat lstat readdir join sortByName filename depth = inl ds
    /\ map DirentStat.name ds = map Dirent.name (sortByName raw)
    /\ List.length ds = List.length raw
    /\ (forall d, In d ds ->
          (DirentStat.size d <> None <-> DirentStat.isFile d = true)
          /\ (DirentStat.statError d <> None ->
              DirentStat.isFile d = false /\ DirentStat.isDirectory d = false
              /\ DirentStat.isSymbolicLink d = false))
    /\ (forall n, In n (Buckets.brokenEntries ds) <->
          exists dirent ex,
            In dirent raw /\ Dirent.name dirent = n
            /\ Dirent.isFile dirent = true
            /\ lstat (join filename n) = inr ex
            /\ code ex <> None).
Proof.
  intros Hsort Hread. unfold Explorer.readdirAndStat. rewrite Hread.
  eexists. split; [reflexivity|].
  split; [|split; [|split]].
  - rewrite map_map. apply map_ext. intros dirent.
    destruct (Dirent.isFile dirent); [|reflexivity].
    destruct (lstat _); reflexivity.
  - rewrite length_map. apply Permutation_length, Hsort.
  - intros d Hd. apply in_map_iff in Hd. destruct Hd as (dirent & <- & _).
    destruct (Dirent.isFile dirent) eqn:Hf.
    + destruct (lstat _) as [s|ex]; cbn [DirentStat.size DirentStat.isFile
        DirentStat.statError DirentStat.isDirectory DirentStat.isSymbolicLink].
      * intuition congruence.
      * intuition congruence.
    + cbn [DirentStat.size DirentStat.isFile DirentStat.statError
           DirentStat.isDirectory DirentStat.isSymbolicLink].
      intuition congruence.
  - intros n. unfold Buckets.brokenEntries. rewrite bucket_In. split.
    + intros (d & Hd & Hname & Hland).
      apply (proj1 (lands_in_attributes d)) in Hland.
      apply in_map_iff in Hd. destruct Hd as (dirent & <- & Hin).
      apply (Permutation_in _ (Hsort raw)) in Hin.
      destruct (Dirent.isFile dirent) eqn:Hf.
      * destruct (lstat (join filename (Dirent.name dirent))) as [s|ex] eqn:Hl.
        -- now elim Hland.
        -- cbn [DirentStat.name DirentStat.statError] in Hname, Hland. subst n.
           exists dirent, ex. auto.
      * now elim Hland.
    + intros (dirent & ex & Hin & Hname & Hf & Hl & Hcode). subst n.
      apply (Permutation_in _ (Permutation_sym (Hsort raw))) in Hin.
      eexists. split; [apply in_map; exact Hin|].
      rewrite Hf, Hl. split; [reflexivity|].
      apply (proj2 (proj1 (lands_in_attributes _))). exact Hcode.
Qed.

Lemma readdirAndStat_entries_witness :
  (forall l, Permutation (Sample.sortByName l) l)
  /\ exists ds,
      Explorer.readdirAndStat Sample.lstat Sample.readdir Sample.join
                              Sample.sortByName "root" 0 = inl ds
      /\ map DirentStat.name ds = [".git"; "notes.d"; "sub"; "x"].
Proof.
  assert (Hsort : forall l, Permutation (Sample.sortByName l) l)
    by (intros l; apply Permutation_refl).
  split; [exact Hsort|].
  destruct (readdirAndStat_entries Sample.lstat Sample.readdir Sample.join
              Sample.sortByName "root" 0 _ Hsort eq_refl)
    as (ds & Hds & Hnames & _).
  exists ds. split; [exact Hds|]. rewrite Hnames. reflexivity.
Defined.

(* ================================================================== *)
(** * The two source files side by side *)
(* ================================================================== *)

Lemma Legacy_bucket_filter i dirents :
  Legacy.bucket i dirents
  = map DirentStat.name
        (filter (fun d => some_index Legacy.tests d 0 (List.length Legacy.tests) =? i)
                dirents).
Proof.
  unfold Legacy.bucket.
  change (@nil string) with (map DirentStat.name []).
  rewrite map_nth. now rewrite collate_nth.
Qed.

(** Without a symbolic link, the first test an entry passes in the
    newer file is the one it passes in the older file. *)
Lemma legacy_index d :
  DirentStat.isSymbolicLink d = false ->
  some_index tests d 0 (List.length tests)
  = match some_index Legacy.tests d 0 (List.length Legacy.tests) with
    | O => O
    | S j => S (S j)
    end.
Proof.
  destruct d as [f dr sl n sz e]. cbn [DirentStat.isSymbolicLink]. intros ->.
  simpl.
  destruct e as [e|], f, dr,
    (JS.first_is "." n), (JS.includes_char "." n), (UUIDRegex.test n);
    reflexivity.
Qed.

Lemma legacy_buckets dirents :
  (forall d, In d dirents -> DirentStat.isSymbolicLink d = false) ->
  Legacy.bucket 0 dirents = bucket 0 dirents
  /\ bucket 1 dirents = []
  /\ forall i, Legacy.bucket (S i) dirents = bucket (S (S i)) dirents.
Proof.
  intros Hno. split; [|split; [|intros i]];
    rewrite ?Legacy_bucket_filter, !bucket_filter.
  - f_equal. apply filter_ext_in. intros d Hd. rewrite (legacy_index d (Hno d Hd)).
    now destruct (some_index Legacy.tests d 0 (List.length Legacy.tests)).
  - change (@nil string) with (map DirentStat.name []). f_equal.
    induction dirents as [|d dirents IH]; [reflexivity|].
    cbn [filter]. rewrite (legacy_index d (Hno d (or_introl eq_refl))).
    destruct (some_index Legacy.tests d 0 (List.length Legacy.tests));
      cbn [Nat.eqb]; apply IH; intros d' Hd'; apply Hno; now right.
  - f_equal. apply filter_ext_in. intros d Hd. rewrite (legacy_index d (Hno d Hd)).
    now destruct (some_index Legacy.tests d 0 (List.length Legacy.tests)).
Qed.

Lemma filter_map_comm {A B : Type} (f : A -> B) (p : B -> bool) (l : list A) :
  filter p (map f l) = map f (filter (fun x => p (f x)) l).
Proof.
  induction l as [|x l IH]; cbn [map filter]; [reflexivity|].
  destruct (p (f x)); cbn [map]; now rewrite IH.
Qed.

Lemma filter_filter_comm {A : Type} (p q : A -> bool) (l : list A) :
  filter p (filter q l) = filter q (filter p l).
Proof.
  induction l as [|x l IH]; cbn [filter]; [reflexivity|].
  destruct (p x) eqn:Hp, (q x) eqn:Hq; cbn [filter]; rewrite ?Hp, ?Hq, IH;
    reflexivity.
Qed.

Lemma Legacy_run h :
  AutoIdentify.run Legacy.table h
  = filter in_both_tables (AutoIdentify.run AutoIdentify.table h).
Proof.
  rewrite !run_filter, filter_map_comm. unfold Legacy.table.
  now rewrite filter_filter_comm.
Qed.

Lemma Legacy_notes dotDirectories normalFiles dotFiles :
  Legacy.checkAdditionalNotes dotDirectories normalFiles dotFiles
  = map note_text (checkAdditionalNotes dotDirectories normalFiles dotFiles).
Proof.
  unfold Legacy.checkAdditionalNotes, checkAdditionalNotes. cbv zeta.
  destruct (includes dotDirectories [".git"]);
    [destruct (includes dotDirectories [".github"])|];
    destruct (includes normalFiles [Icon_cr] || includes dotFiles [".DS_Store"]);
    reflexivity.
Qed.

(** X15. The two source files side by side, on a listing without a
    symbolic link: the eight arrays of the older [src/dirsniff.ts] are
    the arrays of the same names of the newer file, whose array of
    symbolic links is empty; the older file finds the signatures the
    newer one finds but the two for macOS applications, which only the
    newer table has; the collection report is the same, and the notes of
    the older file are the texts of the notes of the newer one. *)
Theorem legacy_agrees_without_symlinks (dirents : list DirentStat.t) :
  (forall d, In d dirents -> DirentStat.isSymbolicLink d = false) ->
  (Legacy.bucket 0 dirents = Buckets.brokenEntries dirents
   /\ Legacy.bucket 1 dirents = Buckets.unknownEntries dirents
   /\ Legacy.bucket 2 dirents = Buckets.dotFiles dirents
   /\ Legacy.bucket 3 dirents = Buckets.normalFiles dirents
   /\ Legacy.bucket 4 dirents = Buckets.dotDirectories dirents
   /\ Legacy.bucket 5 dirents = Buckets.directoriesWithExtensions dirents
   /\ Legacy.bucket 6 dirents = Buckets.UUIDDirectories dirents
   /\ Legacy.bucket 7 dirents = Buckets.normalDirectories dirents
   /\ Buckets.symbolicLinks dirents = [])
  /\ legacy_answersOf dirents = filter in_both_tables (answersOf dirents)
  /\ legacy_foundCollectionOf dirents = foundCollectionOf dirents
  /\ legacy_notesOf dirents = map note_text (notesOf dirents).
Proof.
  intros Hno. destruct (legacy_buckets dirents Hno) as (H0 & H1 & HS).
  assert (Hb : Legacy.bucket 0 dirents = Buckets.brokenEntries dirents
               /\ Legacy.bucket 1 dirents = Buckets.unknownEntries dirents
               /\ Legacy.bucket 2 dirents = Buckets.dotFiles dirents
               /\ Legacy.bucket 3 dirents = Buckets.normalFiles dirents
               /\ Legacy.bucket 4 dirents = Buckets.dotDirectories dirents
               /\ Legacy.bucket 5 dirents = Buckets.directoriesWithExtensions dirents
               /\ Legacy.bucket 6 dirents = Buckets.UUIDDirectories dirents
               /\ Legacy.bucket 7 dirents = Buckets.normalDirectories dirents
               /\ Buckets.symbolicLinks dirents = []).
  { repeat split; first [exact H0 | exact H1 | apply HS]. }
  split; [exact Hb|].
  destruct Hb as (_ & _ & E2 & E3 & E4 & E5 & _ & E7 & E1).
  assert (Hfe : legacy_fileExtensions dirents = Buckets.fileExtensions dirents).
  { unfold legacy_fileExtensions, Buckets.fileExtensions. now rewrite E3. }
  split; [|split].
  - unfold legacy_answersOf, Legacy.autoIdentify.
    rewrite Legacy_run, answersOf_run. unfold haystacksOf.
    rewrite Hfe, E2, E3, E4, E5, E7, E1. reflexivity.
  - unfold legacy_foundCollectionOf, foundCollectionOf. now rewrite Hfe.
  - unfold legacy_notesOf, notesOf. rewrite Legacy_notes, E2, E3, E4. reflexivity.
Qed.

Lemma legacy_agrees_without_symlinks_witness :
  (forall d, In d [a_file "go.mod"; a_directory "Contents"; a_directory ".git"] ->
             DirentStat.isSymbolicLink d = false)
  /\ legacy_answersOf [a_file "go.mod"; a_directory "Contents"; a_directory ".git"]
     = ["Go module"].
Proof.
  assert (Hno : forall d,
             In d [a_file "go.mod"; a_directory "Contents"; a_directory ".git"] ->
             DirentStat.isSymbolicLink d = false).
  { intros d [<-|[<-|[<-|[]]]]; reflexivity. }
  split; [exact Hno|].
  rewrite (proj1 (proj2 (legacy_agrees_without_symlinks _ Hno))).
  vm_compute. reflexivity.
Defined.

Lemma pair_eq {A B : Type} (a c : A) (b d : B) :
  (a, b) = (c, d) -> a = c /\ b = d.
Proof. intros H. now inversion H. Qed.

Section LegacyOutput.
Variable MAXDEPTH : Z.
Variables VERBOSE FOLLOWDOT : bool.
Variable join : string -> string -> string.
Variable countObToString : extensionObject -> string.
Variable lstat : string -> throws Stats.t.
Variable readdir : string -> throws (list Dirent.t).
Variable sortByName : list Dirent.t -> list Dirent.t.

Abbreviation legacy_explore := (Legacy.explore MAXDEPTH join).
Abbreviation legacy_processDirents :=
  (Legacy.processDirents MAXDEPTH VERBOSE FOLLOWDOT join countObToString).
Abbreviation legacy_processFilename :=
  (Legacy.processFilename MAXDEPTH VERBOSE FOLLOWDOT join countObToString
                          lstat readdir sortByName).

Lemma Legacy_explore_too_deep rec depth filename which :
  (MAXDEPTH <= Z.of_nat depth)%Z ->
  legacy_explore rec depth filename which = Some [].
Proof.
  intros Hge. induction which as [|w ws IH]; cbn [Legacy.explore]; [reflexivity|].
  destruct (Z.ltb_spec (Z.of_nat depth) MAXDEPTH); [lia | exact IH].
Qed.

(** Below the maximum depth the loop goes into every directory of its
    list, in order, and puts what each call prints between braces. *)
Lemma Legacy_explore_runs rec depth filename which :
  (Z.of_nat depth < MAXDEPTH)%Z ->
  (forall w, In w which -> exists out, rec (depth + 1) (join filename w) = Some out) ->
  exists outs,
    Forall2 (fun w out => rec (depth + 1) (join filename w) = Some out) which outs
    /\ legacy_explore rec depth filename which
       = Some (flat_map (legacy_child_lines depth) outs).
Proof.
  intros Hlt. induction which as [|w ws IH]; intros Hrec.
  - exists []. split; [constructor | reflexivity].
  - destruct (Hrec w (or_introl eq_refl)) as (out & Hout).
    destruct IH as (outs & HF & Hex); [intros w' Hw'; apply Hrec; now right|].
    exists (out :: outs). split; [now constructor|].
    cbn [Legacy.explore]. cbv zeta.
    destruct (Z.ltb_spec (Z.of_nat depth) MAXDEPTH); [|lia].
    rewrite Hout, Hex. cbn [flat_map]. unfold legacy_child_lines.
    cbn [app]. now rewrite <- app_assoc.
Qed.

Lemma Legacy_processDirents_eq rec depth filename dirents :
  legacy_processDirents rec depth filename dirents
  = let out0 :=
      [Render.printEntry depth filename]
        ++ (if negb (List.length (Legacy.bucket 8 dirents) =? 0)
            then [Render.NotCollated (Some (Legacy.bucket 8 dirents))]
            else []) in
    if List.length dirents =? 0 then
      Some (out0 ++ [Render.printAnswer depth "empty"], true)
    else
      let out1 := legacy_found_lines depth dirents in
      let out2 :=
        if negb (legacy_identifiedOf dirents)
        then [Render.printAnswer depth "unidentified"] else [] in
      let out3 :=
        map (fun add => Render.printAnswer depth ("  with " ++ add)%string)
            (legacy_notesOf dirents) in
      if negb (legacy_identifiedOf dirents) then
        let out4 :=
          if VERBOSE
          then Legacy.verboseSummary countObToString depth
                                     (legacy_collectionsOf dirents)
          else [] in
        match legacy_explore rec depth filename
                (legacy_whichDirectories FOLLOWDOT dirents)
        with
        | Some out5 =>
            Some (out0 ++ out1 ++ out2 ++ out3 ++ out4 ++ out5,
                  legacy_identifiedOf dirents)
        | None => None
        end
      else Some (out0 ++ out1 ++ out2 ++ out3, legacy_identifiedOf dirents).
Proof.
  unfold Legacy.processDirents, legacy_found_lines, legacy_identifiedOf,
    legacy_notesOf, legacy_answersOf, legacy_foundCollectionOf,
    legacy_fileExtensions, legacy_collectionsOf, legacy_whichDirectories.
  cbv zeta. reflexivity.
Qed.

(** What [processDirents] of the older file prints and returns for a
    listing that is not empty, the calls for the directories below
    returning. *)
Lemma Legacy_processDirents_output rec depth filename dirents :
  dirents <> [] ->
  ((Z.of_nat depth < MAXDEPTH)%Z ->
   forall w, In w (legacy_whichDirectories FOLLOWDOT dirents) ->
             exists out, rec (depth + 1) (join filename w) = Some out) ->
  exists below,
    legacy_processDirents rec depth filename dirents
    = Some ([Render.printEntry depth filename]
              ++ legacy_found_lines depth dirents
              ++ (if legacy_identifiedOf dirents then []
                  else [Render.printAnswer depth "unidentified"])
              ++ map (fun add => Render.printAnswer depth ("  with " ++ add)%string)
                     (legacy_notesOf dirents)
              ++ below,
            legacy_identifiedOf dirents)
    /\ (legacy_identifiedOf dirents = true -> below = [])
    /\ (legacy_identifiedOf dirents = false ->
        exists outs,
          Forall2 (fun w out => rec (depth + 1) (join filename w) = Some out)
                  (if (Z.of_nat depth <? MAXDEPTH)%Z
                   then legacy_whichDirectories FOLLOWDOT dirents else [])
                  outs
          /\ below
             = (if VERBOSE
                then Legacy.verboseSummary countObToString depth
                                           (legacy_collectionsOf dirents)
                else [])
                 ++ flat_map (legacy_child_lines depth) outs).
Proof.
  intros Hne Hrec. rewrite Legacy_processDirents_eq. cbv zeta.
  rewrite Legacy_shouldBeEmpty_nil. cbn [List.length Nat.eqb negb app].
  destruct dirents as [|d dirents']; [now elim Hne|].
  cbn [List.length Nat.eqb].
  destruct (legacy_identifiedOf (d :: dirents')) eqn:Hid; cbn [negb].
  - exists []. split; [now rewrite !app_nil_r|].
    split; [reflexivity | discriminate].
  - destruct (Z.ltb_spec (Z.of_nat depth) MAXDEPTH) as [Hlt|Hge].
    + destruct (Legacy_explore_runs rec depth filename _ Hlt (Hrec Hlt))
        as (outs & HF & Hex).
      rewrite Hex. eexists. split; [cbn [app]; reflexivity|].
      split; [discriminate|]. intros _. exists outs. split; [exact HF | reflexivity].
    + rewrite (Legacy_explore_too_deep rec depth filename _ Hge).
      eexists. split; [cbn [app]; reflexivity|].
      split; [discriminate|]. intros _. exists []. split; [constructor | reflexivity].
Qed.

Lemma Legacy_processDirents_returns rec depth filename dirents :
  ((Z.of_nat depth < MAXDEPTH)%Z ->
   forall w, In w (legacy_whichDirectories FOLLOWDOT dirents) ->
             exists out, rec (depth + 1) (join filename w) = Some out) ->
  exists r, legacy_processDirents rec depth filename dirents = Some r.
Proof.
  intros Hrec. destruct dirents as [|d dirents'].
  - rewrite Legacy_processDirents_eq. cbv zeta. cbn [List.length Nat.eqb]. eauto.
  - destruct (Legacy_processDirents_output rec depth filename (d :: dirents'))
      as (below & E & _); [discriminate | exact Hrec | eauto].
Qed.

Lemma Legacy_processFilename_unfold fuel depth filename :
  legacy_processFilename (S fuel) depth filename
  = match lstat filename with
    | inl s =>
        if Stats.isDirectory s then
          match Legacy.readdirAndStat join lstat readdir sortByName filename depth with
          | inl direntstats =>
              option_map fst
                (legacy_processDirents (legacy_processFilename fuel) depth filename
                                       direntstats)
          | inr ex => Some (Legacy.failure depth filename ex)
          end
        else if Stats.isFile s then
          Some [Render.printEntry depth filename; Render.printAnswer depth "file"]
        else
          Some [Render.printEntry depth filename;
                Render.printAnswer depth "neither file nor directory"]
    | inr ex => Some (Legacy.failure depth filename ex)
    end.
Proof. reflexivity. Qed.

(** [processFilename] of the older file returns, whatever the file
    system holds. *)
Lemma Legacy_processFilename_returns fuel depth filename :
  Z.to_nat (MAXDEPTH - Z.of_nat depth) < fuel ->
  exists out, legacy_processFilename fuel depth filename = Some out.
Proof.
  revert depth filename. induction fuel as [|fuel IH]; intros depth filename Hfuel;
    [lia|].
  rewrite Legacy_processFilename_unfold.
  destruct (lstat filename) as [s|ex]; [|eauto].
  destruct (Stats.isDirectory s).
  - destruct (Legacy.readdirAndStat _ _ _ _ _ _) as [direntstats|ex]; [|eauto].
    destruct (Legacy_processDirents_returns (legacy_processFilename fuel) depth
                filename direntstats) as (r & Hr).
    { intros Hlt w _. apply IH. lia. }
    rewrite Hr. cbn [option_map]. eauto.
  - destruct (Stats.isFile s); eauto.
Qed.

(** X16. What the older [src/dirsniff.ts] prints in [processDirents]
    for a listing that is not empty, which it always does: the name of
    the directory, then a line for each signature that matched or,
    without one, a line for the collection report, then
    ["=> unidentified"] when there was neither, then a line for each
    note.  For an identified directory nothing follows.  For an
    unidentified one there follow the verbose summary, when the option
    is set, and, when the depth is below the maximum, for each directory
    to go into, in their order, what [processFilename] prints for it one
    level down, between a line ["{"] and a line ["}"]; at the maximum
    depth no directory is gone into.  The value returned says whether a
    signature matched or a collection was found. *)
Theorem legacy_prints_what_it_found
        (fuel depth : nat) (filename : string) (dirents : list DirentStat.t) :
  dirents <> [] ->
  Z.to_nat (MAXDEPTH - Z.of_nat depth) <= fuel ->
  exists below,
    legacy_processDirents (legacy_processFilename fuel) depth filename dirents
    = Some ([Render.printEntry depth filename]
              ++ legacy_found_lines depth dirents
              ++ (if legacy_identifiedOf dirents then []
                  else [Render.printAnswer depth "unidentified"])
              ++ map (fun add => Render.printAnswer depth ("  with " ++ add)%string)
                     (legacy_notesOf dirents)
              ++ below,
            legacy_identifiedOf dirents)
    /\ (legacy_identifiedOf dirents = true -> below = [])
    /\ (legacy_identifiedOf dirents = false ->
        exists outs,
          Forall2 (fun w out =>
                     legacy_processFilename fuel (depth + 1) (join filename w)
                     = Some out)
                  (if (Z.of_nat depth <? MAXDEPTH)%Z
                   then legacy_whichDirectories FOLLOWDOT dirents else [])
                  outs
          /\ below
             = (if VERBOSE
                then Legacy.verboseSummary countObToString depth
                                           (legacy_collectionsOf dirents)
                else [])
                 ++ flat_map (legacy_child_lines depth) outs).
Proof.
  intros Hne Hfuel.
  apply (Legacy_processDirents_output (legacy_processFilename fuel) depth filename
           dirents Hne).
  intros Hlt w _. apply Legacy_processFilename_returns. lia.
Qed.

End LegacyOutput.

Lemma legacy_prints_what_it_found_witness :
  Sample.root_dirents <> []
  /\ Z.to_nat (1 - Z.of_nat 0) <= 1
  /\ legacy_identifiedOf Sample.root_dirents = false
  /\ exists below,
      Legacy.processDirents 1 false false Sample.join Sample.countObToString
        (Legacy.processFilename 1 false false Sample.join Sample.countObToString
                                Sample.lstat Sample.readdir Sample.sortByName 1)
        0 "root" Sample.root_dirents
      = Some ([ Render.Line "<root>"; Render.Line "=> unidentified"
              ; Render.Line "=>   with Git repository" ] ++ below,
              false)
      /\ below
         = [ Render.Line "{"; Render.Line " <root/sub>"
           ; Render.Line " => a collection of 2 .txt files"; Render.Line "}"
           ; Render.Line "{"; Render.Line " <root/notes.d>"
           ; Render.Line " => empty"; Render.Line "}" ].
Proof.
  assert (Hne : Sample.root_dirents <> []) by discriminate.
  assert (Hfuel : Z.to_nat (1 - Z.of_nat 0) <= 1) by (vm_compute; lia).
  split; [exact Hne|]. split; [exact Hfuel|]. split; [vm_compute; reflexivity|].
  destruct (legacy_prints_what_it_found
              1 false false Sample.join Sample.countObToString
              Sample.lstat Sample.readdir Sample.sortByName
              1 0 "root" Sample.root_dirents Hne Hfuel)
    as (below & E & _ & _).
  exists below. split; [exact E|].
  vm_compute in E. apply Some_eq in E. apply pair_eq in E. destruct E as [E _].
  inversion E. reflexivity.
Defined.

(* ================================================================== *)
(** * Paths that are not a directory to look into *)
(* ================================================================== *)

Section Leaves.
Variable MAXDEPTH : Z.
Variables VERBOSE FOLLOWDOT : bool.
Variable lstat : string -> throws Stats.t.
Variable readdir : string -> throws (list Dirent.t).
Variable join : string -> string -> string.
Variable sortByName : list Dirent.t -> list Dirent.t.
Variable countObToString : extensionObject -> string.

(** X17. What the program prints for a path that is not a directory it
    can list, at whatever depth: for a path [lstat] fails on, and for a
    directory [readdir] fails on, the name and one line with the error,
    ["no such file: <name>"] when the code of the error is [ENOENT] and
    the message of the error otherwise; for a file the name and
    ["=> file"]; for a symbolic link and for any other kind of entry the
    name twice and then the answer. *)
Theorem output_for_leaves (fuel depth indent : nat) (filename : string) :
  let printed :=
    option_map (fun di => Render.printResults [di] indent)
      (Explorer.processFilename MAXDEPTH VERBOSE FOLLOWDOT lstat readdir join
                                sortByName countObToString (S fuel) depth filename) in
  let failure (ex : ErrnoException) :=
    [ Render.printEntry indent filename
    ; Render.printError indent
        (if Render.is_ENOENT (code ex)
         then "no such file: " ++ filename
         else "err: " ++ message ex)%string ] in
  match lstat filename with
  | inr ex => printed = Some (failure ex)
  | inl s =>
      if Stats.isDirectory s then
        forall ex, readdir filename = inr ex -> printed = Some (failure ex)
      else if Stats.isFile s then
        printed = Some [ Render.printEntry indent filename
                       ; Render.printAnswer indent "file" ]
      else if Stats.isSymbolicLink s then
        printed = Some [ Render.printEntry indent filename
                       ; Render.printEntry indent filename
                       ; Render.printAnswer indent "symlink" ]
      else
        printed = Some [ Render.printEntry indent filename
                       ; Render.printEntry indent filename
                       ; Render.printAnswer indent "neither file nor directory" ]
  end.
Proof.
  intros printed failure. subst printed failure.
  rewrite processFilename_unfold.
  destruct (lstat filename) as [s|ex].
  - destruct (Stats.isDirectory s).
    + intros ex Hread. unfold Explorer.readdirAndStat. rewrite Hread.
      cbn [option_map]. unfold Render.printResults, Explorer.leaf.
      cbn [flat_map Render.printResult app].
      destruct (Render.is_ENOENT (code ex)); reflexivity.
    + destruct (Stats.isFile s); [reflexivity|].
      destruct (Stats.isSymbolicLink s); reflexivity.
  - cbn [option_map]. unfold Render.printResults, Explorer.leaf.
    cbn [flat_map Render.printResult app].
    destruct (Render.is_ENOENT (code ex)); reflexivity.
Qed.

End Leaves.

(* ================================================================== *)
(** * Upper and lower case in the extensions *)
(* ================================================================== *)

Lemma lower_char_idempotent c : JS.lower_char (JS.lower_char c) = JS.lower_char c.
Proof. destruct c as [[] [] [] [] [] [] [] []]; reflexivity. Qed.

Lemma toLowerCase_idempotent s : JS.toLowerCase (JS.toLowerCase s) = JS.toLowerCase s.
Proof.
  induction s as [|c s IH]; [reflexivity|].
  cbn [JS.toLowerCase]. now rewrite lower_char_idempotent, IH.
Qed.

Lemma count_loop_folded array obj :
  fold_left (count_step true) array obj
  = fold_left (count_step false) (map JS.toLowerCase array) obj.
Proof.
  revert obj. induction array as [|x array IH]; intros obj; [reflexivity|].
  cbn [map fold_left]. rewrite IH. reflexivity.
Qed.

(** X18. The collection heuristic does not tell upper from lower case
    in the extensions: two arrays of extensions that are the same up to
    case give the same table and the same report; and the keys of the
    table are in lower case. *)
Theorem collection_report_ignores_case (fileExtensions fileExtensions' : list string) :
  map JS.toLowerCase fileExtensions = map JS.toLowerCase fileExtensions' ->
  countArrayFieldsToObject fileExtensions true
  = countArrayFieldsToObject fileExtensions' true
  /\ Collections.checkForCollections
       (countArrayFieldsToObject fileExtensions true) fileExtensions
     = Collections.checkForCollections
         (countArrayFieldsToObject fileExtensions' true) fileExtensions'
  /\ forall k, In k (keys (countArrayFieldsToObject fileExtensions true)) ->
               JS.toLowerCase k = k.
Proof.
  intros H.
  assert (E : countArrayFieldsToObject fileExtensions true
              = countArrayFieldsToObject fileExtensions' true).
  { rewrite !countArrayFieldsToObject_loop, !count_loop_folded. now rewrite H. }
  split; [exact E|]. split.
  - rewrite <- E. unfold Collections.checkForCollections. cbv zeta.
    destruct (List.length (keys (countArrayFieldsToObject fileExtensions true)) =? 1);
      [reflexivity|].
    destruct (0 <? List.length (keys (countArrayFieldsToObject fileExtensions true)));
      [|reflexivity].
    assert (Hlen : List.length fileExtensions = List.length fileExtensions').
    { rewrite <- (length_map JS.toLowerCase fileExtensions), H. apply length_map. }
    generalize (keys (countArrayFieldsToObject fileExtensions true)). intros distinct.
    induction Collections.extensions as [|e classes IH];
      cbn [Collections.some_class]; [reflexivity|].
    now rewrite Hlen, IH.
  - intros k Hk. apply count_keys_In in Hk. apply in_map_iff in Hk.
    destruct Hk as (x & <- & _). apply toLowerCase_idempotent.
Qed.

Lemma collection_report_ignores_case_witness :
  map JS.toLowerCase [".JPG"; ".jpg"; ".Png"] = map JS.toLowerCase [".jpg"; ".Jpg"; ".PNG"]
  /\ Collections.checkForCollections
       (countArrayFieldsToObject [".JPG"; ".jpg"; ".Png"] true) [".JPG"; ".jpg"; ".Png"]
     = Collections.checkForCollections
         (countArrayFieldsToObject [".jpg"; ".Jpg"; ".PNG"] true)
         [".jpg"; ".Jpg"; ".PNG"].
Proof.
  assert (H : map JS.toLowerCase [".JPG"; ".jpg"; ".Png"]
              = map JS.toLowerCase [".jpg"; ".Jpg"; ".PNG"]) by reflexivity.
  split; [exact H|].
  apply (proj1 (proj2 (collection_report_ignores_case _ _ H))).
Defined.
